(** * replay_trajectory_classification: the classifier's state-space engine

    A shallow embedding of [classifier.py] and [observation_model.py]:
    the constructor of [_ClassifierBase], the padding done by the [fit_*]
    methods, the result assembly of [_get_results] with its two
    environment modes, and the refinement loop [estimate_parameters].

    Arrays are nested lists.  The trailing axis of length one that the
    source carries on every probability array ([[..., np.newaxis]]) holds a
    single cell and is kept implicit: a cell of the nested list stands for
    that one-element axis. *)

From Stdlib Require Import String List Bool Arith ZArith QArith Lia.
Import ListNotations.

Local Open Scope nat_scope.

(** ** Numbers

    A numpy cell is either a number or one of the IEEE specials.  Finite
    values are exact rationals: the properties below are about where NaN
    and 0 are placed and about shapes, not about rounding. *)

Inductive float : Type :=
| NaN
| PInf
| NInf
| Fin (q : Q).

Definition zero : float := Fin 0.

Definition isnan (x : float) : bool :=
  match x with NaN => true | _ => false end.

Definition vec := list float.
Definition mat := list (list float).
Definition arr3 := list (list (list float)).
Definition arr4 := list (list (list (list float))).

(** ** Exceptions

    Python exceptions raised by the modelled code, and the error monad that
    threads them. *)

Inductive exn : Type :=
| IndexError
| ValueError
| KeyError
| AttributeError
| TypeError
| NotImplementedError
| CoreError.

Inductive result (A : Type) : Type :=
| Ok (a : A)
| Raise (e : exn).

Arguments Ok {A} a.
Arguments Raise {A} e.

Definition bind {A B} (r : result A) (k : A -> result B) : result B :=
  match r with
  | Ok a => k a
  | Raise e => Raise e
  end.

Declare Scope result_scope.
Delimit Scope result_scope with result.
Notation "'do' x <- r ; k" := (bind r (fun x => k))
  (at level 10, x pattern, r at level 100, k at level 200) : result_scope.
Local Open Scope result_scope.

Fixpoint mapM {A B} (f : A -> result B) (l : list A) : result (list B) :=
  match l with
  | [] => Ok []
  | x :: xs => do y <- f x; do ys <- mapM f xs; Ok (y :: ys)
  end.

(** ** observation_model.py *)

(** [encoding_group] is annotated [str] but defaults to the integer [0];
    both kinds of label are kept. *)
Inductive label : Type :=
| LInt (z : Z)
| LStr (s : string).

Definition label_eqb (a b : label) : bool :=
  match a, b with
  | LInt x, LInt y => Z.eqb x y
  | LStr x, LStr y => String.eqb x y
  | _, _ => false
  end.

Record ObservationModel : Type := mkObservationModel {
  environment_name : string;
  encoding_group : label
}.

(** [ObservationModel(env_name)]: the dataclass default of the second field. *)
Definition ObservationModel_default (env_name : string) : ObservationModel :=
  mkObservationModel env_name (LInt 0).

Definition obs_eqb (a b : ObservationModel) : bool :=
  String.eqb (environment_name a) (environment_name b)
  && label_eqb (encoding_group a) (encoding_group b).

(** ** Environments

    The fitted attributes of [Environment] that the classifier reads.
    [is_track_interior_] is the flag array already ravelled in Fortran
    order, as every use in the classifier ravels it. *)

Record Environment : Type := mkEnvironment {
  env_name : string;
  n_place_bins : nat;                 (* place_bin_centers_.shape[0] *)
  n_position_dims : nat;              (* place_bin_centers_.shape[1] *)
  is_track_interior_ : list bool;     (* is_track_interior_.ravel(order="F") *)
  centers_shape_ : nat * nat
}.

(** ** _ClassifierBase.__init__ *)

(** The [environments] argument: one [Environment] or a sequence of them. *)
Inductive environments_arg : Type :=
| OneEnvironment (e : Environment)
| Environments (l : list Environment).

(** The movement-model classes of [continuous_state_transitions]; the
    entries of [continuous_transition_types] are instances of them. *)
Inductive transition_type : Type :=
| EmpiricalMovement
| RandomWalk
| RandomWalkDirection1
| RandomWalkDirection2
| Uniform.

Record init_attrs : Type := mkInit {
  init_environments : list Environment;
  init_observation_models : list ObservationModel;
  init_continuous_transition_types : list (list transition_type)
}.

Definition _ClassifierBase__init__
    (environments : environments_arg)
    (observation_models : option (list ObservationModel))
    (continuous_transition_types : list (list transition_type))
  : result init_attrs :=
  let environments :=
    match environments with
    | OneEnvironment e => [e]
    | Environments l => l
    end in
  do observation_models <-
    match observation_models with
    | None =>
        let n_states := length continuous_transition_types in
        match environments with
        | [] => Raise IndexError
        | e0 :: _ =>
            Ok (repeat (ObservationModel_default (env_name e0)) n_states)
        end
    | Some oms => Ok oms
    end;
  Ok (mkInit environments observation_models continuous_transition_types).

(** ** numpy helpers *)

(** Broadcasting of one axis of an assigned value to the extent [n] of the
    target: the extents agree, or the value has extent one and is repeated;
    anything else is numpy's "could not broadcast" [ValueError]. *)
Definition broadcast_axis {A} (n : nat) (l : list A) : result (list A) :=
  if length l =? n then Ok l
  else match l with
       | [x] => Ok (repeat x n)
       | _ => Raise ValueError
       end.

(** [row[:len(src)] = src] on one axis: the slice is clipped to the row. *)
Definition assign_prefix {A} (row src : list A) : result (list A) :=
  let w := Nat.min (length src) (length row) in
  do v <- broadcast_axis w src;
  Ok (v ++ skipn w row).

(** [for ind, src in enumerate(srcs): assign(tgt[ind], src)]: the sources
    are written to the targets of the same index, in order; an index past
    the end of the target is an [IndexError]. *)
Fixpoint assign_each {A B} (assign : A -> B -> result A)
    (tgt : list A) (srcs : list B) {struct srcs} : result (list A) :=
  match srcs, tgt with
  | [], _ => Ok tgt
  | _ :: _, [] => Raise IndexError
  | s :: ss, t :: ts =>
      do t' <- assign t s;
      do ts' <- assign_each assign ts ss;
      Ok (t' :: ts')
  end.

(** [tgt[:st.shape[0], :st.shape[1]] = st] for two-axis arrays. *)
Definition assign_block (tgt st : mat) : result mat :=
  let h := Nat.min (length st) (length tgt) in
  do rows <- broadcast_axis h st;
  do top <- assign_each assign_prefix (firstn h tgt) rows;
  Ok (top ++ skipn h tgt).

(** [np.max] of a list of extents; the empty list is a [ValueError]. *)
Definition np_max (l : list nat) : result nat :=
  match l with
  | [] => Raise ValueError
  | x :: xs => Ok (fold_left Nat.max xs x)
  end.

Definition zeros1 (n : nat) : vec := repeat zero n.
Definition zeros2 (n m : nat) : mat := repeat (zeros1 m) n.
Definition zeros4 (a b n m : nat) : arr4 := repeat (repeat (zeros2 n m) b) a.

(** ** The fit methods *)

(** [fit_environments], after every environment's grid has been fitted:
    the widest bin axis. *)
Definition max_pos_bins_of (environments : list Environment) : result nat :=
  np_max (map n_place_bins environments).

(** [fit_initial_conditions].  [initial_conditions] is what
    [initial_conditions_type.make_initial_conditions] returned: one vector
    over the bins of its environment per state. *)
Definition fit_initial_conditions
    (observation_models : list ObservationModel) (max_pos_bins_ : nat)
    (initial_conditions : list vec) : result mat :=
  let n_states := length observation_models in
  assign_each assign_prefix (zeros2 n_states max_pos_bins_) initial_conditions.

(** [fit_continuous_state_transition].  [continuous_state_transition] is the
    list of lists of kernels that the [make_state_transition] calls returned,
    one per entry of [continuous_transition_types]. *)
Definition fit_continuous_state_transition
    (max_pos_bins_ : nat) (continuous_state_transition : list (list mat))
  : result arr4 :=
  let n_states := length continuous_state_transition in
  assign_each (assign_each assign_block)
    (zeros4 n_states n_states max_pos_bins_ max_pos_bins_)
    continuous_state_transition.

(** Cell access with an explicit "no such cell". *)
Definition cell2 (a : mat) (i j : nat) : option float :=
  match nth_error a i with
  | Some r => nth_error r j
  | None => None
  end.

Definition cell4 (a : arr4) (i j k l : nat) : option float :=
  match nth_error a i with
  | Some b =>
      match nth_error b j with
      | Some m => cell2 m k l
      | None => None
      end
  | None => None
  end.

(** Shapes: every row on every axis has the stated extent. *)
Definition has_shape2 (a : mat) (n m : nat) : Prop :=
  length a = n /\ Forall (fun r => length r = m) a.

Definition has_shape3 (a : arr3) (t n m : nat) : Prop :=
  length a = t /\ Forall (fun s => has_shape2 s n m) a.

Definition has_shape4 (a : arr4) (p q n m : nat) : Prop :=
  length a = p /\ Forall (fun b => length b = q /\
                                   Forall (fun k => has_shape2 k n m) b) a.

(** ** The classifier and what it imports from [core] *)

(** [initial_conditions_] has shape (n_states, n_bins, 1) after [fit]; the
    refinement loop may replace it by a slice of a two-dimensional result,
    of shape (n_states, n_x, n_y, 1). *)
Inductive ic_array : Type :=
| IC1 (m : mat)
| IC2 (m : arr3).

(** The likelihood dictionary: (environment name, encoding group) to an
    array of shape (n_time, n_bins). *)
Definition likelihood_dict := list ((string * label) * mat).

Fixpoint dict_get (k : string * label) (d : likelihood_dict) : result mat :=
  match d with
  | [] => Raise KeyError
  | ((n, g), v) :: d' =>
      if String.eqb n (fst k) && label_eqb g (snd k) then Ok v
      else dict_get k d'
  end.

Record Classifier : Type := mkClassifier {
  environments : list Environment;
  observation_models : list ObservationModel;
  continuous_transition_types : list (list transition_type);
  max_pos_bins_ : nat;
  initial_conditions_ : ic_array;
  continuous_state_transition_ : arr4;
  discrete_state_transition_ : mat;
  likelihood_ : option likelihood_dict
}.

(** A data variable of the returned [xr.Dataset]: dims (time, state,
    position), or (time, state, x_position, y_position). *)
Inductive data_var : Type :=
| Var1 (a : arr3)
| Var2 (a : arr4).

Record Dataset : Type := mkDataset {
  ds_time : list Q;
  ds_n_state_names : nat;
  ds_likelihood : data_var;
  ds_causal_posterior : data_var;
  ds_acausal_posterior : option data_var;
  data_log_likelihood : float
}.

Inductive dtype : Type := float32 | float64.

(** The functions of [replay_trajectory_classification.core] and
    [discrete_state_transitions] that the classifier calls; their code is
    not part of these sources, so they are parameters of the embedding.
    The recursions receive (initial conditions, continuous transition,
    discrete transition, likelihood). *)
Record Core : Type := mkCore {
  scaled_likelihood : arr3 -> arr3;            (* called with axis=(1, 2) *)
  _causal_classify :
    ic_array -> arr4 -> mat -> arr3 -> result (arr3 * float);
  _acausal_classify : arr3 -> arr4 -> mat -> result arr3;
  _causal_classify_gpu :
    ic_array -> arr4 -> mat -> arr3 -> result (arr3 * float);
  _acausal_classify_gpu : arr3 -> arr4 -> mat -> result arr3;
  round32 : float -> float;                    (* one cell, astype(float32) *)
  check_converged : float -> float -> Q -> bool * bool;
  estimate_discrete_state_transition : Classifier -> Dataset -> result mat
}.

Definition astype (core : Core) (d : dtype) (x : float) : float :=
  match d with
  | float64 => x
  | float32 => round32 core x
  end.

Definition astype1 core d : vec -> vec := map (astype core d).
Definition astype2 core d : mat -> mat := map (astype1 core d).
Definition astype3 core d : arr3 -> arr3 := map (astype2 core d).
Definition astype4 core d : arr4 -> arr4 := map (astype3 core d).

Definition astype_ic core d (ic : ic_array) : ic_array :=
  match ic with
  | IC1 m => IC1 (astype2 core d m)
  | IC2 m => IC2 (astype3 core d m)
  end.

(** ** Indexing *)

(** [a[mask]] along one axis with a boolean [mask]: the extents must agree. *)
Fixpoint compress {A} (mask : list bool) (l : list A) : list A :=
  match mask, l with
  | true :: m, x :: xs => x :: compress m xs
  | false :: m, _ :: xs => compress m xs
  | _, _ => []
  end.

Definition np_select {A} (mask : list bool) (l : list A) : result (list A) :=
  if length l =? length mask then Ok (compress mask l)
  else Raise IndexError.

(** [np.nonzero(mask)[0]]: what [np.ix_] turns a boolean array into. *)
Fixpoint nonzero_from (i : nat) (mask : list bool) : list nat :=
  match mask with
  | [] => []
  | true :: m => i :: nonzero_from (S i) m
  | false :: m => nonzero_from (S i) m
  end.

Definition nonzero (mask : list bool) : list nat := nonzero_from 0 mask.

(** [a[idx]] along one axis with integer indices. *)
Definition take {A} (idx : list nat) (l : list A) : result (list A) :=
  mapM (fun i => match nth_error l i with
                 | Some x => Ok x
                 | None => Raise IndexError
                 end) idx.

(** [a[np.ix_(i0, i1, i2, i3)]].  numpy checks no index when the selection
    is empty. *)
Definition take_ix4 (a : arr4) (i0 i1 i2 i3 : list nat) : result arr4 :=
  if length i0 * length i1 * length i2 * length i3 =? 0 then
    Ok (repeat (repeat (repeat (repeat NaN (length i3)) (length i2))
                  (length i1)) (length i0))
  else
    do a0 <- take i0 a;
    mapM (fun b =>
      do b1 <- take i1 b;
      mapM (fun c =>
        do c2 <- take i2 c;
        mapM (take i3) c2) b1) a0.

(** [a[:, :, mask]] for a (time, state, bin) array. *)
Definition select_bins (mask : list bool) (a : arr3) : result arr3 :=
  mapM (mapM (np_select mask)) a.

(** [ic[:, mask]]: the boolean index meets the second axis, whatever the
    rank. *)
Definition select_ic (mask : list bool) (ic : ic_array) : result ic_array :=
  match ic with
  | IC1 m => do m' <- mapM (np_select mask) m; Ok (IC1 m')
  | IC2 m => do m' <- mapM (np_select mask) m; Ok (IC2 m')
  end.

(** The value written by [a[:, :, mask] = v]: [v] broadcast to the
    selected extent (n_time, n_states, k). *)
Definition broadcast3 (t s k : nat) (v : arr3) : result arr3 :=
  do v0 <- broadcast_axis t v;
  mapM (fun slab =>
    do s1 <- broadcast_axis s slab;
    mapM (broadcast_axis k) s1) v0.

(** One row of a fresh [np.full(..., np.nan)] array after the boolean
    assignment: the values go to the flagged cells, in order. *)
Fixpoint scatter (mask : list bool) (vals : vec) : vec :=
  match mask with
  | [] => []
  | true :: m =>
      match vals with
      | v :: vs => v :: scatter m vs
      | [] => NaN :: scatter m []
      end
  | false :: m => NaN :: scatter m vals
  end.

Definition count_true (mask : list bool) : nat :=
  length (filter (fun b => b) mask).

Definition full3 (t s b : nat) (x : float) : arr3 :=
  repeat (repeat (repeat x b) s) t.

(** [full = np.full((n_time, n_states, len(mask)), nan); full[:, :, mask] = v]. *)
Definition assign_bins core (d : dtype) (n_time n_states : nat)
    (mask : list bool) (v : arr3) : result arr3 :=
  do v' <- broadcast3 n_time n_states (count_true mask) v;
  Ok (map (map (fun row => scatter mask (astype1 core d row))) v').

(** ** fit_environments *)

(** [fit_environments].  [Environment.fit_place_grid] is not part of these
    sources and is a parameter; it receives the positions selected for the
    environment and [infer_track_interior]. *)
Section FitEnvironments.
Variable Position : Type.
Variable fit_place_grid :
  Environment -> list Position -> bool -> result Environment.

(** [environment_labels == environment.environment_name], or all ones. *)
Definition is_environment (environment_labels : option (list string))
    (n_time : nat) (name : string) : list bool :=
  match environment_labels with
  | None => repeat true n_time
  | Some labels => map (fun l => String.eqb l name) labels
  end.

Definition fit_environments (environments : list Environment)
    (infer_track_interior : bool) (position : list Position)
    (environment_labels : option (list string))
  : result (list Environment * nat) :=
  do environments' <-
    mapM (fun environment =>
            do p <- np_select
                      (is_environment environment_labels (length position)
                         (env_name environment))
                      position;
            fit_place_grid environment p infer_track_interior)
      environments;
  do max_pos_bins_ <- max_pos_bins_of environments';
  Ok (environments', max_pos_bins_).
End FitEnvironments.

Arguments is_environment environment_labels n_time name : clear implicits.
Arguments fit_environments {Position}.

(** ** _get_results: the likelihood buffer *)

(** [slab[state_ind, :len(src)] = src] on one time step of the buffer. *)
Fixpoint assign_row (state_ind : nat) (slab : mat) (src : vec) : result mat :=
  match slab, state_ind with
  | [], _ => Raise IndexError
  | r :: rs, 0 => do r' <- assign_prefix r src; Ok (r' :: rs)
  | r :: rs, S j => do rs' <- assign_row j rs src; Ok (r :: rs')
  end.

(** [results["likelihood"][:, state_ind, :n_bins] = l[..., np.newaxis]]
    on the (n_time, n_states, max_pos_bins_) buffer of type [d]. *)
Definition assign_state core (d : dtype) (n_time n_states state_ind : nat)
    (buffer : arr3) (l : mat) : result arr3 :=
  if n_states <=? state_ind then Raise IndexError
  else
    do rows <- broadcast_axis n_time l;
    assign_each
      (fun slab src => assign_row state_ind slab (astype1 core d src))
      buffer rows.

(** The loop over [enumerate(self.observation_models)]. *)
Fixpoint fill_likelihood core (d : dtype) (likelihood : likelihood_dict)
    (n_time n_states state_ind : nat) (obs : list ObservationModel)
    (buffer : arr3) : result arr3 :=
  match obs with
  | [] => Ok buffer
  | o :: rest =>
      let likelihood_name := (environment_name o, encoding_group o) in
      do l <- dict_get likelihood_name likelihood;
      do buffer' <- assign_state core d n_time n_states state_ind buffer l;
      fill_likelihood core d likelihood n_time n_states (S state_ind) rest
        buffer'
  end.

(** [results["likelihood"][np.isnan(results["likelihood"])] = 0.0] *)
Definition nan_to_zero (x : float) : float :=
  if isnan x then zero else x.

Definition nan_to_zero3 : arr3 -> arr3 := map (map (map nan_to_zero)).

(** Lines 546-560: the scaled likelihood that the recursions consume. *)
Definition results_likelihood core (self : Classifier)
    (likelihood : likelihood_dict) (n_time : nat) (use_gpu : bool)
  : result arr3 :=
  let n_states := length (discrete_state_transition_ self) in
  let d := if use_gpu then float32 else float64 in
  do raw <- fill_likelihood core d likelihood n_time n_states 0
              (observation_models self)
              (full3 n_time n_states (max_pos_bins_ self) NaN);
  Ok (nan_to_zero3 (scaled_likelihood core raw)).

(** ** Conversion of the results to a labelled dataset *)

(** Modelled from the spec: [core.mask] is not part of these sources.
    Section 8 (masking correctness) states what the result holds at a bin
    that is not interior: "the posterior mass at index 2 is exactly 0 at
    every time step".  The cell of every non-interior bin is set to 0 and
    the interior cells are kept.  The flags index the bin axis and must
    cover it. *)
Definition mask_row (is_track_interior : list bool) (row : vec) : result vec :=
  if length row =? length is_track_interior then
    Ok (map (fun bx : bool * float => if fst bx then snd bx else zero)
          (combine is_track_interior row))
  else Raise IndexError.

Definition mask (value : arr3) (is_track_interior : list bool) : result arr3 :=
  mapM (mapM (mask_row is_track_interior)) value.

(** The arrays collected in the [results] dictionary, in insertion order. *)
Record results_dict : Type := mkResults {
  r_likelihood : arr3;
  r_causal_posterior : arr3;
  r_acausal_posterior : option arr3
}.

Definition on_option {A B} (f : A -> result B) (o : option A)
  : result (option B) :=
  match o with
  | None => Ok None
  | Some a => do b <- f a; Ok (Some b)
  end.

(** xarray refuses a variable whose time or state extent differs from the
    length of the coordinate of that dimension.  The position coordinates
    come from [get_centers(edges)], which is not part of these sources;
    their extent is taken to agree with the bin axis.  A nested list with
    no time step carries no state extent, so the state check bears on the
    time steps that are present. *)
Definition check_dims (n_time n_states : nat) (a : arr3) : bool :=
  (length a =? n_time) && forallb (fun slab => length slab =? n_states) a.

Definition labelled (n_time n_states : nat) (a : arr3) : result data_var :=
  if check_dims n_time n_states a then Ok (Var1 a) else Raise ValueError.

Definition get3 (a : arr3) (t s b : nat) : float :=
  nth b (nth s (nth t a []) []) NaN.

(** [value.reshape((n_time, n_states, n_x, n_y), order="F")] of a
    (T, S, B) array: cell number [k] of the target, counted with the first
    index running fastest, is cell number [k] of the source. *)
Definition reshape_F (a : arr3) (n_time n_states n_x n_y : nat)
  : result arr4 :=
  let T := length a in
  let S := length (hd [] a) in
  let B := length (hd [] (hd [] a)) in
  if T * S * B =? n_time * n_states * n_x * n_y then
    Ok (map (fun t =>
          map (fun s =>
            map (fun x =>
              map (fun y =>
                let k := t + n_time * (s + n_states * (x + n_x * y)) in
                get3 a (k mod T) ((k / T) mod S) (k / (T * S)))
                (seq 0 n_y))
              (seq 0 n_x))
            (seq 0 n_states))
          (seq 0 n_time))
  else Raise ValueError.

(** [a < b] on two observation models, as the dataclass generates it with
    [order=True]: the tuples (environment_name, encoding_group) are
    compared, so the encoding groups are compared when the names are equal,
    and Python refuses to order an [int] and a [str]. *)
Definition same_kind (a b : label) : bool :=
  match a, b with
  | LInt _, LInt _ | LStr _, LStr _ => true
  | _, _ => false
  end.

Definition unorderable (a b : ObservationModel) : bool :=
  String.eqb (environment_name a) (environment_name b)
  && negb (same_kind (encoding_group a) (encoding_group b)).

Fixpoint n_distinct (obs : list ObservationModel) : nat :=
  match obs with
  | [] => 0
  | o :: rest =>
      if existsb (obs_eqb o) rest then n_distinct rest
      else S (n_distinct rest)
  end.

(** [len(np.unique(self.observation_models))].  [np.unique] sorts the
    models.  Two models that cannot be ordered would be neighbours in any
    order that extends the comparisons that succeed, so a sort cannot
    finish without comparing them: the call raises [TypeError] exactly
    when such a pair is present, whatever the sorting algorithm. *)
Definition len_unique (obs : list ObservationModel) : result nat :=
  if existsb (fun a => existsb (unorderable a) obs) obs then Raise TypeError
  else Ok (n_distinct obs).

(** [np.diag(np.asarray(self.continuous_transition_types))].
    [np.asarray] refuses rows of unequal length ([ValueError]).  Of a
    rectangular list of lists [np.diag] takes the diagonal, which has
    min(rows, columns) entries; of the empty list [np.asarray] makes an
    array of one axis and no entry, from which [np.diag] builds a (0, 0)
    matrix. *)
Inductive diag_array : Type :=
| Diag1 (n : nat)
| Diag2.

Definition diag_transition_names (types : list (list transition_type))
  : result diag_array :=
  match types with
  | [] => Ok Diag2
  | row :: rest =>
      if forallb (fun r => length r =? length row) rest
      then Ok (Diag1 (Nat.min (length types) (length row)))
      else Raise ValueError
  end.

Definition diag_len (diag : diag_array) : nat :=
  match diag with
  | Diag1 n => n
  | Diag2 => 0
  end.

(** The [state] coordinate: how many labels it has, and whether it is a
    sequence of one axis.  xarray refuses a coordinate of another rank that
    comes without dimension names, with a [ValueError], when the dataset
    is built. *)
Record state_coord : Type := mkStateCoord {
  n_labels : nat;
  one_axis : bool
}.

(** The default state names of the single-environment result (lines
    650-659): the diagonal itself when the observation models are all the
    same, else one name per pair of [zip(observation_models, diagonal)]. *)
Definition default_state_names (self : Classifier) (diag : diag_array)
  : result state_coord :=
  do n_unique <- len_unique (observation_models self);
  if n_unique =? 1 then
    match diag with
    | Diag1 n => Ok (mkStateCoord n true)
    | Diag2 => Ok (mkStateCoord 0 false)
    end
  else
    Ok (mkStateCoord
          (Nat.min (length (observation_models self)) (diag_len diag)) true).

Definition check_state_coord (c : state_coord) : result unit :=
  if one_axis c then Ok tt else Raise ValueError.

Definition _convert_results_to_xarray (self : Classifier)
    (results : results_dict) (time : list Q)
    (state_names : option (list string)) (data_log_likelihood : float)
  : result Dataset :=
  match environments self with
  | [] => Raise IndexError
  | env0 :: _ =>
      do diag <- diag_transition_names (continuous_transition_types self);
      do state_names <-
        match state_names with
        | None => default_state_names self diag
        | Some names => Ok (mkStateCoord (length names) true)
        end;
      let n_time := length time in
      let n_states := n_labels state_names in
      let is_track_interior := is_track_interior_ env0 in
      if 1 <? n_position_dims env0 then
        let (n_x, n_y) := centers_shape_ env0 in
        let convert value :=
          do m <- mask value is_track_interior;
          do r <- reshape_F m n_time n_states n_x n_y;
          Ok (Var2 r) in
        do l <- convert (r_likelihood results);
        do c <- convert (r_causal_posterior results);
        do a <- on_option convert (r_acausal_posterior results);
        do _ <- check_state_coord state_names;
        Ok (mkDataset time n_states l c a data_log_likelihood)
      else
        do l <- mask (r_likelihood results) is_track_interior;
        do c <- mask (r_causal_posterior results) is_track_interior;
        do a <- on_option (fun v => mask v is_track_interior)
                  (r_acausal_posterior results);
        do _ <- check_state_coord state_names;
        do l' <- labelled n_time n_states l;
        do c' <- labelled n_time n_states c;
        do a' <- on_option (labelled n_time n_states) a;
        Ok (mkDataset time n_states l' c' a' data_log_likelihood)
  end.

Definition _convert_results_to_xarray_mutienvironment (self : Classifier)
    (results : results_dict) (time : list Q)
    (state_names : option (list string)) (data_log_likelihood : float)
  : result Dataset :=
  let n_state_names :=
    match state_names with
    | None => length (observation_models self)
    | Some names => length names
    end in
  match environments self with
  | [] => Raise IndexError
  | _ :: _ =>
      let n_time := length time in
      do l' <- labelled n_time n_state_names (r_likelihood results);
      do c' <- labelled n_time n_state_names (r_causal_posterior results);
      do a' <- on_option (labelled n_time n_state_names)
                 (r_acausal_posterior results);
      Ok (mkDataset time n_state_names l' c' a' data_log_likelihood)
  end.

(** ** _get_results *)

Definition np_arange (n : nat) : list Q :=
  map (fun i => inject_Z (Z.of_nat i)) (seq 0 n).

Definition dtype_of (use_gpu : bool) : dtype :=
  if use_gpu then float32 else float64.

Definition compute_causal core (use_gpu : bool) :=
  if use_gpu then _causal_classify_gpu core else _causal_classify core.

Definition compute_acausal core (use_gpu : bool) :=
  if use_gpu then _acausal_classify_gpu core else _acausal_classify core.

(** [np.ix_(is_states, is_states, is_track_interior, is_track_interior)]
    applied to the continuous transition. *)
Definition st_interior (n_states : nat) (is_track_interior : list bool)
    (a : arr4) : result arr4 :=
  let is_states := repeat true n_states in
  take_ix4 a (nonzero is_states) (nonzero is_states)
    (nonzero is_track_interior) (nonzero is_track_interior).

Definition _get_results core (self : Classifier)
    (likelihood : likelihood_dict) (n_time : nat) (time : option (list Q))
    (is_compute_acausal use_gpu : bool) (state_names : option (list string))
  : result Dataset :=
  let n_states := length (discrete_state_transition_ self) in
  let d := dtype_of use_gpu in
  do lik <- results_likelihood core self likelihood n_time use_gpu;
  let n_environments := length (environments self) in
  let time := match time with
              | None => np_arange n_time
              | Some t => t
              end in
  if n_environments =? 1 then
    match environments self with
    | [] => Raise IndexError
    | env0 :: _ =>
        let is_track_interior := is_track_interior_ env0 in
        do ic <- select_ic is_track_interior (initial_conditions_ self);
        do ct <- st_interior n_states is_track_interior
                   (continuous_state_transition_ self);
        do lk <- select_bins is_track_interior lik;
        do (posterior, data_log_likelihood) <-
          compute_causal core use_gpu
            (astype_ic core d ic) (astype4 core d ct)
            (astype2 core d (discrete_state_transition_ self))
            (astype3 core d lk);
        do causal <- assign_bins core d n_time n_states is_track_interior
                       posterior;
        do acausal <-
          (if is_compute_acausal then
             do cp <- select_bins is_track_interior causal;
             do ct' <- st_interior n_states is_track_interior
                         (continuous_state_transition_ self);
             do smoothed <-
               compute_acausal core use_gpu
                 (astype3 core d cp) (astype4 core d ct')
                 (astype2 core d (discrete_state_transition_ self));
             do a <- assign_bins core d n_time n_states is_track_interior
                       smoothed;
             Ok (Some a)
           else Ok None);
        _convert_results_to_xarray self (mkResults lik causal acausal)
          time state_names data_log_likelihood
    end
  else
    do (causal, data_log_likelihood) <-
      compute_causal core use_gpu
        (astype_ic core d (initial_conditions_ self))
        (astype4 core d (continuous_state_transition_ self))
        (astype2 core d (discrete_state_transition_ self))
        (astype3 core d lik);
    do acausal <-
      (if is_compute_acausal then
         do a <- compute_acausal core use_gpu
                   (astype3 core d causal)
                   (astype4 core d (continuous_state_transition_ self))
                   (astype2 core d (discrete_state_transition_ self));
         Ok (Some a)
       else Ok None);
    _convert_results_to_xarray_mutienvironment self
      (mkResults lik causal acausal) time state_names data_log_likelihood.

(** ** predict and estimate_parameters *)

Definition set_initial_conditions_ (self : Classifier) (ic : ic_array) :=
  mkClassifier (environments self) (observation_models self)
    (continuous_transition_types self) (max_pos_bins_ self) ic
    (continuous_state_transition_ self) (discrete_state_transition_ self)
    (likelihood_ self).

Definition set_discrete_state_transition_ (self : Classifier) (dt : mat) :=
  mkClassifier (environments self) (observation_models self)
    (continuous_transition_types self) (max_pos_bins_ self)
    (initial_conditions_ self) (continuous_state_transition_ self) dt
    (likelihood_ self).

Definition set_likelihood_ (self : Classifier) (l : likelihood_dict) :=
  mkClassifier (environments self) (observation_models self)
    (continuous_transition_types self) (max_pos_bins_ self)
    (initial_conditions_ self) (continuous_state_transition_ self)
    (discrete_state_transition_ self) (Some l).

(** The model with another fitted continuous transition. *)
Definition set_continuous_state_transition_ (self : Classifier) (ct : arr4) :=
  mkClassifier (environments self) (observation_models self)
    (continuous_transition_types self) (max_pos_bins_ self)
    (initial_conditions_ self) ct (discrete_state_transition_ self)
    (likelihood_ self).

(** [results.isel(time=0).acausal_posterior.values[..., np.newaxis]] *)
Definition isel_time0_acausal (results : Dataset) : result ic_array :=
  match ds_time results with
  | [] => Raise IndexError
  | _ :: _ =>
      match ds_acausal_posterior results with
      | None => Raise AttributeError
      | Some (Var1 []) | Some (Var2 []) => Raise IndexError
      | Some (Var1 (s :: _)) => Ok (IC1 s)
      | Some (Var2 (s :: _)) => Ok (IC2 s)
      end
  end.

(** [ic] is the slice of the variable [v] at the first time step, cell
    for cell. *)
Definition time0_slice (v : data_var) (ic : ic_array) : Prop :=
  match v, ic with
  | Var1 a, IC1 m => nth_error a 0 = Some m
  | Var2 a, IC2 m => nth_error a 0 = Some m
  | _, _ => False
  end.

Definition warning_max_iter : string := "Max iterations reached...".

Section Estimate.
(** The decoded data (spikes or multiunits), the arguments of [fit], the
    subclass's [fit], and the likelihood algorithm that [predict] looks
    up in [_SORTED_SPIKES_ALGORITHMS] or [_ClUSTERLESS_ALGORITHMS]. *)
Variable Data : Type.
Variable FitArgs : Type.
Variable data_n_time : Data -> nat.
Variable fit : FitArgs -> Classifier -> result Classifier.
Variable estimate_likelihood : Classifier -> Data -> result likelihood_dict.
Variable core : Core.

(** The [predict_args] dictionary; an absent key is [None]. *)
Record predict_args : Type := mkPredictArgs {
  pa_data : Data;
  pa_time : option (list Q);
  pa_is_compute_acausal : option bool;
  pa_use_gpu : option bool;
  pa_state_names : option (list string);
  pa_store_likelihood : option bool
}.

Definition or_default {A} (o : option A) (d : A) : A :=
  match o with Some a => a | None => d end.

(** [SortedSpikesClassifier.predict] and [ClusterlessClassifier.predict]. *)
Definition predict (args : predict_args) (self : Classifier)
  : result (Classifier * Dataset) :=
  let n_time := data_n_time (pa_data args) in
  do likelihood <- estimate_likelihood self (pa_data args);
  let self' :=
    if or_default (pa_store_likelihood args) false
    then set_likelihood_ self likelihood else self in
  do results <-
    _get_results core self' likelihood n_time (pa_time args)
      (or_default (pa_is_compute_acausal args) true)
      (or_default (pa_use_gpu args) false)
      (pa_state_names args);
  Ok (self', results).

(** The variables of the refinement loop. *)
Record em_state : Type := mkEm {
  em_self : Classifier;
  em_results : Dataset;
  em_data_log_likelihoods : list float;
  em_converged : bool;
  em_n_iter : nat
}.

Definition last_two (l : list float) : float * float :=
  match rev l with
  | a :: b :: _ => (a, b)
  | [a] => (a, NaN)
  | [] => (NaN, NaN)
  end.

(** The filter/smooth pass of one iteration (lines 377-382). *)
Definition run_pass (args : predict_args) (store_likelihood : bool)
    (n_time : nat) (self : Classifier) : result (Classifier * Dataset) :=
  if store_likelihood then
    match likelihood_ self with
    | None => Raise AttributeError
    | Some l =>
        do results <-
          _get_results core self l n_time (pa_time args)
            (or_default (pa_is_compute_acausal args) true)
            (or_default (pa_use_gpu args) false)
            (pa_state_names args);
        Ok (self, results)
    end
  else predict args self.

(** The overwrite of the initial conditions (lines 368-371). *)
Definition update_initial_conditions (estimate_initial_conditions : bool)
    (self : Classifier) (results : Dataset) : result Classifier :=
  if estimate_initial_conditions then
    do ic <- isel_time0_acausal results;
    Ok (set_initial_conditions_ self ic)
  else Ok self.

(** The overwrite of the discrete transition (lines 372-375). *)
Definition update_discrete_transition (estimate_discrete_transition : bool)
    (self : Classifier) (results : Dataset) : result Classifier :=
  if estimate_discrete_transition then
    do dt <- estimate_discrete_state_transition core self results;
    Ok (set_discrete_state_transition_ self dt)
  else Ok self.

(** One turn of the [while] body. *)
Definition em_step (args : predict_args) (tolerance : Q)
    (store_likelihood estimate_initial_conditions
       estimate_discrete_transition : bool)
    (n_time : nat) (st : em_state) : result em_state :=
  do self1 <- update_initial_conditions estimate_initial_conditions
                (em_self st) (em_results st);
  do self2 <- update_discrete_transition estimate_discrete_transition
                self1 (em_results st);
  do (self3, results) <- run_pass args store_likelihood n_time self2;
  let data_log_likelihoods :=
    em_data_log_likelihoods st ++ [data_log_likelihood results] in
  let n_iter := S (em_n_iter st) in
  let (new, old) := last_two data_log_likelihoods in
  let (converged, increasing) := check_converged core new old tolerance in
  Ok (mkEm self3 results data_log_likelihoods converged n_iter).

(** [while not converged and (n_iter < max_iter)]; [None] is "the fuel
    ran out before the guard became false". *)
Fixpoint em_loop (fuel : nat) (args : predict_args) (tolerance : Q)
    (max_iter : Z)
    (store_likelihood estimate_initial_conditions
       estimate_discrete_transition : bool)
    (n_time : nat) (st : em_state) : option (result em_state) :=
  if negb (em_converged st) && (Z.of_nat (em_n_iter st) <? max_iter)%Z then
    match fuel with
    | 0 => None
    | S fuel' =>
        match em_step args tolerance store_likelihood
                estimate_initial_conditions estimate_discrete_transition
                n_time st with
        | Raise e => Some (Raise e)
        | Ok st' =>
            em_loop fuel' args tolerance max_iter store_likelihood
              estimate_initial_conditions estimate_discrete_transition
              n_time st'
        end
    end
  else Some (Ok st).

(** What [estimate_parameters] leaves behind: the returned pair, the
    classifier as mutated, the loop variables and the warnings logged. *)
Record em_outcome : Type := mkOutcome {
  out_results : Dataset;
  out_data_log_likelihoods : list float;
  out_self : Classifier;
  out_converged : bool;
  out_n_iter : nat;
  out_warnings : list string
}.

Definition estimate_parameters (self : Classifier) (fit_args : FitArgs)
    (args : predict_args) (tolerance : Q) (max_iter : Z)
    (store_likelihood estimate_initial_conditions
       estimate_discrete_transition : bool)
  : option (result em_outcome) :=
  let store_likelihood :=
    or_default (pa_store_likelihood args) store_likelihood in
  let args :=
    mkPredictArgs (pa_data args) (pa_time args)
      (pa_is_compute_acausal args) (pa_use_gpu args) (pa_state_names args)
      (Some store_likelihood) in
  match (do self0 <- fit fit_args self; predict args self0) with
  | Raise e => Some (Raise e)
  | Ok (self1, results) =>
      let n_time := length (ds_time results) in
      let st0 := mkEm self1 results [data_log_likelihood results] false 0 in
      match em_loop (Z.to_nat max_iter) args tolerance max_iter
              store_likelihood estimate_initial_conditions
              estimate_discrete_transition n_time st0 with
      | None => None
      | Some (Raise e) => Some (Raise e)
      | Some (Ok st) =>
          let warnings :=
            if negb (em_converged st)
               && (Z.of_nat (em_n_iter st) =? max_iter)%Z
            then [warning_max_iter] else [] in
          Some (Ok (mkOutcome (em_results st)
                      (em_data_log_likelihoods st) (em_self st)
                      (em_converged st) (em_n_iter st) warnings))
      end
  end.
End Estimate.

Arguments mkPredictArgs {Data}.
Arguments pa_data {Data}.
Arguments pa_time {Data}.
Arguments pa_is_compute_acausal {Data}.
Arguments pa_use_gpu {Data}.
Arguments pa_state_names {Data}.
Arguments pa_store_likelihood {Data}.

(** The guard of the [while] loop. *)
Definition em_guard (max_iter : Z) (st : em_state) : bool :=
  negb (em_converged st) && (Z.of_nat (em_n_iter st) <? max_iter)%Z.

(** The counters kept by the loop: the iteration count stays within the
    cap and the trace has one entry per pass. *)
Definition em_counters (max_iter : Z) (st : em_state) : Prop :=
  (Z.of_nat (em_n_iter st) <= Z.max 0 max_iter)%Z
  /\ length (em_data_log_likelihoods st) = S (em_n_iter st).

(** The fields that the refinement loop leaves alone. *)
Definition same_model (a b : Classifier) : Prop :=
  environments a = environments b
  /\ observation_models a = observation_models b
  /\ continuous_transition_types a = continuous_transition_types b
  /\ max_pos_bins_ a = max_pos_bins_ b
  /\ continuous_state_transition_ a = continuous_state_transition_ b.

(** ** predict_proba *)

(** IEEE addition on exact values. *)
Definition fadd (x y : float) : float :=
  match x, y with
  | NaN, _ | _, NaN => NaN
  | PInf, NInf | NInf, PInf => NaN
  | PInf, _ | _, PInf => PInf
  | NInf, _ | _, NInf => NInf
  | Fin a, Fin b => Fin (a + b)
  end.

(** xarray's [sum] over an axis with its default [skipna]: the NaN cells
    are left out, and the sum of no cell is 0. *)
Definition nansum (l : vec) : float :=
  fold_left fadd (filter (fun x => negb (isnan x)) l) zero.

(** A variable after [Dataset.sum(dims)]: summed over the dimensions it
    has, or left as it is when it has none of them. *)
Inductive reduced_var : Type :=
| Reduced (m : mat)
| Unreduced (a : arr3).

(** The dataset of state probabilities; [sum] drops the attributes. *)
Record Proba : Type := mkProba {
  pr_likelihood : reduced_var;
  pr_causal_posterior : reduced_var;
  pr_acausal_posterior : option reduced_var
}.

Definition has_xy (v : data_var) : bool :=
  match v with Var2 _ => true | Var1 _ => false end.

(** [results.sum(["x_position", "y_position"])] when the dataset has these
    dimensions ([xy]), else [results.sum(["position"])] after the
    [ValueError]; in the second case no variable is two-dimensional. *)
Definition sum_dims (xy : bool) (v : data_var) : reduced_var :=
  match v with
  | Var2 a => Reduced (map (map (fun grid => nansum (concat grid))) a)
  | Var1 a => if xy then Unreduced a else Reduced (map (map nansum) a)
  end.

Definition predict_proba (results : Dataset) : Proba :=
  let xy :=
    has_xy (ds_likelihood results) || has_xy (ds_causal_posterior results)
    || match ds_acausal_posterior results with
       | Some v => has_xy v
       | None => false
       end in
  mkProba (sum_dims xy (ds_likelihood results))
    (sum_dims xy (ds_causal_posterior results))
    (option_map (sum_dims xy) (ds_acausal_posterior results)).

(** ** The likelihood scaler of the specification *)

(** IEEE division on exact values (signed zeros are not distinguished). *)
Definition fdiv (x y : float) : float :=
  match x, y with
  | NaN, _ | _, NaN => NaN
  | Fin a, Fin b =>
      if Qeq_bool b 0 then
        if Qeq_bool a 0 then NaN
        else if Qle_bool 0 a then PInf else NInf
      else Fin (a / b)
  | Fin _, _ => Fin 0
  | PInf, Fin b => if Qle_bool 0 b then PInf else NInf
  | NInf, Fin b => if Qle_bool 0 b then NInf else PInf
  | _, _ => NaN
  end.

(** The larger of two cells, a NaN giving way to the other cell. *)
Definition fmax (x y : float) : float :=
  match x, y with
  | NaN, _ => y
  | _, NaN => x
  | PInf, _ | _, PInf => PInf
  | NInf, _ => y
  | _, NInf => x
  | Fin a, Fin b => if Qle_bool a b then Fin b else Fin a
  end.

(** The maximum of one time step across the joint (state, bin) axes. *)
Definition step_max (slab : mat) : float :=
  fold_left fmax (concat slab) NaN.

(** Modelled from the spec: [core.scaled_likelihood] is not part of these
    sources.  Section 4.3: "for each time step, values are divided by that
    time step's maximum ... across the joint state"; the maximum is taken
    over the cells that hold a number, NaN cells staying NaN until the
    caller replaces them. *)
Definition scaled_likelihood_spec (a : arr3) : arr3 :=
  map (fun slab => map (map (fun x => fdiv x (step_max slab))) slab) a.

(** IEEE [x <= y]: false as soon as one side is NaN. *)
Definition float_le (x y : float) : Prop :=
  match x, y with
  | NaN, _ | _, NaN => False
  | NInf, _ | _, PInf => True
  | Fin a, Fin b => (a <= b)%Q
  | _, _ => False
  end.

(** A raw likelihood cell: a nonnegative number, or NaN for "no data". *)
Definition raw_cell (x : float) : Prop :=
  match x with
  | NaN => True
  | Fin q => (0 <= q)%Q
  | _ => False
  end.

Definition Forall3 (P : float -> Prop) (a : arr3) : Prop :=
  Forall (Forall (Forall P)) a.

Definition Forall_dict (P : float -> Prop) (d : likelihood_dict) : Prop :=
  Forall (fun kv => Forall (Forall P) (snd kv)) d.

(** The extents of every axis, row by row. *)
Definition extents3 (a : arr3) : list (list nat) :=
  map (map (@length float)) a.

(** ** Consistency of the shapes handed to the engine *)

Definition likelihood_name (o : ObservationModel) : string * label :=
  (environment_name o, encoding_group o).


(** ** What the engine checks before the recursion

    [_get_results] has no validation step; what it requires of the shapes
    is what numpy requires of the assignments and selections that come
    before the first recursion. *)









(** The cell a padded array holds where the source array has none. *)
Definition or_zero (o : option float) : float :=
  match o with
  | Some x => x
  | None => zero
  end.

Definition cell3 (a : arr3) (t s b : nat) : option float :=
  match nth_error a t with
  | Some m => cell2 m s b
  | None => None
  end.

(** The cell of a data variable at time [t], state [s] and flat bin [b];
    on a two-dimensional layout bin [b] lies at x = b mod n_x,
    y = b / n_x (Fortran order). *)
Definition var_cell (v : data_var) (n_x : nat) (t s b : nat) : option float :=
  match v with
  | Var1 a => cell3 a t s b
  | Var2 a => cell4 a t s (b mod n_x) (b / n_x)
  end.

(** The bin extent of the initial conditions handed to the recursion. *)
Definition ic_bins (ic : ic_array) (k : nat) : Prop :=
  match ic with
  | IC1 m => Forall (fun row => length row = k) m
  | IC2 m => Forall (fun row => length row = k) m
  end.

(** A data variable has [n_time] time steps of [n_states] states. *)
Definition var_dims (v : data_var) (n_time n_states : nat) : Prop :=
  match v with
  | Var1 a => length a = n_time
              /\ Forall (fun slab => length slab = n_states) a
  | Var2 a => length a = n_time
              /\ Forall (fun slab => length slab = n_states) a
  end.

(** Two sequences that are alike at every index taken. *)
Definition alike_at {A} (R : A -> A -> Prop) (idx : list nat)
    (a a' : list A) : Prop :=
  forall i, In i idx ->
    match nth_error a i, nth_error a' i with
    | Some x, Some x' => R x x'
    | None, None => True
    | _, _ => False
    end.

(** ** Restriction to the interior bins *)

(** The place of an interior bin among the interior bins: the number of
    interior bins before it. *)
Definition rank (flags : list bool) (b : nat) : nat :=
  count_true (firstn b flags).

(** [restricted] holds the cells of [full] at the interior bins and nothing
    else: one cell per interior bin, the cell of bin [b] standing at
    [rank flags b]. *)
Definition interior_cells {A} (flags : list bool) (full restricted : list A)
  : Prop :=
  length restricted = count_true flags
  /\ forall b, nth_error flags b = Some true ->
       exists x, nth_error full b = Some x
                 /\ nth_error restricted (rank flags b) = Some x.

(** The same along the second axis of the initial conditions. *)
Definition interior_ic (flags : list bool) (full restricted : ic_array)
  : Prop :=
  match full, restricted with
  | IC1 m, IC1 m' => Forall2 (interior_cells flags) m m'
  | IC2 m, IC2 m' => Forall2 (interior_cells flags) m m'
  | _, _ => False
  end.

(** The same along the bin axis of a (time, state, bin) array. *)
Definition interior_bins (flags : list bool) (full restricted : arr3) : Prop :=
  Forall2 (Forall2 (interior_cells flags)) full restricted.

(** The same along both bin axes of the transition, for the first
    [n_states] states on both state axes. *)
Definition interior_tensor (n_states : nat) (flags : list bool)
    (full restricted : arr4) : Prop :=
  has_shape4 restricted n_states n_states
    (count_true flags) (count_true flags)
  /\ forall i j b c,
       i < n_states -> j < n_states ->
       nth_error flags b = Some true -> nth_error flags c = Some true ->
       exists x, cell4 full i j b c = Some x
                 /\ cell4 restricted i j (rank flags b) (rank flags c)
                    = Some x.

(** One variable of the single-environment dataset (lines 676-704): the
    array after [mask], reshaped on a two-dimensional layout, with the
    extents that xarray checks on a one-dimensional one. *)
Definition converted (env : Environment) (n_time n_states : nat)
    (value : arr3) (dv : data_var) : Prop :=
  exists m,
    mask value (is_track_interior_ env) = Ok m
    /\ if 1 <? n_position_dims env then
         exists r,
           reshape_F m n_time n_states
             (fst (centers_shape_ env)) (snd (centers_shape_ env)) = Ok r
           /\ dv = Var2 r
       else check_dims n_time n_states m = true /\ dv = Var1 m.

(** ** A worked example

    A linear track of five bins whose middle bin is not interior, two
    states, and stand-ins for the recursions that give back arrays of the
    expected shape. *)

Definition demo_env : Environment :=
  mkEnvironment "track" 5 1 [true; true; false; true; true] (5, 1).

Definition demo_obs : list ObservationModel :=
  repeat (ObservationModel_default "track") 2.

Definition demo_core : Core :=
  mkCore scaled_likelihood_spec
    (fun _ _ _ lik => Ok (lik, Fin 0))
    (fun causal _ _ => Ok causal)
    (fun _ _ _ lik => Ok (lik, Fin 0))
    (fun causal _ _ => Ok causal)
    (fun x => x)
    (fun new old tolerance => (false, true))
    (fun self _ => Ok (discrete_state_transition_ self)).


Definition demo_kernel : mat := repeat (repeat (Fin (1 # 5)) 5) 5.

Definition demo_classifier : Classifier :=
  mkClassifier [demo_env] demo_obs
    [[RandomWalk; Uniform]; [Uniform; Uniform]] 5
    (IC1 (repeat (repeat (Fin (1 # 10)) 5) 2))
    (repeat (repeat demo_kernel 2) 2)
    [[Fin (9 # 10); Fin (1 # 10)]; [Fin (1 # 10); Fin (9 # 10)]]
    None.

(** Two time steps of likelihood over the five bins. *)
Definition demo_likelihood : likelihood_dict :=
  [(("track"%string, LInt 0),
    [[Fin 1; Fin 2; NaN; Fin 4; Fin 2];
     [Fin 3; Fin 0; NaN; Fin 1; Fin 1]])].

(** A second environment of three bins, for the multi-environment mode;
    the model arrays are the ones the fit methods build. *)
Definition demo_env_arm : Environment :=
  mkEnvironment "arm" 3 1 [true; false; true] (3, 1).

Definition demo_obs2 : list ObservationModel :=
  [ObservationModel_default "track"; ObservationModel_default "arm"].

Definition demo_kernel_arm : mat := repeat (repeat (Fin (1 # 3)) 3) 3.

Definition demo_classifier2 : Classifier :=
  mkClassifier [demo_env; demo_env_arm] demo_obs2
    [[RandomWalk; Uniform]; [Uniform; Uniform]] 5
    (match fit_initial_conditions demo_obs2 5
             [repeat (Fin (1 # 8)) 5; repeat (Fin (1 # 8)) 3] with
     | Ok ic => IC1 ic
     | Raise _ => IC1 []
     end)
    (match fit_continuous_state_transition 5
             [[demo_kernel; demo_kernel];
              [demo_kernel_arm; demo_kernel_arm]] with
     | Ok ct => ct
     | Raise _ => []
     end)
    [[Fin (9 # 10); Fin (1 # 10)]; [Fin (1 # 10); Fin (9 # 10)]]
    None.

Definition demo_likelihood2 : likelihood_dict :=
  [(("track"%string, LInt 0),
    [[Fin 1; Fin 2; NaN; Fin 4; Fin 2];
     [Fin 3; Fin 0; NaN; Fin 1; Fin 1]]);
   (("arm"%string, LInt 0),
    [[Fin 2; NaN; Fin 8];
     [Fin 1; NaN; Fin 1]])].


(** A run of the refinement loop on the worked example: the data carry two
    time steps, [fit] leaves the model as it is and the likelihood
    algorithm returns the example's likelihood. *)
Definition demo_fit (_ : unit) (self : Classifier) : result Classifier :=
  Ok self.

Definition demo_estimate_likelihood (_ : Classifier) (_ : unit)
  : result likelihood_dict :=
  Ok demo_likelihood.

Definition demo_args : predict_args unit :=
  @mkPredictArgs unit tt None None None None None.

Definition demo_estimate_parameters (max_iter : Z)
  : option (result em_outcome) :=
  estimate_parameters unit unit (fun _ => 2) demo_fit
    demo_estimate_likelihood demo_core demo_classifier tt demo_args
    (1 # 10000) max_iter true true true.

(** The loop variables after the first pass of that run. *)
Definition demo_em_state : em_state :=
  match _get_results demo_core demo_classifier demo_likelihood 2 None true
          false None with
  | Ok ds => mkEm demo_classifier ds [data_log_likelihood ds] false 0
  | Raise _ =>
      mkEm demo_classifier (mkDataset [] 0 (Var1 []) (Var1 []) None NaN)
        [] false 0
  end.

(** A stand-in for [fit_place_grid]: one interior bin per position. *)
Definition demo_fit_place_grid (e : Environment) (p : list Q) (_ : bool)
  : result Environment :=
  Ok (mkEnvironment (env_name e) (length p) 1 (repeat true (length p))
        (length p, 1)).

(** The same run asking for the causal posterior only. *)
Definition demo_args_causal : predict_args unit :=
  @mkPredictArgs unit tt None (Some false) None None None.

(** A square box of two by two bins, all interior, with one state. *)
Definition demo_env_box : Environment :=
  mkEnvironment "box" 4 2 [true; true; true; true] (2, 2).

Definition demo_classifier_box : Classifier :=
  mkClassifier [demo_env_box] [ObservationModel_default "box"]
    [[Uniform]] 4
    (IC1 [repeat (Fin (1 # 4)) 4])
    [[repeat (repeat (Fin (1 # 4)) 4) 4]]
    [[Fin 1]]
    None.

Definition demo_likelihood_box : likelihood_dict :=
  [(("box"%string, LInt 0),
    [[Fin 1; Fin 2; Fin 4; Fin 2];
     [Fin 3; Fin 0; Fin 1; Fin 1]])].

(** The same box with one bin of the grid outside the track. *)
Definition demo_env_hole : Environment :=
  mkEnvironment "box" 4 2 [true; false; true; true] (2, 2).

Definition demo_classifier_hole : Classifier :=
  mkClassifier [demo_env_hole] [ObservationModel_default "box"]
    [[Uniform]] 4
    (IC1 [repeat (Fin (1 # 4)) 4])
    [[repeat (repeat (Fin (1 # 4)) 4) 4]]
    [[Fin 1]]
    None.

(** The kernel of the worked example with other entries on the row and
    the column of the non-interior bin. *)
Definition demo_kernel_altered : mat :=
  [[Fin (1 # 5); Fin (1 # 5); Fin 7; Fin (1 # 5); Fin (1 # 5)];
   [Fin (1 # 5); Fin (1 # 5); Fin 7; Fin (1 # 5); Fin (1 # 5)];
   [Fin 7; Fin 7; Fin 7; Fin 7; Fin 7];
   [Fin (1 # 5); Fin (1 # 5); Fin 7; Fin (1 # 5); Fin (1 # 5)];
   [Fin (1 # 5); Fin (1 # 5); Fin 7; Fin (1 # 5); Fin (1 # 5)]].

(** * Properties *)

(** ** The error monad *)

Lemma bind_ok {A B} (r : result A) (k : A -> result B) (b : B) :
  bind r k = Ok b -> exists a, r = Ok a /\ k a = Ok b.
Proof.
  destruct r as [a|e]; simpl; intros H; [eauto | discriminate].
Qed.

Ltac inv_bind H :=
  let x := fresh "x" in
  let Hx := fresh "Hx" in
  apply bind_ok in H; destruct H as (x & Hx & H).

Ltac inv_bind_as H x Hx :=
  apply bind_ok in H; destruct H as (x & Hx & H).

Ltac inv_ok H := injection H as H; subst.

Lemma mapM_ok {A B} (f : A -> result B) (l : list A) (out : list B) :
  mapM f l = Ok out -> Forall2 (fun x y => f x = Ok y) l out.
Proof.
  revert out; induction l as [|x xs IH]; simpl; intros out H.
  - inv_ok H. constructor.
  - inv_bind H. inv_bind H. inv_ok H. constructor; auto.
Qed.

Lemma Forall2_nth_error_r {A B} (R : A -> B -> Prop) l l' i y :
  Forall2 R l l' -> nth_error l' i = Some y ->
  exists x, nth_error l i = Some x /\ R x y.
Proof.
  intros H; revert i; induction H; intros [|i] Hn; simpl in *;
    try discriminate.
  - inv_ok Hn. eauto.
  - eauto.
Qed.

(** ** Broadcasting and prefix assignment *)

Lemma broadcast_axis_firstn {A} (n : nat) (l v : list A) :
  n <= length l -> broadcast_axis n l = Ok v -> v = firstn n l.
Proof.
  unfold broadcast_axis; intros Hn H.
  destruct (Nat.eqb_spec (length l) n) as [E|E].
  - inv_ok H. symmetry. apply firstn_all.
  - destruct l as [|x [|y l]]; try discriminate. inv_ok H.
    simpl in *. assert (n = 0) by lia. now subst.
Qed.

Lemma broadcast_axis_length {A} (n : nat) (l v : list A) :
  broadcast_axis n l = Ok v -> length v = n.
Proof.
  unfold broadcast_axis; intros H.
  destruct (Nat.eqb_spec (length l) n) as [E|E].
  - now inv_ok H.
  - destruct l as [|x [|y l]]; try discriminate. inv_ok H.
    apply repeat_length.
Qed.

Lemma assign_prefix_eq {A} (row src out : list A) :
  assign_prefix row src = Ok out ->
  out = firstn (Nat.min (length src) (length row)) src
        ++ skipn (Nat.min (length src) (length row)) row.
Proof.
  unfold assign_prefix; intros H. inv_bind H. inv_ok H.
  apply broadcast_axis_firstn in Hx; [now subst | lia].
Qed.

Lemma assign_prefix_length {A} (row src out : list A) :
  assign_prefix row src = Ok out -> length out = length row.
Proof.
  intros H. apply assign_prefix_eq in H. subst.
  rewrite length_app, length_firstn, length_skipn. lia.
Qed.

(** Inside the written prefix the cell is the source's. *)
Lemma assign_prefix_inside {A} (row src out : list A) (b : nat) :
  assign_prefix row src = Ok out ->
  b < length src -> b < length row ->
  nth_error out b = nth_error src b.
Proof.
  intros H Hs Hr. apply assign_prefix_eq in H. subst.
  rewrite nth_error_app1 by (rewrite length_firstn; lia).
  rewrite nth_error_firstn.
  destruct (Nat.ltb_spec b (Nat.min (length src) (length row)));
    [reflexivity | lia].
Qed.

(** Past the source's extent the cell is the row's old one. *)
Lemma assign_prefix_outside {A} (row src out : list A) (b : nat) :
  assign_prefix row src = Ok out ->
  length src <= b ->
  nth_error out b = nth_error row b.
Proof.
  intros H Hs. apply assign_prefix_eq in H. subst.
  set (w := Nat.min (length src) (length row)).
  destruct (Nat.lt_ge_cases b (length row)) as [Hr|Hr].
  - rewrite nth_error_app2 by (rewrite length_firstn; lia).
    rewrite length_firstn, nth_error_skipn. f_equal. lia.
  - transitivity (@None A).
    + apply nth_error_None.
      rewrite length_app, length_firstn, length_skipn. lia.
    + symmetry. now apply nth_error_None.
Qed.

Lemma assign_each_length {A B} (f : A -> B -> result A) tgt srcs out :
  assign_each f tgt srcs = Ok out -> length out = length tgt.
Proof.
  revert tgt out; induction srcs as [|s ss IH];
    intros tgt out H; simpl in H.
  - now inv_ok H.
  - destruct tgt as [|t ts]; [discriminate|].
    inv_bind H. inv_bind H. inv_ok H. simpl. f_equal. eauto.
Qed.

(** A target that has a source of the same index was assigned from it. *)
Lemma assign_each_hit {A B} (f : A -> B -> result A) tgt srcs out i s :
  assign_each f tgt srcs = Ok out ->
  nth_error srcs i = Some s ->
  exists t o, nth_error tgt i = Some t /\ nth_error out i = Some o
              /\ f t s = Ok o.
Proof.
  revert tgt out i; induction srcs as [|s0 ss IH];
    intros tgt out i H Hs.
  - destruct i; discriminate.
  - simpl in H. destruct tgt as [|t ts]; [discriminate|].
    inv_bind H. inv_bind H. inv_ok H.
    destruct i as [|i]; simpl in *.
    + inv_ok Hs. eauto.
    + eauto.
Qed.

(** A target without a source is left as it was. *)
Lemma assign_each_miss {A B} (f : A -> B -> result A) tgt srcs out i :
  assign_each f tgt srcs = Ok out ->
  nth_error srcs i = None ->
  nth_error out i = nth_error tgt i.
Proof.
  revert tgt out i; induction srcs as [|s0 ss IH];
    intros tgt out i H Hs; simpl in H.
  - now inv_ok H.
  - destruct tgt as [|t ts]; [discriminate|].
    inv_bind H. inv_bind H. inv_ok H.
    destruct i as [|i]; simpl in *; [discriminate | eauto].
Qed.

Lemma assign_each_Forall {A B} (P : A -> Prop) (f : A -> B -> result A)
    tgt srcs out :
  (forall t s o, P t -> f t s = Ok o -> P o) ->
  Forall P tgt -> assign_each f tgt srcs = Ok out -> Forall P out.
Proof.
  intros Hf. revert tgt out; induction srcs as [|s ss IH];
    intros tgt out HP H; simpl in H.
  - now inv_ok H.
  - destruct tgt as [|t ts]; [discriminate|].
    inv_bind H. inv_bind H. inv_ok H.
    inversion HP; subst. constructor; eauto.
Qed.

Lemma Forall_firstn' {A} (P : A -> Prop) (n : nat) (l : list A) :
  Forall P l -> Forall P (firstn n l).
Proof.
  intros H; revert n; induction H; intros [|n]; simpl; auto.
Qed.

Lemma Forall_skipn' {A} (P : A -> Prop) (n : nat) (l : list A) :
  Forall P l -> Forall P (skipn n l).
Proof.
  intros H; revert n; induction H; intros [|n]; simpl; auto.
Qed.

(** ** Block assignment *)

Lemma assign_block_shape (tgt st out : mat) (n m : nat) :
  has_shape2 tgt n m -> assign_block tgt st = Ok out -> has_shape2 out n m.
Proof.
  unfold assign_block, has_shape2. intros [Hn Hm] H.
  inv_bind H. inv_bind H. inv_ok H.
  pose proof (assign_each_length _ _ _ _ Hx0) as Hl.
  rewrite length_firstn in Hl.
  split.
  - rewrite length_app, length_skipn. lia.
  - apply Forall_app; split.
    + eapply assign_each_Forall; [| |exact Hx0].
      * intros t s o Ht Ho. cbn beta.
        now rewrite (assign_prefix_length _ _ _ Ho).
      * now apply Forall_firstn'.
    + now apply Forall_skipn'.
Qed.

Lemma assign_block_cell (tgt st out : mat) (k l : nat) (y : float) :
  assign_block tgt st = Ok out ->
  cell2 tgt k l = Some y ->
  cell2 out k l = Some (match cell2 st k l with
                        | Some x => x
                        | None => y
                        end).
Proof.
  unfold assign_block. intros H Hy.
  inv_bind H. inv_bind H. inv_ok H.
  set (h := Nat.min (length st) (length tgt)) in *.
  apply broadcast_axis_firstn in Hx; [|subst h; lia]. subst x.
  pose proof (assign_each_length _ _ _ _ Hx0) as Hl.
  rewrite length_firstn in Hl.
  unfold cell2 in *.
  destruct (nth_error tgt k) as [t|] eqn:Et; [|discriminate].
  assert (Hk : k < length tgt) by (apply nth_error_Some; congruence).
  destruct (Nat.lt_ge_cases k h) as [Hh|Hh].
  - rewrite nth_error_app1 by lia.
    destruct (nth_error st k) as [srow|] eqn:Es.
    2:{ apply nth_error_None in Es. subst h. lia. }
    assert (Ef : nth_error (firstn h st) k = Some srow).
    { rewrite nth_error_firstn.
      destruct (Nat.ltb_spec k h); [assumption | lia]. }
    destruct (assign_each_hit _ _ _ _ _ _ Hx0 Ef) as (t' & o & Ht' & Ho & Ha).
    rewrite nth_error_firstn in Ht'.
    destruct (Nat.ltb_spec k h); [|lia].
    rewrite Et in Ht'. inv_ok Ht'. rewrite Ho.
    assert (Hlt : l < length t') by (apply nth_error_Some; congruence).
    destruct (nth_error srow l) as [v|] eqn:Ev.
    + rewrite (assign_prefix_inside _ _ _ _ Ha); auto.
      apply nth_error_Some; congruence.
    + apply nth_error_None in Ev.
      now rewrite (assign_prefix_outside _ _ _ _ Ha Ev).
  - rewrite nth_error_app2 by lia.
    rewrite Hl, nth_error_skipn.
    replace (h + (k - Nat.min h (length tgt))) with k by (subst h; lia).
    rewrite Et.
    assert (Es : nth_error st k = None)
      by (apply nth_error_None; subst h; lia).
    now rewrite Es.
Qed.

Lemma zeros1_cell (n b : nat) : b < n -> nth_error (zeros1 n) b = Some zero.
Proof. intros H. unfold zeros1. now apply nth_error_repeat. Qed.

Lemma zeros2_cell (n m k l : nat) :
  k < n -> l < m -> cell2 (zeros2 n m) k l = Some zero.
Proof.
  intros Hk Hl. unfold cell2, zeros2.
  rewrite nth_error_repeat by assumption. now apply zeros1_cell.
Qed.

Lemma zeros2_shape (n m : nat) : has_shape2 (zeros2 n m) n m.
Proof.
  unfold has_shape2, zeros2, zeros1. split; [apply repeat_length|].
  apply Forall_forall. intros r Hr. apply repeat_spec in Hr. subst.
  apply repeat_length.
Qed.

(** ** Padding of the fitted arrays *)

Lemma fit_initial_conditions_shape obs max ics ic_ :
  fit_initial_conditions obs max ics = Ok ic_ ->
  has_shape2 ic_ (length obs) max.
Proof.
  unfold fit_initial_conditions. intros H.
  destruct (zeros2_shape (length obs) max) as [Hn Hm].
  split.
  - now rewrite (assign_each_length _ _ _ _ H).
  - eapply assign_each_Forall; [| exact Hm | exact H].
    intros t s o Ht Ho. cbn beta.
    now rewrite (assign_prefix_length _ _ _ Ho).
Qed.

Lemma fit_initial_conditions_cell obs max ics ic_ s b :
  fit_initial_conditions obs max ics = Ok ic_ ->
  s < length obs -> b < max ->
  cell2 ic_ s b = Some (or_zero (cell2 ics s b)).
Proof.
  unfold fit_initial_conditions. intros H Hs Hb.
  pose proof (zeros2_cell (length obs) max s b Hs Hb) as Hz.
  unfold cell2 in *.
  destruct (@nth_error (list float) ics s) as [ic|] eqn:Ei.
  - destruct (assign_each_hit _ _ _ _ _ _ H Ei) as (t & o & Ht & Ho & Ha).
    rewrite Ho. rewrite Ht in Hz.
    destruct (nth_error ic b) as [x|] eqn:Ex; simpl.
    + rewrite (assign_prefix_inside _ _ _ _ Ha), Ex; auto.
      * apply nth_error_Some; congruence.
      * apply nth_error_Some; congruence.
    + apply nth_error_None in Ex.
      now rewrite (assign_prefix_outside _ _ _ _ Ha Ex).
  - now rewrite (assign_each_miss _ _ _ _ _ H Ei).
Qed.

Lemma zeros4_shape (n m : nat) : has_shape4 (zeros4 n n m m) n n m m.
Proof.
  unfold has_shape4, zeros4. split; [apply repeat_length|].
  apply Forall_forall. intros b Hb. apply repeat_spec in Hb. subst.
  split; [apply repeat_length|].
  apply Forall_forall. intros k Hk. apply repeat_spec in Hk. subst.
  apply zeros2_shape.
Qed.

Lemma fit_continuous_state_transition_shape max kernels ct_ :
  fit_continuous_state_transition max kernels = Ok ct_ ->
  has_shape4 ct_ (length kernels) (length kernels) max max.
Proof.
  unfold fit_continuous_state_transition. intros H.
  destruct (zeros4_shape (length kernels) max) as [Hn Hm].
  split.
  - now rewrite (assign_each_length _ _ _ _ H).
  - eapply assign_each_Forall; [| exact Hm | exact H].
    intros t s o [Ht1 Ht2] Ho. cbn beta. split.
    + now rewrite (assign_each_length _ _ _ _ Ho).
    + eapply assign_each_Forall; [| exact Ht2 | exact Ho].
      intros t' s' o' Ht' Ho'. eapply assign_block_shape; eauto.
Qed.

Lemma zeros4_cell (n m i j k l : nat) :
  i < n -> j < n -> k < m -> l < m ->
  cell4 (zeros4 n n m m) i j k l = Some zero.
Proof.
  intros Hi Hj Hk Hl. unfold cell4, zeros4.
  rewrite nth_error_repeat by assumption.
  rewrite nth_error_repeat by assumption.
  now apply zeros2_cell.
Qed.

Lemma fit_continuous_state_transition_cell max kernels ct_ i j k l :
  fit_continuous_state_transition max kernels = Ok ct_ ->
  i < length kernels -> j < length kernels -> k < max -> l < max ->
  cell4 ct_ i j k l = Some (or_zero (cell4 kernels i j k l)).
Proof.
  unfold fit_continuous_state_transition. intros H Hi Hj Hk Hl.
  pose proof (zeros4_cell (length kernels) max i j k l Hi Hj Hk Hl) as Hz.
  unfold cell4, arr4, mat, vec in *.
  destruct (nth_error kernels i) as [row|] eqn:Er.
  2:{ apply nth_error_None in Er. lia. }
  destruct (assign_each_hit _ _ _ _ _ _ H Er) as (t & o & Ht & Ho & Ha).
  rewrite Ho. rewrite Ht in Hz.
  destruct (nth_error row j) as [st|] eqn:Es.
  - destruct (assign_each_hit _ _ _ _ _ _ Ha Es)
      as (t' & o' & Ht' & Ho' & Ha').
    rewrite Ho'. rewrite Ht' in Hz.
    rewrite (assign_block_cell _ _ _ _ _ _ Ha' Hz).
    now destruct (cell2 st k l).
  - now rewrite (assign_each_miss _ _ _ _ _ Ha Es).
Qed.

(** C9.  After [fit_initial_conditions] and
    [fit_continuous_state_transition] have run, [initial_conditions_] has
    shape (n_states, max_pos_bins_) and [continuous_state_transition_] has
    shape (n_states, n_states, max_pos_bins_, max_pos_bins_); every cell
    holds the value of the regime's own vector, or of the regime pair's
    kernel, where that array has such a cell (the leading block) and 0
    everywhere else. *)
Theorem fit_zero_padding obs max ics kernels ic_ ct_ :
  fit_initial_conditions obs max ics = Ok ic_ ->
  fit_continuous_state_transition max kernels = Ok ct_ ->
  has_shape2 ic_ (length obs) max
  /\ (forall s b, s < length obs -> b < max ->
        cell2 ic_ s b = Some (or_zero (cell2 ics s b)))
  /\ has_shape4 ct_ (length kernels) (length kernels) max max
  /\ (forall i j k l,
        i < length kernels -> j < length kernels -> k < max -> l < max ->
        cell4 ct_ i j k l = Some (or_zero (cell4 kernels i j k l))).
Proof.
  intros Hic Hct.
  split; [exact (fit_initial_conditions_shape _ _ _ _ Hic)|].
  split; [intros; now apply (fit_initial_conditions_cell obs max)|].
  split; [exact (fit_continuous_state_transition_shape _ _ _ Hct)|].
  intros; now apply (fit_continuous_state_transition_cell max).
Qed.

(** ** The constructor *)

(** C10.  A single [Environment] is wrapped into a one-element sequence,
    and without [observation_models] the classifier holds one
    [ObservationModel] per entry of [continuous_transition_types], each with
    the first environment's name and the default encoding group [0]. *)
Theorem init_wraps_and_defaults :
  (forall e oms ctt,
      _ClassifierBase__init__ (OneEnvironment e) (Some oms) ctt
      = Ok (mkInit [e] oms ctt))
  /\ (forall e ctt,
      _ClassifierBase__init__ (OneEnvironment e) None ctt
      = Ok (mkInit [e]
              (repeat (mkObservationModel (env_name e) (LInt 0)) (length ctt))
              ctt))
  /\ (forall e0 rest ctt,
      _ClassifierBase__init__ (Environments (e0 :: rest)) None ctt
      = Ok (mkInit (e0 :: rest)
              (repeat (mkObservationModel (env_name e0) (LInt 0))
                 (length ctt))
              ctt))
  /\ (forall (name : string) (ctt : list (list transition_type)),
      length (repeat (mkObservationModel name (LInt 0)) (length ctt))
      = length ctt).
Proof.
  repeat split; intros; try reflexivity. apply repeat_length.
Qed.

Lemma fit_zero_padding_witness :
  exists ic_ ct_,
    fit_initial_conditions demo_obs 3 [[Fin (1 # 2); Fin (1 # 2)]; [Fin 1]]
    = Ok ic_
    /\ fit_continuous_state_transition 3
         [[[[Fin 1]]; [[Fin 1; Fin 0]; [Fin 0; Fin 1]]]; [[[Fin 1]]]]
       = Ok ct_
    /\ has_shape2 ic_ 2 3
    /\ cell2 ic_ 0 2 = Some zero
    /\ cell4 ct_ 0 1 1 1 = Some (Fin 1)
    /\ cell4 ct_ 1 1 2 2 = Some zero.
Proof.
  do 2 eexists.
  split; [reflexivity|]. split; [reflexivity|].
  destruct (fit_zero_padding demo_obs 3
              [[Fin (1 # 2); Fin (1 # 2)]; [Fin 1]]
              [[[[Fin 1]]; [[Fin 1; Fin 0]; [Fin 0; Fin 1]]]; [[[Fin 1]]]]
              _ _ eq_refl eq_refl) as (Hs & Hc & Hs4 & Hc4).
  split; [exact Hs|].
  split; [exact (Hc 0 2 ltac:(simpl; lia) ltac:(lia))|].
  split; [exact (Hc4 0 1 1 1 ltac:(simpl; lia) ltac:(simpl; lia)
                   ltac:(lia) ltac:(lia))|].
  exact (Hc4 1 1 2 2 ltac:(simpl; lia) ltac:(simpl; lia)
           ltac:(lia) ltac:(lia)).
Defined.

(** ** Masks, selections and scattered assignments *)

Lemma compress_length {A} (mask : list bool) (l : list A) :
  length l = length mask -> length (compress mask l) = count_true mask.
Proof.
  unfold count_true. revert l; induction mask as [|b m IH];
    intros [|x xs] H; simpl in *; try discriminate; auto.
  destruct b; simpl; rewrite IH by lia; reflexivity.
Qed.

Lemma np_select_length {A} (mask : list bool) (l r : list A) :
  np_select mask l = Ok r -> length r = count_true mask.
Proof.
  unfold np_select. destruct (Nat.eqb_spec (length l) (length mask));
    intros H; [|discriminate].
  inv_ok H. now apply compress_length.
Qed.

Lemma select_bins_width (mask : list bool) (a r : arr3) :
  select_bins mask a = Ok r ->
  Forall (Forall (fun row => length row = count_true mask)) r.
Proof.
  unfold select_bins. intros H. apply mapM_ok in H.
  induction H as [|x y l l' Hxy _ IH]; constructor; auto.
  apply mapM_ok in Hxy. clear -Hxy.
  induction Hxy as [|u v l l' Huv _ IH]; constructor; auto.
  now apply np_select_length in Huv.
Qed.

Lemma scatter_length (mask : list bool) (vals : vec) :
  length (scatter mask vals) = length mask.
Proof.
  revert vals; induction mask as [|b m IH]; intros vals; simpl; auto.
  destruct b; [destruct vals|]; simpl; auto.
Qed.

(** A cell that is not flagged keeps the NaN of [np.full]. *)
Lemma scatter_false (mask : list bool) (vals : vec) (b : nat) :
  nth_error mask b = Some false ->
  nth_error (scatter mask vals) b = Some NaN.
Proof.
  revert vals b; induction mask as [|f m IH]; intros vals [|b] H;
    simpl in *; try discriminate.
  - inv_ok H. reflexivity.
  - destruct f; [destruct vals|]; simpl; auto.
Qed.

Lemma cell3_in_map (f : vec -> vec) (a : arr3) (t s b : nat) (x : float) :
  cell3 (map (map f) a) t s b = Some x ->
  exists row, nth_error (f row) b = Some x.
Proof.
  unfold cell3, cell2, arr3, mat, vec in *. intros H.
  rewrite nth_error_map in H.
  destruct (nth_error a t) as [m|]; simpl in H; [|discriminate].
  rewrite nth_error_map in H.
  destruct (nth_error m s) as [row|]; simpl in H; [|discriminate]. eauto.
Qed.

Lemma assign_bins_false core d n_time n_states mask v out t s b x :
  assign_bins core d n_time n_states mask v = Ok out ->
  nth_error mask b = Some false ->
  cell3 out t s b = Some x -> x = NaN.
Proof.
  unfold assign_bins. intros H Hb Hc. inv_bind H. inv_ok H.
  apply cell3_in_map in Hc. destruct Hc as (row & Hrow).
  rewrite (scatter_false _ _ _ Hb) in Hrow. congruence.
Qed.

Lemma mask_cells (flags : list bool) (row : vec) (b : nat) :
  length row = length flags ->
  nth_error flags b = Some false ->
  nth_error (map (fun bx : bool * float => if fst bx then snd bx else zero)
               (combine flags row)) b = Some zero.
Proof.
  revert row b; induction flags as [|f fs IH]; intros [|x xs] [|b] Hl H;
    simpl in *; try discriminate.
  - inv_ok H. reflexivity.
  - apply IH; auto.
Qed.

Lemma mask_row_false (flags : list bool) (row r : vec) (b : nat) :
  mask_row flags row = Ok r ->
  nth_error flags b = Some false ->
  nth_error r b = Some zero.
Proof.
  unfold mask_row. destruct (Nat.eqb_spec (length row) (length flags));
    intros H Hb; [|discriminate].
  inv_ok H. now apply mask_cells.
Qed.

(** After [mask], the cell of a non-interior bin is 0. *)
Lemma mask_false (value m : arr3) (flags : list bool) (t s b : nat) x :
  mask value flags = Ok m ->
  nth_error flags b = Some false ->
  cell3 m t s b = Some x -> x = zero.
Proof.
  unfold mask, cell3, cell2. intros H Hb Hc. apply mapM_ok in H.
  destruct (nth_error m t) as [slab|] eqn:Et; [|discriminate].
  destruct (Forall2_nth_error_r _ _ _ _ _ H Et) as (slab0 & _ & Hs).
  apply mapM_ok in Hs.
  destruct (nth_error slab s) as [row|] eqn:Es; [|discriminate].
  destruct (Forall2_nth_error_r _ _ _ _ _ Hs Es) as (row0 & _ & Hr).
  rewrite (mask_row_false _ _ _ _ Hr Hb) in Hc. congruence.
Qed.

(** ** The Fortran-order reshape *)

Lemma nth_nth_error {A} (l : list A) (n : nat) (d : A) :
  nth n l d = match nth_error l n with Some x => x | None => d end.
Proof.
  revert n; induction l as [|a l IH]; intros [|n]; simpl; auto.
Qed.

Lemma get3_cell3 (a : arr3) (t s b : nat) :
  get3 a t s b = match cell3 a t s b with Some x => x | None => NaN end.
Proof.
  unfold get3, cell3, cell2, arr3, mat, vec in *.
  rewrite (nth_nth_error a t).
  destruct (nth_error a t) as [m|].
  - rewrite (nth_nth_error m s). destruct (nth_error m s) as [r|].
    + apply nth_nth_error.
    + now destruct b.
  - now destruct s, b.
Qed.

Lemma nth_error_map_seq {A} (f : nat -> A) (n i : nat) (x : A) :
  nth_error (map f (seq 0 n)) i = Some x -> i < n /\ x = f i.
Proof.
  intros H. rewrite nth_error_map in H.
  destruct (nth_error (seq 0 n) i) as [j|] eqn:E; simpl in H;
    [|discriminate].
  inv_ok H.
  assert (Hi : i < length (seq 0 n))
    by (apply nth_error_Some; congruence).
  rewrite length_seq in Hi.
  split; [assumption|].
  rewrite (nth_error_nth' _ 0) in E by (now rewrite length_seq).
  rewrite seq_nth in E by assumption. inv_ok E. reflexivity.
Qed.

Lemma map_seq_nth {A} (f : nat -> A) (n i : nat) :
  i < n -> nth_error (map f (seq 0 n)) i = Some (f i).
Proof.
  intros H. rewrite nth_error_map.
  rewrite (nth_error_nth' _ 0) by (now rewrite length_seq).
  now rewrite seq_nth.
Qed.

Lemma F_index (T S t s q : nat) :
  t < T -> s < S ->
  let k := t + T * (s + S * q) in
  k mod T = t /\ (k / T) mod S = s /\ k / (T * S) = q.
Proof.
  intros Ht Hs k. subst k.
  assert (E1 : (t + T * (s + S * q)) / T = s + S * q).
  { rewrite (Nat.mul_comm T), Nat.div_add by lia.
    rewrite Nat.div_small by assumption. reflexivity. }
  split; [|split].
  - rewrite (Nat.mul_comm T), Nat.Div0.mod_add.
    now apply Nat.mod_small.
  - rewrite E1, (Nat.mul_comm S), Nat.Div0.mod_add.
    now apply Nat.mod_small.
  - rewrite <- Nat.Div0.div_div, E1.
    rewrite (Nat.mul_comm S), Nat.div_add by lia.
    rewrite Nat.div_small by assumption. reflexivity.
Qed.

(** When the labels have the extents of the array, the cell at (x, y) is
    the cell of the flat bin x + n_x * y. *)
Lemma reshape_F_cell (a : arr3) (n_x n_y : nat) (r : arr4) (t s b : nat) v :
  reshape_F a (length a) (length (hd [] a)) n_x n_y = Ok r ->
  cell4 r t s (b mod n_x) (b / n_x) = Some v ->
  v = get3 a t s b.
Proof.
  unfold reshape_F. intros H Hc.
  destruct (_ =? _); [|discriminate]. inv_ok H.
  unfold cell4, cell2 in Hc.
  match type of Hc with
  | match nth_error ?l t with _ => _ end = _ =>
      destruct (nth_error l t) as [m1|] eqn:E1; [|discriminate]
  end.
  apply nth_error_map_seq in E1. destruct E1 as [Ht ->].
  match type of Hc with
  | match nth_error ?l s with _ => _ end = _ =>
      destruct (nth_error l s) as [m2|] eqn:E2; [|discriminate]
  end.
  apply nth_error_map_seq in E2. destruct E2 as [Hs ->].
  match type of Hc with
  | match nth_error ?l ?i with _ => _ end = _ =>
      destruct (nth_error l i) as [m3|] eqn:E3; [|discriminate]
  end.
  apply nth_error_map_seq in E3. destruct E3 as [Hx ->].
  apply nth_error_map_seq in Hc. destruct Hc as [Hy ->].
  assert (Hb : b mod n_x + n_x * (b / n_x) = b).
  { rewrite Nat.add_comm. symmetry. apply Nat.div_mod_eq. }
  rewrite Hb.
  destruct (F_index (length a) (length (hd [] a)) t s b Ht Hs)
    as (-> & -> & ->).
  reflexivity.
Qed.

(** ** Extents of selections *)

Lemma Forall2_length' {A B} (R : A -> B -> Prop) l l' :
  Forall2 R l l' -> length l = length l'.
Proof. induction 1; simpl; auto. Qed.

Lemma mapM_length {A B} (f : A -> result B) l out :
  mapM f l = Ok out -> length out = length l.
Proof.
  intros H. apply mapM_ok in H. symmetry. eapply Forall2_length'; eauto.
Qed.

Lemma mapM_Forall {A B} (f : A -> result B) (P : B -> Prop) l out :
  (forall x y, f x = Ok y -> P y) ->
  mapM f l = Ok out -> Forall P out.
Proof.
  intros Hf H. apply mapM_ok in H. induction H; constructor; eauto.
Qed.

Lemma take_length {A} (idx : list nat) (l r : list A) :
  take idx l = Ok r -> length r = length idx.
Proof. apply mapM_length. Qed.

Lemma nonzero_from_length (i : nat) (flags : list bool) :
  length (nonzero_from i flags) = count_true flags.
Proof.
  unfold count_true. revert i; induction flags as [|b m IH]; intros i;
    simpl; auto.
  destruct b; simpl; auto.
Qed.

Lemma nonzero_length (flags : list bool) :
  length (nonzero flags) = count_true flags.
Proof. apply nonzero_from_length. Qed.

Lemma count_true_repeat (n : nat) : count_true (repeat true n) = n.
Proof.
  unfold count_true. induction n; simpl; auto.
Qed.

Lemma repeat_Forall {A} (P : A -> Prop) (x : A) (n : nat) :
  P x -> Forall P (repeat x n).
Proof. intros H. induction n; simpl; auto. Qed.

Lemma take_ix4_shape (a r : arr4) (i0 i1 i2 i3 : list nat) :
  take_ix4 a i0 i1 i2 i3 = Ok r ->
  has_shape4 r (length i0) (length i1) (length i2) (length i3).
Proof.
  unfold take_ix4, has_shape4, has_shape2. intros H.
  destruct (_ =? 0).
  - inv_ok H. split; [apply repeat_length|].
    apply repeat_Forall. split; [apply repeat_length|].
    apply repeat_Forall. split; [apply repeat_length|].
    apply repeat_Forall. apply repeat_length.
  - inv_bind H. split.
    + rewrite (mapM_length _ _ _ H). eapply take_length; eauto.
    + eapply mapM_Forall; [|exact H]. cbn beta. intros b y Hb.
      inv_bind Hb. split.
      * rewrite (mapM_length _ _ _ Hb). eapply take_length; eauto.
      * eapply mapM_Forall; [|exact Hb]. cbn beta. intros c z Hc.
        inv_bind Hc. split.
        -- rewrite (mapM_length _ _ _ Hc). eapply take_length; eauto.
        -- eapply mapM_Forall; [|exact Hc]. cbn beta. intros u w Hu.
           eapply take_length; eauto.
Qed.

(** The restricted transition has [count_true] interior bins on both bin
    axes: the non-interior rows and columns are absent. *)
Lemma st_interior_shape (n_states : nat) (flags : list bool) (a r : arr4) :
  st_interior n_states flags a = Ok r ->
  has_shape4 r n_states n_states (count_true flags) (count_true flags).
Proof.
  unfold st_interior. intros H. apply take_ix4_shape in H.
  now rewrite !nonzero_length, count_true_repeat in H.
Qed.

Lemma select_ic_bins (flags : list bool) (ic r : ic_array) :
  select_ic flags ic = Ok r -> ic_bins r (count_true flags).
Proof.
  unfold select_ic. destruct ic as [m|m]; intros H; inv_bind H; inv_ok H;
    simpl; (eapply mapM_Forall; [|exact Hx]); cbn beta;
    intros u v Hu; eapply np_select_length; eauto.
Qed.

Lemma broadcast3_extents t s k v out :
  broadcast3 t s k v = Ok out ->
  length out = t /\ Forall (fun slab => length slab = s) out.
Proof.
  unfold broadcast3. intros H. inv_bind H. split.
  - rewrite (mapM_length _ _ _ H). eapply broadcast_axis_length; eauto.
  - eapply mapM_Forall; [|exact H]. cbn beta. intros slab y Hy.
    inv_bind Hy. rewrite (mapM_length _ _ _ Hy).
    eapply broadcast_axis_length; eauto.
Qed.

Lemma assign_bins_extents core d n_time n_states flags v out :
  assign_bins core d n_time n_states flags v = Ok out ->
  length out = n_time /\ Forall (fun slab => length slab = n_states) out.
Proof.
  unfold assign_bins. intros H. inv_bind H. inv_ok H.
  destruct (broadcast3_extents _ _ _ _ _ Hx) as [Hl Hs]. split.
  - now rewrite length_map.
  - apply Forall_map. eapply Forall_impl; [|exact Hs].
    intros slab E. now rewrite length_map.
Qed.

Lemma mask_extents (value m : arr3) (flags : list bool) :
  mask value flags = Ok m ->
  length m = length value
  /\ length (hd [] m) = length (hd [] value).
Proof.
  unfold mask. intros H. split; [eapply mapM_length; eauto|].
  destruct value as [|v vs]; simpl in H.
  - now inv_ok H.
  - inv_bind H. inv_bind H. inv_ok H. simpl.
    eapply mapM_length; eauto.
Qed.

(** ** Cells of the selections *)

Lemma Forall2_nth_error_l {A B} (R : A -> B -> Prop) l l' i x :
  Forall2 R l l' -> nth_error l i = Some x ->
  exists y, nth_error l' i = Some y /\ R x y.
Proof.
  intros H; revert i; induction H; intros [|i] Hn; simpl in *;
    try discriminate.
  - inv_ok Hn. eauto.
  - eauto.
Qed.

Lemma mapM_Forall2 {A B} (f : A -> result B) (R : A -> B -> Prop) l out :
  (forall x y, f x = Ok y -> R x y) ->
  mapM f l = Ok out -> Forall2 R l out.
Proof.
  intros Hf H. apply mapM_ok in H.
  induction H; constructor; auto.
Qed.

Lemma rank_cons (f : bool) (fs : list bool) (b : nat) :
  rank (f :: fs) (S b) = (if f then 1 else 0) + rank fs b.
Proof. unfold rank, count_true. simpl. now destruct f. Qed.

Lemma rank_lt (flags : list bool) (b : nat) :
  nth_error flags b = Some true -> rank flags b < count_true flags.
Proof.
  revert b; induction flags as [|f fs IH]; intros [|b] H; simpl in H;
    try discriminate.
  - inv_ok H. unfold rank, count_true. simpl. lia.
  - rewrite rank_cons. specialize (IH _ H).
    unfold count_true in *. simpl. destruct f; simpl; lia.
Qed.

Lemma rank_repeat (n i : nat) : i < n -> rank (repeat true n) i = i.
Proof.
  revert i; induction n as [|n IH]; intros [|i] H; try lia.
  - reflexivity.
  - simpl repeat. rewrite rank_cons, IH by lia. reflexivity.
Qed.

Lemma compress_interior {A} (flags : list bool) (l : list A) :
  length l = length flags -> interior_cells flags l (compress flags l).
Proof.
  intros Hl. split; [now apply compress_length|].
  revert l Hl; induction flags as [|f fs IH]; intros [|x xs] Hl [|b] Hb;
    simpl in *; try discriminate.
  - inv_ok Hb. exists x. split; reflexivity.
  - destruct (IH xs ltac:(lia) b Hb) as (y & Hy & Hr).
    exists y. split; [exact Hy|]. rewrite rank_cons.
    destruct f; simpl; exact Hr.
Qed.

Lemma np_select_interior {A} (flags : list bool) (l r : list A) :
  np_select flags l = Ok r -> interior_cells flags l r.
Proof.
  unfold np_select. destruct (Nat.eqb_spec (length l) (length flags));
    intros H; [|discriminate].
  inv_ok H. now apply compress_interior.
Qed.

Lemma select_bins_interior (flags : list bool) (a r : arr3) :
  select_bins flags a = Ok r -> interior_bins flags a r.
Proof.
  unfold select_bins, interior_bins.
  apply mapM_Forall2. intros slab slab'.
  apply mapM_Forall2. intros row row'. apply np_select_interior.
Qed.

Lemma select_ic_interior (flags : list bool) (ic r : ic_array) :
  select_ic flags ic = Ok r -> interior_ic flags ic r.
Proof.
  destruct ic as [m|m]; simpl; intros H; inv_bind_as H m' Hm; inv_ok H;
    simpl; revert Hm; apply mapM_Forall2; intros row row';
    apply np_select_interior.
Qed.

Lemma nonzero_from_rank (flags : list bool) (i b : nat) :
  nth_error flags b = Some true ->
  nth_error (nonzero_from i flags) (rank flags b) = Some (i + b).
Proof.
  revert i b; induction flags as [|f fs IH]; intros i [|b] H; simpl in H;
    try discriminate.
  - inv_ok H. simpl. f_equal. lia.
  - rewrite rank_cons. specialize (IH (S i) b H).
    replace (i + S b) with (S i + b) by lia.
    destruct f; simpl; exact IH.
Qed.

Lemma take_interior {A} (flags : list bool) (l r : list A) :
  take (nonzero flags) l = Ok r -> interior_cells flags l r.
Proof.
  intros H. split.
  - rewrite (take_length _ _ _ H). apply nonzero_length.
  - intros b Hb. unfold take in H. apply mapM_ok in H.
    pose proof (nonzero_from_rank flags 0 b Hb) as Hn. simpl in Hn.
    destruct (Forall2_nth_error_l _ _ _ _ _ H Hn) as (y & Hy & Hx).
    destruct (nth_error l b) as [x|]; [|discriminate].
    inv_ok Hx. eauto.
Qed.

Lemma take_states {A} (n i : nat) (l r : list A) :
  take (nonzero (repeat true n)) l = Ok r -> i < n ->
  exists x, nth_error l i = Some x /\ nth_error r i = Some x.
Proof.
  intros H Hi. apply take_interior in H. destruct H as [_ H].
  assert (Hb : nth_error (repeat true n) i = Some true).
  { rewrite (nth_error_nth' _ true) by (now rewrite repeat_length).
    f_equal. apply nth_repeat. }
  destruct (H i Hb) as (x & Hx & Hr). rewrite rank_repeat in Hr by assumption.
  eauto.
Qed.

(** What [np.ix_] takes of the transition. *)
Lemma st_interior_cells (n_states : nat) (flags : list bool) (a r : arr4) :
  st_interior n_states flags a = Ok r -> interior_tensor n_states flags a r.
Proof.
  intros H. split; [now apply st_interior_shape in H|].
  intros i j b c Hi Hj Hb Hc.
  unfold st_interior, take_ix4 in H.
  rewrite !nonzero_length, count_true_repeat in H.
  pose proof (rank_lt _ _ Hb) as Hk.
  destruct (Nat.eqb_spec (n_states * n_states * count_true flags
                          * count_true flags) 0) as [E|_].
  { assert (0 < n_states * n_states * count_true flags * count_true flags)
      by (repeat apply Nat.mul_pos_pos; lia).
    lia. }
  inv_bind_as H a0 Ha0.
  destruct (take_states _ _ _ _ Ha0 Hi) as (ai & Eai & Eai0).
  apply mapM_ok in H.
  destruct (Forall2_nth_error_l _ _ _ _ _ H Eai0) as (ri & Eri & Hri).
  inv_bind_as Hri b1 Hb1.
  destruct (take_states _ _ _ _ Hb1 Hj) as (aij & Eaij & Eaij1).
  apply mapM_ok in Hri.
  destruct (Forall2_nth_error_l _ _ _ _ _ Hri Eaij1) as (rij & Erij & Hrij).
  inv_bind_as Hrij c2 Hc2.
  apply take_interior in Hc2. destruct Hc2 as [_ Hc2].
  destruct (Hc2 b Hb) as (row & Erow & Erow2).
  apply mapM_ok in Hrij.
  destruct (Forall2_nth_error_l _ _ _ _ _ Hrij Erow2) as (row' & Erow' & Hr).
  apply take_interior in Hr. destruct Hr as [_ Hr].
  destruct (Hr c Hc) as (x & Ex & Ex').
  exists x. unfold cell4, cell2, arr4, arr3, mat, vec in *.
  rewrite Eai, Eaij, Erow, Eri, Erij, Erow'. split; assumption.
Qed.

(** ** The single-environment result *)

Lemma labelled_var n_time n_states a dv :
  labelled n_time n_states a = Ok dv -> dv = Var1 a.
Proof.
  unfold labelled. destruct (check_dims _ _ _); intros H;
    [now inv_ok H | discriminate].
Qed.

Lemma labelled_checked n_time n_states a dv :
  labelled n_time n_states a = Ok dv ->
  check_dims n_time n_states a = true /\ dv = Var1 a.
Proof.
  unfold labelled. destruct (check_dims _ _ _); intros H;
    [now inv_ok H | discriminate].
Qed.

Lemma on_option_ok {A B} (f : A -> result B) (o : option A) (r : option B) :
  on_option f o = Ok r ->
  (o = None /\ r = None)
  \/ (exists a b, o = Some a /\ r = Some b /\ f a = Ok b).
Proof.
  destruct o as [a|]; simpl; intros H.
  - inv_bind H. inv_ok H. right. eauto.
  - inv_ok H. now left.
Qed.

(** What a conversion that returns has done. *)
Lemma convert_single_inv self env rest results time names dll ds :
  environments self = env :: rest ->
  _convert_results_to_xarray self results time names dll = Ok ds ->
  exists diag sc,
    diag_transition_names (continuous_transition_types self) = Ok diag
    /\ match names with
       | None => default_state_names self diag
       | Some l => Ok (mkStateCoord (length l) true)
       end = Ok sc
    /\ one_axis sc = true
    /\ ds_time ds = time
    /\ ds_n_state_names ds = n_labels sc
    /\ data_log_likelihood ds = dll
    /\ converted env (length time) (n_labels sc)
         (r_likelihood results) (ds_likelihood ds)
    /\ converted env (length time) (n_labels sc)
         (r_causal_posterior results) (ds_causal_posterior ds)
    /\ match r_acausal_posterior results, ds_acausal_posterior ds with
       | Some a, Some v => converted env (length time) (n_labels sc) a v
       | None, None => True
       | _, _ => False
       end.
Proof.
  intros Henv H. unfold _convert_results_to_xarray in H. rewrite Henv in H.
  inv_bind_as H diag Hdiag. inv_bind_as H sc Hsc.
  exists diag, sc. split; [exact Hdiag|]. split; [exact Hsc|].
  unfold converted.
  destruct (1 <? n_position_dims env) eqn:Edims.
  - destruct (centers_shape_ env) as [n_x n_y]. cbv zeta in H.
    inv_bind_as H vl Hvl. inv_bind_as H vc Hvc. inv_bind_as H va Hva.
    inv_bind_as H u Hu. injection H as <-. simpl.
    unfold check_state_coord in Hu.
    destruct (one_axis sc); [|discriminate].
    assert (Hconv : forall a dv,
              (do m <- mask a (is_track_interior_ env);
               do r <- reshape_F m (length time) (n_labels sc) n_x n_y;
               Ok (Var2 r)) = Ok dv ->
              exists m, mask a (is_track_interior_ env) = Ok m
                /\ exists r, reshape_F m (length time) (n_labels sc) n_x n_y
                             = Ok r /\ dv = Var2 r).
    { intros a dv Ha. inv_bind_as Ha m Hm. inv_bind_as Ha r Hr.
      inv_ok Ha. eauto. }
    repeat split; auto.
    apply on_option_ok in Hva.
    destruct Hva as [[-> ->]|(a & b & -> & -> & Hb)]; [exact I|auto].
  - inv_bind_as H ml Hml. inv_bind_as H mc Hmc. inv_bind_as H ma Hma.
    inv_bind_as H u Hu.
    inv_bind_as H vl Hvl. inv_bind_as H vc Hvc. inv_bind_as H va Hva.
    injection H as <-. simpl.
    unfold check_state_coord in Hu.
    destruct (one_axis sc); [|discriminate].
    apply labelled_checked in Hvl, Hvc.
    repeat split; eauto.
    apply on_option_ok in Hma. apply on_option_ok in Hva.
    destruct Hma as [[-> ->]|(a & b & -> & -> & Hb)].
    + destruct Hva as [[_ ->]|(a & b & Ea & _)]; [exact I|discriminate].
    + destruct Hva as [[Ea _]|(a' & b' & Ea & -> & Hb')]; [discriminate|].
      inv_ok Ea. apply labelled_checked in Hb'. eauto.
Qed.

Lemma mask_row_length (flags : list bool) (row r : vec) :
  mask_row flags row = Ok r -> length r = length flags.
Proof.
  unfold mask_row. destruct (Nat.eqb_spec (length row) (length flags));
    intros H; [|discriminate].
  inv_ok H. rewrite length_map, length_combine. lia.
Qed.

Lemma mask_shape (value m : arr3) (flags : list bool) (T S : nat) :
  mask value flags = Ok m ->
  length value = T -> Forall (fun slab => length slab = S) value ->
  has_shape3 m T S (length flags).
Proof.
  unfold mask. intros H HT HS. split.
  - rewrite (mapM_length _ _ _ H). exact HT.
  - apply mapM_ok in H. clear HT.
    induction H as [|slab slab' value m Hs _ IH]; [constructor|].
    inversion HS as [|? ? Hl Hrest]; subst.
    constructor; [|now apply IH]. split.
    + now rewrite (mapM_length _ _ _ Hs).
    + eapply mapM_Forall; [|exact Hs]. cbn beta.
      intros row r. apply mask_row_length.
Qed.

(** A cell of the reshaped array, whatever the labels. *)
Lemma reshape_F_lookup (a : arr3) (n_time n_states n_x n_y : nat) (r : arr4)
    (t s x y : nat) v :
  reshape_F a n_time n_states n_x n_y = Ok r ->
  cell4 r t s x y = Some v ->
  let T := length a in
  let S := length (hd [] a) in
  let B := length (hd [] (hd [] a)) in
  let k := t + n_time * (s + n_states * (x + n_x * y)) in
  T * S * B = n_time * n_states * n_x * n_y
  /\ t < n_time /\ s < n_states /\ x < n_x /\ y < n_y
  /\ v = get3 a (k mod T) ((k / T) mod S) (k / (T * S)).
Proof.
  unfold reshape_F. intros H Hc. cbv zeta.
  destruct (Nat.eqb_spec
              (length a * length (hd [] a) * length (hd [] (hd [] a)))
              (n_time * n_states * n_x * n_y)) as [E|]; [|discriminate].
  inv_ok H. unfold cell4, cell2 in Hc.
  match type of Hc with
  | match nth_error ?l t with _ => _ end = _ =>
      destruct (nth_error l t) as [m1|] eqn:E1; [|discriminate]
  end.
  apply nth_error_map_seq in E1. destruct E1 as [Ht ->].
  match type of Hc with
  | match nth_error ?l s with _ => _ end = _ =>
      destruct (nth_error l s) as [m2|] eqn:E2; [|discriminate]
  end.
  apply nth_error_map_seq in E2. destruct E2 as [Hs ->].
  match type of Hc with
  | match nth_error ?l ?i with _ => _ end = _ =>
      destruct (nth_error l i) as [m3|] eqn:E3; [|discriminate]
  end.
  apply nth_error_map_seq in E3. destruct E3 as [Hx ->].
  apply nth_error_map_seq in Hc. destruct Hc as [Hy ->].
  repeat split; auto.
Qed.

Lemma shape3_cell (m : arr3) (T S B t s b : nat) :
  has_shape3 m T S B -> t < T -> s < S -> b < B ->
  exists x, cell3 m t s b = Some x.
Proof.
  intros [HT Hs] Ht Hs' Hb. unfold cell3, cell2, arr3, mat, vec in *.
  destruct (nth_error m t) as [slab|] eqn:Et;
    [|apply nth_error_None in Et; lia].
  rewrite Forall_forall in Hs.
  destruct (Hs slab (nth_error_In _ _ Et)) as [HS Hrows].
  destruct (nth_error slab s) as [row|] eqn:Es;
    [|apply nth_error_None in Es; lia].
  rewrite Forall_forall in Hrows.
  pose proof (Hrows row (nth_error_In _ _ Es)) as HB.
  destruct (nth_error row b) as [x|] eqn:Eb;
    [eauto | apply nth_error_None in Eb; lia].
Qed.

(** When the grid has one cell per bin, the reshape keeps every cell on
    its bin: the cell at (x, y) of any time and state label comes from the
    flat bin x + n_x * y. *)
Lemma reshaped_bin (m : arr3) (T S n_time n_states n_x n_y : nat) (r : arr4)
    (t s b : nat) x :
  has_shape3 m T S (n_x * n_y) ->
  reshape_F m n_time n_states n_x n_y = Ok r ->
  cell4 r t s (b mod n_x) (b / n_x) = Some x ->
  exists t0 s0, cell3 m t0 s0 b = Some x.
Proof.
  intros Hm Hr Hc.
  destruct (reshape_F_lookup _ _ _ _ _ _ _ _ _ _ _ Hr Hc)
    as (E & Ht & Hs & Hx & Hy & ->).
  assert (Hb : b mod n_x + n_x * (b / n_x) = b).
  { rewrite Nat.add_comm. symmetry. apply Nat.div_mod_eq. }
  rewrite Hb in *.
  assert (HB : b < n_x * n_y) by nia.
  assert (Hpos : 0 < n_time * n_states * n_x * n_y)
    by (repeat apply Nat.mul_pos_pos; lia).
  destruct Hm as [HT Hslabs].
  destruct m as [|slab m']; [simpl in E; lia|].
  inversion Hslabs as [|? ? [HS Hrows] _]; subst. simpl hd in *.
  destruct slab as [|row slab']; [simpl in E; lia|].
  inversion Hrows as [|? ? HB0 _]; subst. simpl hd in *.
  set (T := length ((row :: slab') :: m')) in *.
  set (S := length (row :: slab')) in *.
  assert (HTS : T * S = n_time * n_states).
  { rewrite HB0 in E.
    apply (Nat.mul_cancel_r _ _ (n_x * n_y)); [lia|].
    rewrite E. lia. }
  assert (HT0 : 0 < T) by (unfold T; simpl; lia).
  assert (HS0 : 0 < S) by (unfold S; simpl; lia).
  set (u := t + n_time * s).
  assert (Hu : u < T * S) by (rewrite HTS; unfold u; nia).
  assert (Ek : t + n_time * (s + n_states * b) = u + b * (T * S))
    by (rewrite HTS; unfold u; nia).
  rewrite Ek.
  assert (Eq : (u + b * (T * S)) / (T * S) = b).
  { rewrite Nat.div_add by lia. rewrite Nat.div_small by assumption.
    reflexivity. }
  rewrite Eq.
  set (t0 := (u + b * (T * S)) mod T).
  set (s0 := ((u + b * (T * S)) / T) mod S).
  assert (Ht0 : t0 < T) by (apply Nat.mod_upper_bound; lia).
  assert (Hs0 : s0 < S) by (apply Nat.mod_upper_bound; lia).
  destruct (shape3_cell ((row :: slab') :: m') T S (n_x * n_y) t0 s0 b)
    as (y & Ey); auto.
  { split; [reflexivity|exact Hslabs]. }
  exists t0, s0. rewrite get3_cell3, Ey. reflexivity.
Qed.

(** A converted variable holds 0 at every bin that is not interior. *)
Lemma converted_zero env n_time n_states value dv T S t s b x :
  converted env n_time n_states value dv ->
  length value = T -> Forall (fun slab => length slab = S) value ->
  (1 < n_position_dims env ->
     length (is_track_interior_ env)
     = fst (centers_shape_ env) * snd (centers_shape_ env)) ->
  nth_error (is_track_interior_ env) b = Some false ->
  var_cell dv (fst (centers_shape_ env)) t s b = Some x -> x = zero.
Proof.
  intros (m & Hm & Hdv) HT HS Hgrid Hb Hc.
  destruct (Nat.ltb_spec 1 (n_position_dims env)) as [H2|H1].
  - destruct Hdv as (r & Hr & ->). simpl in Hc.
    pose proof (mask_shape _ _ _ _ _ Hm HT HS) as Hshape.
    rewrite (Hgrid H2) in Hshape.
    destruct (reshaped_bin _ _ _ _ _ _ _ _ _ _ _ _ Hshape Hr Hc)
      as (t0 & s0 & Hcell).
    eapply mask_false; eauto.
  - destruct Hdv as [_ ->]. simpl in Hc. eapply mask_false; eauto.
Qed.

Lemma reshape_F_has_cell (a : arr3) (n_time n_states n_x n_y : nat)
    (r : arr4) (t s x y : nat) :
  reshape_F a n_time n_states n_x n_y = Ok r ->
  t < n_time -> s < n_states -> x < n_x -> y < n_y ->
  exists v, cell4 r t s x y = Some v.
Proof.
  unfold reshape_F. destruct (_ =? _); intros H Ht Hs Hx Hy;
    [|discriminate].
  inv_ok H. unfold cell4, cell2.
  rewrite (map_seq_nth _ _ _ Ht), (map_seq_nth _ _ _ Hs),
    (map_seq_nth _ _ _ Hx), (map_seq_nth _ _ _ Hy).
  eauto.
Qed.

(** A converted variable has a cell, and it is 0, at every non-interior
    bin of every time and state label. *)
Lemma converted_zero_cell env n_time n_states value dv T S t s b :
  converted env n_time n_states value dv ->
  length value = T -> Forall (fun slab => length slab = S) value ->
  (1 < n_position_dims env ->
     length (is_track_interior_ env)
     = fst (centers_shape_ env) * snd (centers_shape_ env)) ->
  t < n_time -> s < n_states ->
  nth_error (is_track_interior_ env) b = Some false ->
  var_cell dv (fst (centers_shape_ env)) t s b = Some zero.
Proof.
  intros Hconv HT HS Hgrid Ht Hs Hb.
  assert (Hlt : b < length (is_track_interior_ env))
    by (apply nth_error_Some; congruence).
  assert (Hex : exists x,
            var_cell dv (fst (centers_shape_ env)) t s b = Some x).
  { destruct Hconv as (m & Hm & Hdv).
    pose proof (mask_shape _ _ _ _ _ Hm HT HS) as [_ Hrows].
    destruct (Nat.ltb_spec 1 (n_position_dims env)) as [H2|H1].
    - destruct Hdv as (r & Hr & ->). simpl.
      rewrite (Hgrid H2) in Hlt.
      destruct (fst (centers_shape_ env)) as [|n_x]; [simpl in Hlt; lia|].
      eapply reshape_F_has_cell; eauto.
      + apply Nat.mod_upper_bound. lia.
      + apply Nat.Div0.div_lt_upper_bound. exact Hlt.
    - destruct Hdv as [Hchk ->]. simpl.
      unfold check_dims in Hchk. apply andb_prop in Hchk.
      destruct Hchk as [Hlen Hall]. apply Nat.eqb_eq in Hlen.
      rewrite forallb_forall in Hall.
      apply (shape3_cell m n_time n_states
               (length (is_track_interior_ env))); auto.
      split; [exact Hlen|]. apply Forall_forall. intros slab Hin.
      split; [apply Nat.eqb_eq; now apply Hall|].
      rewrite Forall_forall in Hrows. now apply (Hrows slab Hin). }
  destruct Hex as (x & Hx). rewrite Hx. f_equal.
  eapply converted_zero; eauto.
Qed.

(** The array that receives the output of a recursion holds NaN at every
    non-interior bin of every time step and state. *)
Lemma assign_bins_nan_cell core d n_time n_states flags v out t s b :
  assign_bins core d n_time n_states flags v = Ok out ->
  t < n_time -> s < n_states ->
  nth_error flags b = Some false ->
  cell3 out t s b = Some NaN.
Proof.
  unfold assign_bins. intros H Ht Hs Hb. inv_bind_as H v' Hv'. inv_ok H.
  destruct (broadcast3_extents _ _ _ _ _ Hv') as [Hl Hslabs].
  unfold cell3, cell2, arr3, mat, vec in *.
  rewrite nth_error_map.
  destruct (nth_error v' t) as [slab|] eqn:Et;
    [|apply nth_error_None in Et; lia].
  simpl. rewrite nth_error_map.
  rewrite Forall_forall in Hslabs.
  pose proof (Hslabs slab (nth_error_In _ _ Et)) as HS.
  destruct (nth_error slab s) as [row|] eqn:Es;
    [|apply nth_error_None in Es; lia].
  simpl. now apply scatter_false.
Qed.

(** C1.  With exactly one environment, both recursions are run on the
    interior bins only.  The initial conditions, the transition and the
    likelihood handed to the causal recursion hold, cell for cell, what
    the model holds at the interior bins and nothing else; the acausal
    recursion receives the causal posterior read back at the interior
    bins and the same restricted transition.  The arrays that receive
    their outputs hold NaN at every non-interior bin (the code writes the
    interior cells of an array filled with NaN); after [mask], in the
    returned dataset, the causal and the acausal posterior are 0 at every
    non-interior bin of every time step and state.  On a two-dimensional
    layout the flags are those of the (n_x, n_y) grid. *)
Theorem single_environment_interior_only core self env likelihood n_time
    time is_compute_acausal use_gpu state_names ds :
  environments self = [env] ->
  (1 < n_position_dims env ->
     length (is_track_interior_ env)
     = fst (centers_shape_ env) * snd (centers_shape_ env)) ->
  _get_results core self likelihood n_time time is_compute_acausal use_gpu
    state_names = Ok ds ->
  let flags := is_track_interior_ env in
  let n_states := length (discrete_state_transition_ self) in
  let d := dtype_of use_gpu in
  let n_x := fst (centers_shape_ env) in
  exists lik ic ct lk posterior causal,
    results_likelihood core self likelihood n_time use_gpu = Ok lik
    /\ interior_ic flags (initial_conditions_ self) ic
    /\ interior_tensor n_states flags (continuous_state_transition_ self) ct
    /\ interior_bins flags lik lk
    /\ compute_causal core use_gpu
         (astype_ic core d ic) (astype4 core d ct)
         (astype2 core d (discrete_state_transition_ self))
         (astype3 core d lk)
       = Ok (posterior, data_log_likelihood ds)
    /\ assign_bins core d n_time n_states flags posterior = Ok causal
    /\ (if is_compute_acausal then
          exists cp smoothed acausal v,
            interior_bins flags causal cp
            /\ compute_acausal core use_gpu
                 (astype3 core d cp) (astype4 core d ct)
                 (astype2 core d (discrete_state_transition_ self))
               = Ok smoothed
            /\ assign_bins core d n_time n_states flags smoothed
               = Ok acausal
            /\ ds_acausal_posterior ds = Some v
            /\ (forall t s b,
                  t < n_time -> s < n_states ->
                  nth_error flags b = Some false ->
                  cell3 acausal t s b = Some NaN)
            /\ (forall t s b,
                  t < length (ds_time ds) -> s < ds_n_state_names ds ->
                  nth_error flags b = Some false ->
                  var_cell v n_x t s b = Some zero)
        else ds_acausal_posterior ds = None)
    /\ (forall t s b,
          t < n_time -> s < n_states ->
          nth_error flags b = Some false ->
          cell3 causal t s b = Some NaN)
    /\ (forall t s b,
          t < length (ds_time ds) -> s < ds_n_state_names ds ->
          nth_error flags b = Some false ->
          var_cell (ds_causal_posterior ds) n_x t s b = Some zero).
Proof.
  intros Henv Hgrid H flags n_states d n_x.
  unfold _get_results in H. rewrite Henv in H. simpl in H.
  inv_bind_as H lik Hlik. inv_bind_as H ic Hic. inv_bind_as H ct Hct.
  inv_bind_as H lk Hlk. inv_bind_as H pd Hpd. destruct pd as [posterior dll].
  inv_bind_as H causal Hcausal. inv_bind_as H acausal Hacausal.
  destruct (assign_bins_extents _ _ _ _ _ _ _ Hcausal) as [Hcl Hcs].
  destruct (convert_single_inv _ _ _ _ _ _ _ _ Henv H)
    as (diag & sc & _ & _ & _ & Ht & En & Hdll & _ & Hc & Ha).
  simpl in Hc, Ha. subst dll. rewrite Ht, En.
  exists lik, ic, ct, lk, posterior, causal.
  split; [exact Hlik|].
  split; [now apply select_ic_interior|].
  split; [now apply st_interior_cells|].
  split; [now apply select_bins_interior|].
  split; [exact Hpd|]. split; [exact Hcausal|]. split; [|split].
  - destruct is_compute_acausal.
    + inv_bind_as Hacausal cp Hcp. inv_bind_as Hacausal ct' Hct'.
      inv_bind_as Hacausal sm Hsm. inv_bind_as Hacausal a Hassign.
      injection Hacausal as <-.
      assert (ct' = ct) by congruence. subst ct'.
      destruct (ds_acausal_posterior ds) as [v|]; [|contradiction].
      exists cp, sm, a, v.
      split; [now apply select_bins_interior|].
      split; [exact Hsm|]. split; [exact Hassign|].
      split; [reflexivity|].
      destruct (assign_bins_extents _ _ _ _ _ _ _ Hassign) as [Hal Has].
      split.
      * intros t s b Ht' Hs' Hb. eapply assign_bins_nan_cell; eauto.
      * intros t s b Ht' Hs' Hb. eapply converted_zero_cell; eauto.
    + injection Hacausal as <-.
      destruct (ds_acausal_posterior ds); [contradiction|reflexivity].
  - intros t s b Ht' Hs' Hb. eapply assign_bins_nan_cell; eauto.
  - intros t s b Ht' Hs' Hb. eapply converted_zero_cell; eauto.
Qed.

Lemma single_environment_interior_only_witness :
  (exists ds,
      _get_results demo_core demo_classifier demo_likelihood 2 None true
        false None = Ok ds
      /\ nth_error (is_track_interior_ demo_env) 2 = Some false
      /\ var_cell (ds_causal_posterior ds) 5 1 0 2 = Some zero)
  /\ (exists ds,
        _get_results demo_core demo_classifier_hole demo_likelihood_box 2
          None true false None = Ok ds
        /\ nth_error (is_track_interior_ demo_env_hole) 1 = Some false
        /\ var_cell (ds_causal_posterior ds) 2 1 0 1 = Some zero).
Proof.
  split.
  - destruct (_get_results demo_core demo_classifier demo_likelihood 2 None
                true false None) as [ds|e] eqn:H;
      [|vm_compute in H; discriminate].
    exists ds. split; [reflexivity|]. split; [reflexivity|].
    destruct (single_environment_interior_only demo_core demo_classifier
                demo_env demo_likelihood 2 None true false None ds
                eq_refl ltac:(simpl; lia) H)
      as (lik & ic & ct & lk & posterior & causal & _ & _ & _ & _ & _ & _
          & _ & _ & Hz).
    apply Hz; [| |reflexivity];
      vm_compute in H; injection H as <-; simpl; lia.
  - destruct (_get_results demo_core demo_classifier_hole
                demo_likelihood_box 2 None true false None)
      as [ds|e] eqn:H; [|vm_compute in H; discriminate].
    exists ds. split; [reflexivity|]. split; [reflexivity|].
    destruct (single_environment_interior_only demo_core
                demo_classifier_hole demo_env_hole demo_likelihood_box 2
                None true false None ds eq_refl ltac:(reflexivity) H)
      as (lik & ic & ct & lk & posterior & causal & _ & _ & _ & _ & _ & _
          & _ & _ & Hz).
    apply Hz; [| |reflexivity];
      vm_compute in H; injection H as <-; simpl; lia.
Defined.

(** ** The padded likelihood buffer *)

Lemma assign_row_shape (state_ind : nat) (slab out : mat) (src : vec) n m :
  has_shape2 slab n m ->
  assign_row state_ind slab src = Ok out -> has_shape2 out n m.
Proof.
  unfold has_shape2. revert state_ind out n.
  induction slab as [|r rs IH]; intros i out n [Hn Hm] H.
  - destruct i; discriminate.
  - inversion Hm as [|? ? Hr Hrs]; subst.
    destruct i as [|i]; simpl in H.
    + inv_bind_as H r' Hr'. inv_ok H. split; [reflexivity|].
      constructor; auto. apply (assign_prefix_length _ _ _ Hr').
    + inv_bind_as H rs' Hrs'. inv_ok H.
      destruct (IH i rs' (length rs) (conj eq_refl Hrs) Hrs') as [E F].
      split; [simpl; congruence|]. constructor; auto.
Qed.

Lemma assign_state_shape core d n_time n_states state_ind buffer l out m :
  has_shape3 buffer n_time n_states m ->
  assign_state core d n_time n_states state_ind buffer l = Ok out ->
  has_shape3 out n_time n_states m.
Proof.
  unfold assign_state, has_shape3. intros [Ht Hs] H.
  destruct (n_states <=? state_ind); [discriminate|].
  inv_bind_as H rows Hrows. split.
  - now rewrite (assign_each_length _ _ _ _ H).
  - eapply assign_each_Forall; [| exact Hs | exact H].
    cbn beta. intros slab src o Hslab Ho.
    eapply assign_row_shape; eauto.
Qed.

Lemma fill_likelihood_shape core d likelihood n_time n_states m obs :
  forall state_ind buffer out,
    has_shape3 buffer n_time n_states m ->
    fill_likelihood core d likelihood n_time n_states state_ind obs buffer
    = Ok out ->
    has_shape3 out n_time n_states m.
Proof.
  induction obs as [|o rest IH]; intros i buffer out Hb H; simpl in H.
  - now inv_ok H.
  - inv_bind_as H l Hl. inv_bind_as H buffer' Hb'.
    eapply IH; [|exact H]. eapply assign_state_shape; eauto.
Qed.

Lemma full3_shape (t s b : nat) (x : float) : has_shape3 (full3 t s b x) t s b.
Proof.
  unfold has_shape3, has_shape2, full3. split; [apply repeat_length|].
  apply repeat_Forall. split; [apply repeat_length|].
  apply repeat_Forall. apply repeat_length.
Qed.

(** [np.max]: an upper bound that is attained. *)
Lemma fold_max_spec (l : list nat) (x : nat) :
  x <= fold_left Nat.max l x
  /\ Forall (fun y => y <= fold_left Nat.max l x) l
  /\ (fold_left Nat.max l x = x \/ In (fold_left Nat.max l x) l).
Proof.
  revert x; induction l as [|y l IH]; intros x; simpl.
  - split; [lia|]. split; [constructor | now left].
  - destruct (IH (Nat.max x y)) as (H1 & H2 & H3).
    split; [lia|]. split.
    + constructor; [lia | assumption].
    + destruct H3 as [H3|H3]; [|auto].
      destruct (Nat.max_spec x y) as [[_ E]|[_ E]]; rewrite E in *;
        [right; left; congruence | left; congruence].
Qed.

Lemma max_pos_bins_spec (envs : list Environment) (m : nat) :
  max_pos_bins_of envs = Ok m ->
  Forall (fun e => n_place_bins e <= m) envs
  /\ exists e, In e envs /\ n_place_bins e = m.
Proof.
  unfold max_pos_bins_of, np_max. destruct envs as [|e es]; simpl;
    intros H; [discriminate|]. inv_ok H.
  destruct (fold_max_spec (map n_place_bins es) (n_place_bins e))
    as (H1 & H2 & H3).
  split.
  - constructor; [exact H1|].
    apply Forall_forall. intros e' He'.
    rewrite Forall_forall in H2. apply H2. now apply in_map.
  - destruct H3 as [H3|H3].
    + exists e. split; [now left | now symmetry].
    + apply in_map_iff in H3. destruct H3 as (e' & E & He').
      exists e'. split; [now right | assumption].
Qed.

(** ** The multi-environment result *)

(** C8.  When the number of environments is not one, no interior flag is
    consulted: the likelihood buffer has the bin extent [max_pos_bins_],
    which is the largest bin count over the environments, on every state;
    the recursions receive the full padded arrays of the model, and the
    dataset holds their outputs as returned. *)
Theorem multi_environment_padded core self likelihood n_time time
    is_compute_acausal use_gpu state_names ds :
  length (environments self) <> 1 ->
  max_pos_bins_of (environments self) = Ok (max_pos_bins_ self) ->
  _get_results core self likelihood n_time time is_compute_acausal use_gpu
    state_names = Ok ds ->
  let n_states := length (discrete_state_transition_ self) in
  let d := dtype_of use_gpu in
  (Forall (fun e => n_place_bins e <= max_pos_bins_ self) (environments self)
   /\ exists e, In e (environments self)
                /\ n_place_bins e = max_pos_bins_ self)
  /\ exists raw causal,
       fill_likelihood core d likelihood n_time n_states 0
         (observation_models self)
         (full3 n_time n_states (max_pos_bins_ self) NaN) = Ok raw
       /\ has_shape3 raw n_time n_states (max_pos_bins_ self)
       /\ compute_causal core use_gpu
            (astype_ic core d (initial_conditions_ self))
            (astype4 core d (continuous_state_transition_ self))
            (astype2 core d (discrete_state_transition_ self))
            (astype3 core d (nan_to_zero3 (scaled_likelihood core raw)))
          = Ok (causal, data_log_likelihood ds)
       /\ ds_likelihood ds = Var1 (nan_to_zero3 (scaled_likelihood core raw))
       /\ ds_causal_posterior ds = Var1 causal
       /\ (is_compute_acausal = true ->
             exists smoothed,
               compute_acausal core use_gpu (astype3 core d causal)
                 (astype4 core d (continuous_state_transition_ self))
                 (astype2 core d (discrete_state_transition_ self))
               = Ok smoothed
               /\ ds_acausal_posterior ds = Some (Var1 smoothed))
       /\ (is_compute_acausal = false -> ds_acausal_posterior ds = None).
Proof.
  intros Hn Hmax H n_states d.
  split; [now apply max_pos_bins_spec|].
  unfold _get_results in H.
  inv_bind_as H lik Hlik.
  destruct (Nat.eqb_spec (length (environments self)) 1) as [E|_];
    [contradiction|].
  unfold results_likelihood in Hlik.
  inv_bind_as Hlik raw Hraw. inv_ok Hlik.
  inv_bind_as H pd Hpd. destruct pd as [causal dll].
  inv_bind_as H acausal Hacausal.
  unfold _convert_results_to_xarray_mutienvironment in H.
  destruct (environments self) as [|e0 es]; [discriminate|].
  simpl in H.
  inv_bind_as H l' Hl'. inv_bind_as H c' Hc'. inv_bind_as H a' Ha'.
  injection H as <-. simpl.
  apply labelled_var in Hl'. apply labelled_var in Hc'. subst l' c'.
  exists raw, causal.
  split; [exact Hraw|].
  split.
  { eapply fill_likelihood_shape; [apply full3_shape | exact Hraw]. }
  split; [exact Hpd|].
  split; [reflexivity|]. split; [reflexivity|].
  split.
  - intros ->. inv_bind_as Hacausal sm Hsm. injection Hacausal as <-.
    simpl in Ha'. inv_bind_as Ha' v Hv. injection Ha' as <-.
    apply labelled_var in Hv. subst v. eauto.
  - intros ->. injection Hacausal as <-. simpl in Ha'.
    now injection Ha' as <-.
Qed.

Lemma multi_environment_padded_witness :
  exists ds raw causal,
    _get_results demo_core demo_classifier2 demo_likelihood2 2 None true
      false None = Ok ds
    /\ has_shape3 raw 2 2 5
    /\ ds_likelihood ds = Var1 (nan_to_zero3 (scaled_likelihood_spec raw))
    /\ ds_causal_posterior ds = Var1 causal.
Proof.
  eexists.
  destruct (multi_environment_padded demo_core demo_classifier2
              demo_likelihood2 2 None true false None _
              ltac:(simpl; lia) eq_refl ltac:(vm_compute; reflexivity))
    as (_ & raw & causal & _ & Hshape & _ & Hl & Hc & _).
  exists raw, causal. repeat split; try assumption; apply Hshape.
Defined.

(** ** Cells of the likelihood buffer *)

Lemma broadcast_axis_Forall {A} (P : A -> Prop) (n : nat) (l v : list A) :
  broadcast_axis n l = Ok v -> Forall P l -> Forall P v.
Proof.
  unfold broadcast_axis. intros H Hl.
  destruct (length l =? n); [now inv_ok H|].
  destruct l as [|x [|y l]]; try discriminate. inv_ok H.
  apply repeat_Forall. now inversion Hl.
Qed.

Lemma assign_prefix_Forall {A} (P : A -> Prop) (row src out : list A) :
  assign_prefix row src = Ok out ->
  Forall P row -> Forall P src -> Forall P out.
Proof.
  intros H Hr Hs. apply assign_prefix_eq in H. subst.
  apply Forall_app. split;
    [now apply Forall_firstn' | now apply Forall_skipn'].
Qed.

Lemma assign_row_Forall (P : float -> Prop) i (slab out : mat) (src : vec) :
  assign_row i slab src = Ok out ->
  Forall (Forall P) slab -> Forall P src -> Forall (Forall P) out.
Proof.
  revert i out; induction slab as [|r rs IH]; intros i out H Hslab Hsrc.
  - destruct i; discriminate.
  - inversion Hslab; subst. destruct i as [|i]; simpl in H.
    + inv_bind_as H r' Hr'. inv_ok H. constructor; auto.
      eapply assign_prefix_Forall; eauto.
    + inv_bind_as H rs' Hrs'. inv_ok H. constructor; eauto.
Qed.

Lemma assign_each_Forall2 {A B} (P : A -> Prop) (Q : B -> Prop)
    (f : A -> B -> result A) tgt srcs out :
  (forall t s o, P t -> Q s -> f t s = Ok o -> P o) ->
  Forall P tgt -> Forall Q srcs ->
  assign_each f tgt srcs = Ok out -> Forall P out.
Proof.
  intros Hf. revert tgt out; induction srcs as [|s ss IH];
    intros tgt out HP HQ H; simpl in H.
  - now inv_ok H.
  - destruct tgt as [|t ts]; [discriminate|].
    inv_bind_as H t' Ht'. inv_bind_as H ts' Hts'. inv_ok H.
    inversion HP; inversion HQ; subst. constructor; eauto.
Qed.

Lemma dict_get_Forall (P : float -> Prop) k (d : likelihood_dict) l :
  Forall_dict P d -> dict_get k d = Ok l -> Forall (Forall P) l.
Proof.
  unfold Forall_dict. induction d as [|[[n g] v] d IH]; simpl;
    intros Hd H; [discriminate|].
  inversion Hd; subst.
  destruct (_ && _); [now inv_ok H | auto].
Qed.

Lemma fill_likelihood_Forall (P : float -> Prop) core d likelihood n_time
    n_states obs :
  (forall x, P x -> P (astype core d x)) ->
  Forall_dict P likelihood ->
  forall state_ind buffer out,
    Forall3 P buffer ->
    fill_likelihood core d likelihood n_time n_states state_ind obs buffer
    = Ok out ->
    Forall3 P out.
Proof.
  intros Hcast Hd. unfold Forall3.
  induction obs as [|o rest IH]; intros i buffer out Hb H; simpl in H.
  - now inv_ok H.
  - inv_bind_as H l Hl. inv_bind_as H buffer' Hb'.
    eapply IH; [|exact H].
    unfold assign_state in Hb'. destruct (n_states <=? i); [discriminate|].
    inv_bind_as Hb' rows Hrows.
    eapply (assign_each_Forall2 _ (Forall P)); [| exact Hb | | exact Hb'].
    + cbn beta. intros slab src o' Hslab Hsrc Ho'.
      eapply assign_row_Forall; eauto.
      unfold astype1. apply Forall_map.
      eapply Forall_impl; [|exact Hsrc]. auto.
    + eapply broadcast_axis_Forall; eauto.
      eapply dict_get_Forall; eauto.
Qed.

Lemma full3_Forall (P : float -> Prop) (t s b : nat) (x : float) :
  P x -> Forall3 P (full3 t s b x).
Proof.
  intros H. unfold Forall3, full3. now repeat apply repeat_Forall.
Qed.

(** ** The scaled likelihood *)

Lemma fmax_raw (x y : float) :
  raw_cell x -> raw_cell y ->
  raw_cell (fmax x y)
  /\ (forall p, x = Fin p -> exists m, fmax x y = Fin m /\ (p <= m)%Q)
  /\ (forall p, y = Fin p -> exists m, fmax x y = Fin m /\ (p <= m)%Q).
Proof.
  destruct x as [| | |a], y as [| | |b]; simpl; intros Hx Hy;
    try contradiction.
  - repeat split; auto; intros p E; discriminate.
  - repeat split; auto; intros p E; try discriminate.
    inv_ok E. exists p. split; [reflexivity | apply Qle_refl].
  - repeat split; auto; intros p E; try discriminate.
    inv_ok E. exists p. split; [reflexivity | apply Qle_refl].
  - destruct (Qle_bool a b) eqn:E.
    + apply Qle_bool_iff in E. repeat split; auto; intros p Ep; inv_ok Ep;
        eexists; (split; [reflexivity|]); auto. apply Qle_refl.
    + assert (Hba : (b <= a)%Q).
      { destruct (Qlt_le_dec a b) as [Hlt|Hle]; [|exact Hle].
        apply Qlt_le_weak in Hlt. apply Qle_bool_iff in Hlt. congruence. }
      repeat split; auto; intros p Ep; inv_ok Ep;
        eexists; (split; [reflexivity|]); auto. apply Qle_refl.
Qed.

(** The maximum of a step of raw cells: a raw cell that bounds every
    number of the step. *)
Lemma fold_fmax_raw (l : list float) (acc : float) :
  raw_cell acc -> Forall raw_cell l ->
  raw_cell (fold_left fmax l acc)
  /\ forall p, acc = Fin p \/ In (Fin p) l ->
       exists m, fold_left fmax l acc = Fin m /\ (p <= m)%Q.
Proof.
  revert acc; induction l as [|x l IH]; intros acc Hacc Hl; simpl.
  - split; [assumption|]. intros p [E|[]]. subst. exists p.
    split; [reflexivity | apply Qle_refl].
  - inversion Hl as [|? ? Hx Hl']; subst.
    destruct (fmax_raw acc x Hacc Hx) as (Hr & Ha & Hb).
    destruct (IH (fmax acc x) Hr Hl') as (Hr' & Hbound).
    split; [assumption|].
    intros p [E|[E|Hin]].
    + destruct (Ha p E) as (m & Em & Hm).
      destruct (Hbound m (or_introl Em)) as (m' & Em' & Hm').
      exists m'. split; [assumption | eapply Qle_trans; eauto].
    + destruct (Hb p E) as (m & Em & Hm).
      destruct (Hbound m (or_introl Em)) as (m' & Em' & Hm').
      exists m'. split; [assumption | eapply Qle_trans; eauto].
    + apply Hbound. now right.
Qed.

Lemma cell2_In_concat (slab : mat) (s b : nat) (x : float) :
  cell2 slab s b = Some x -> In x (concat slab).
Proof.
  unfold cell2. intros H.
  destruct (nth_error slab s) as [r|] eqn:E; [|discriminate].
  apply in_concat. exists r. split; eapply nth_error_In; eauto.
Qed.

Lemma step_max_raw (slab : mat) :
  Forall (Forall raw_cell) slab ->
  raw_cell (step_max slab)
  /\ forall s b p, cell2 slab s b = Some (Fin p) ->
       exists m, step_max slab = Fin m /\ (p <= m)%Q.
Proof.
  intros H. unfold step_max.
  assert (Hc : Forall raw_cell (concat slab)).
  { apply Forall_concat. exact H. }
  destruct (fold_fmax_raw (concat slab) NaN I Hc) as (Hr & Hb).
  split; [assumption|]. intros s b p Hp. apply Hb. right.
  eapply cell2_In_concat; eauto.
Qed.

(** One scaled cell: NaN becomes 0, a number is divided by the maximum. *)
Lemma scaled_cell (m p : Q) :
  (0 <= p)%Q -> (p <= m)%Q ->
  exists p', nan_to_zero (fdiv (Fin p) (Fin m)) = Fin p'
             /\ (p' * m == p)%Q /\ (p' <= 1)%Q.
Proof.
  intros Hp Hm. unfold fdiv.
  destruct (Qeq_bool m 0) eqn:Em.
  - apply Qeq_bool_iff in Em.
    assert (Ep : (p == 0)%Q).
    { apply Qle_antisym; [rewrite <- Em; assumption | assumption]. }
    assert (Eb : Qeq_bool p 0 = true) by (now apply Qeq_bool_iff).
    rewrite Eb. exists 0%Q. split; [reflexivity|].
    split; [rewrite Ep; ring | discriminate].
  - assert (Hm0 : ~ (m == 0)%Q).
    { intros E. apply Qeq_bool_iff in E. congruence. }
    assert (Hpos : (0 < m)%Q).
    { destruct (Qle_lt_or_eq 0 m) as [Hlt|Heq].
      - eapply Qle_trans; eauto.
      - exact Hlt.
      - exfalso. apply Hm0. now symmetry. }
    exists (p / m)%Q. split; [reflexivity|]. split.
    + rewrite Qmult_comm. now apply Qmult_div_r.
    + apply Qle_shift_div_r; [assumption|]. now rewrite Qmult_1_l.
Qed.

Lemma scaled_cells (raw : arr3) (t s b : nat) :
  cell3 (nan_to_zero3 (scaled_likelihood_spec raw)) t s b
  = match nth_error raw t with
    | Some slab =>
        option_map (fun x => nan_to_zero (fdiv x (step_max slab)))
          (cell2 slab s b)
    | None => None
    end.
Proof.
  unfold cell3, cell2, nan_to_zero3, scaled_likelihood_spec, arr3, mat, vec.
  rewrite !nth_error_map.
  destruct (nth_error raw t) as [slab|]; simpl; [|reflexivity].
  rewrite !nth_error_map.
  destruct (nth_error slab s) as [row|]; simpl; [|reflexivity].
  rewrite !nth_error_map.
  now destruct (nth_error row b).
Qed.

Lemma scaled_extents (raw : arr3) :
  extents3 (nan_to_zero3 (scaled_likelihood_spec raw)) = extents3 raw.
Proof.
  unfold extents3, nan_to_zero3, scaled_likelihood_spec.
  rewrite !map_map. apply map_ext. intros slab.
  rewrite !map_map. apply map_ext. intros row.
  now rewrite !length_map.
Qed.

Lemma Forall3_cell (P : float -> Prop) (a : arr3) (t s b : nat) (x : float) :
  Forall3 P a -> cell3 a t s b = Some x -> P x.
Proof.
  unfold Forall3, cell3, cell2. intros H Hc.
  destruct (nth_error a t) as [slab|] eqn:Et; [|discriminate].
  destruct (nth_error slab s) as [row|] eqn:Es; [|discriminate].
  rewrite Forall_forall in H.
  pose proof (H _ (nth_error_In _ _ Et)) as Hs.
  rewrite Forall_forall in Hs.
  pose proof (Hs _ (nth_error_In _ _ Es)) as Hr.
  rewrite Forall_forall in Hr.
  exact (Hr _ (nth_error_In _ _ Hc)).
Qed.

(** C7.  With the scaler of the specification, the likelihood that
    [_get_results] builds for the recursions has the extents of the raw
    (n_time, n_states, max_pos_bins_) buffer; it holds no NaN, a raw NaN
    having become 0; within a time step every number is the raw number
    divided by the maximum of the step across states and bins, so no cell
    exceeds 1 and the ratio of two cells of a step is the raw ratio. *)
Theorem scaled_likelihood_normalised core self likelihood n_time use_gpu lik :
  scaled_likelihood core = scaled_likelihood_spec ->
  (forall x, raw_cell x -> raw_cell (round32 core x)) ->
  Forall_dict raw_cell likelihood ->
  results_likelihood core self likelihood n_time use_gpu = Ok lik ->
  exists raw,
    fill_likelihood core (dtype_of use_gpu) likelihood n_time
      (length (discrete_state_transition_ self)) 0 (observation_models self)
      (full3 n_time (length (discrete_state_transition_ self))
         (max_pos_bins_ self) NaN) = Ok raw
    /\ extents3 lik = extents3 raw
    /\ (forall t s b x, cell3 raw t s b = Some x ->
          exists y, cell3 lik t s b = Some y
                    /\ isnan y = false
                    /\ float_le y (Fin 1)
                    /\ (x = NaN -> y = zero))
    /\ (forall t slab s b p,
          nth_error raw t = Some slab -> cell2 slab s b = Some (Fin p) ->
          exists m p', step_max slab = Fin m /\ (p <= m)%Q
                       /\ cell3 lik t s b = Some (Fin p')
                       /\ (p' * m == p)%Q)
    /\ (forall t s b s' b' p q p' q',
          cell3 raw t s b = Some (Fin p) ->
          cell3 raw t s' b' = Some (Fin q) ->
          cell3 lik t s b = Some (Fin p') ->
          cell3 lik t s' b' = Some (Fin q') ->
          (p' * q == q' * p)%Q).
Proof.
  intros Hscale Hround Hdict H.
  unfold results_likelihood in H. inv_bind_as H raw Hraw. inv_ok H.
  rewrite Hscale.
  assert (Hcells : Forall3 raw_cell raw).
  { eapply (fill_likelihood_Forall raw_cell); [| exact Hdict | | exact Hraw].
    - intros x Hx. unfold astype. destruct use_gpu; simpl; auto.
    - apply full3_Forall. exact I. }
  assert (Hdiv : forall t slab s b p,
             nth_error raw t = Some slab -> cell2 slab s b = Some (Fin p) ->
             exists m p', step_max slab = Fin m /\ (p <= m)%Q
               /\ cell3 (nan_to_zero3 (scaled_likelihood_spec raw)) t s b
                  = Some (Fin p')
               /\ (p' * m == p)%Q /\ (p' <= 1)%Q).
  { intros t slab s b p Et Ec.
    assert (Hslab : Forall (Forall raw_cell) slab).
    { unfold Forall3 in Hcells. rewrite Forall_forall in Hcells.
      apply Hcells. eapply nth_error_In; eauto. }
    destruct (step_max_raw slab Hslab) as (_ & Hb).
    destruct (Hb s b p Ec) as (m & Em & Hm).
    assert (Hp : (0 <= p)%Q).
    { apply (Forall3_cell raw_cell raw t s b (Fin p) Hcells).
      unfold cell3. now rewrite Et. }
    destruct (scaled_cell m p Hp Hm) as (p' & E' & Hmul & Hle).
    exists m, p'. rewrite scaled_cells, Et, Ec. unfold option_map.
    rewrite Em, E'.
    auto. }
  exists raw. split; [exact Hraw|]. split; [apply scaled_extents|].
  split; [|split].
  - intros t s b x Hc.
    pose proof (Forall3_cell raw_cell raw t s b x Hcells Hc) as Hx.
    unfold cell3 in Hc.
    destruct (nth_error raw t) as [slab|] eqn:Et; [|discriminate].
    destruct x as [| | |p]; try contradiction.
    + exists zero. rewrite scaled_cells, Et, Hc. simpl.
      repeat split; auto. discriminate.
    + destruct (Hdiv t slab s b p Et Hc) as (m & p' & _ & _ & E & _ & Hle).
      exists (Fin p'). repeat split; auto. discriminate.
  - intros t slab s b p Et Ec.
    destruct (Hdiv t slab s b p Et Ec) as (m & p' & Em & Hm & E & Hmul & _).
    exists m, p'. auto.
  - intros t s b s' b' p q p' q' Hp Hq Hp' Hq'.
    unfold cell3 in Hp, Hq.
    destruct (nth_error raw t) as [slab|] eqn:Et; [|discriminate].
    destruct (Hdiv t slab s b p Et Hp) as (m & p1 & Em & _ & E1 & M1 & _).
    destruct (Hdiv t slab s' b' q Et Hq) as (m' & q1 & Em' & _ & E2 & M2 & _).
    rewrite Em in Em'. inv_ok Em'.
    rewrite Hp' in E1. inv_ok E1. rewrite Hq' in E2. inv_ok E2.
    rewrite <- M1, <- M2. ring.
Qed.

Lemma demo_likelihood_raw : Forall_dict raw_cell demo_likelihood.
Proof.
  unfold Forall_dict, demo_likelihood.
  repeat (apply Forall_cons || apply Forall_nil); simpl;
    try exact I; unfold Qle; simpl; lia.
Qed.

Lemma scaled_likelihood_normalised_witness :
  exists lik raw y,
    results_likelihood demo_core demo_classifier demo_likelihood 2 false
    = Ok lik
    /\ extents3 lik = extents3 raw
    /\ cell3 raw 0 1 3 = Some (Fin 4)
    /\ cell3 lik 0 1 3 = Some y
    /\ float_le y (Fin 1).
Proof.
  destruct (scaled_likelihood_normalised demo_core demo_classifier
              demo_likelihood 2 false _ eq_refl (fun x H => H)
              demo_likelihood_raw ltac:(vm_compute; reflexivity))
    as (raw & Hraw & Hext & Hcell & _).
  vm_compute in Hraw. inv_ok Hraw.
  destruct (Hcell 0 1 3 (Fin 4) eq_refl) as (y & Hy & _ & Hle & _).
  eexists. eexists. exists y.
  split; [vm_compute; reflexivity|].
  split; [exact Hext|]. split; [reflexivity|]. split; assumption.
Defined.

(** ** Shape checks before the recursion *)


(** ** The refinement loop *)

Section EstimateProperties.
Variable Data : Type.
Variable FitArgs : Type.
Variable data_n_time : Data -> nat.
Variable fit : FitArgs -> Classifier -> result Classifier.
Variable estimate_likelihood : Classifier -> Data -> result likelihood_dict.
Variable core : Core.

Local Abbreviation predict' := (predict Data data_n_time estimate_likelihood core).
Local Abbreviation run_pass' :=
  (run_pass Data data_n_time estimate_likelihood core).
Local Abbreviation em_step' := (em_step Data data_n_time estimate_likelihood core).
Local Abbreviation em_loop' := (em_loop Data data_n_time estimate_likelihood core).
Local Abbreviation estimate_parameters' :=
  (estimate_parameters Data FitArgs data_n_time fit estimate_likelihood core).

Lemma same_model_refl a : same_model a a.
Proof. repeat split. Qed.

Lemma same_model_trans a b c :
  same_model a b -> same_model b c -> same_model a c.
Proof.
  unfold same_model. intros (A1 & A2 & A3 & A4 & A5) (B1 & B2 & B3 & B4 & B5).
  repeat split; congruence.
Qed.

Lemma predict_frame args self self' results :
  predict' args self = Ok (self', results) ->
  same_model self self'
  /\ initial_conditions_ self' = initial_conditions_ self
  /\ discrete_state_transition_ self' = discrete_state_transition_ self
  /\ (or_default (pa_store_likelihood args) false = false ->
      self' = self).
Proof.
  unfold predict. intros H.
  inv_bind_as H lik Hlik. inv_bind_as H r Hr. injection H as <- <-.
  destruct (or_default (pa_store_likelihood args) false);
    repeat split; auto; discriminate.
Qed.

Lemma run_pass_frame args store_likelihood n_time self self' results :
  run_pass' args store_likelihood n_time self = Ok (self', results) ->
  same_model self self'
  /\ initial_conditions_ self' = initial_conditions_ self
  /\ discrete_state_transition_ self' = discrete_state_transition_ self.
Proof.
  unfold run_pass. destruct store_likelihood.
  - destruct (likelihood_ self) as [l|]; [|discriminate]. intros H.
    inv_bind_as H r Hr. injection H as <- <-.
    repeat split.
  - intros H. apply predict_frame in H. tauto.
Qed.

Lemma update_initial_conditions_frame flag self results self' :
  update_initial_conditions flag self results = Ok self' ->
  same_model self self'
  /\ discrete_state_transition_ self' = discrete_state_transition_ self.
Proof.
  unfold update_initial_conditions. destruct flag; intros H.
  - inv_bind_as H ic Hic. injection H as <-. repeat split.
  - injection H as <-. repeat split.
Qed.

Lemma update_discrete_transition_frame flag self results self' :
  update_discrete_transition core flag self results = Ok self' ->
  same_model self self'
  /\ initial_conditions_ self' = initial_conditions_ self.
Proof.
  unfold update_discrete_transition. destruct flag; intros H.
  - inv_bind_as H dt Hdt. injection H as <-. repeat split.
  - injection H as <-. repeat split.
Qed.

(** What one turn of the loop does to the loop variables. *)
Lemma em_step_spec args tolerance sl eic edt n_time st st' :
  em_step' args tolerance sl eic edt n_time st = Ok st' ->
  same_model (em_self st) (em_self st')
  /\ em_n_iter st' = S (em_n_iter st)
  /\ em_data_log_likelihoods st'
     = em_data_log_likelihoods st ++ [data_log_likelihood (em_results st')].
Proof.
  unfold em_step. intros H.
  inv_bind_as H self1 H1. inv_bind_as H self2 H2.
  inv_bind_as H pr H3. destruct pr as [self3 results].
  destruct (last_two _) as [new old].
  destruct (check_converged core new old tolerance) as [c i].
  injection H as <-. simpl.
  apply update_initial_conditions_frame in H1.
  apply update_discrete_transition_frame in H2.
  apply run_pass_frame in H3.
  repeat split; try reflexivity.
  all: destruct H1 as [(A1 & A2 & A3 & A4 & A5) _],
         H2 as [(B1 & B2 & B3 & B4 & B5) _],
         H3 as [(C1 & C2 & C3 & C4 & C5) _]; congruence.
Qed.
(** The loop returns as soon as the fuel covers the iterations that the
    cap still allows. *)
Lemma em_loop_terminates args tolerance max_iter sl eic edt n_time :
  forall fuel st,
    (max_iter - Z.of_nat (em_n_iter st) <= Z.of_nat fuel)%Z ->
    exists r,
      em_loop' fuel args tolerance max_iter sl eic edt n_time st = Some r.
Proof.
  induction fuel as [|fuel IH]; intros st Hfuel; simpl.
  - destruct (negb (em_converged st)); simpl; [|eauto].
    destruct (Z.ltb_spec (Z.of_nat (em_n_iter st)) max_iter); [lia|eauto].
  - destruct (negb (em_converged st)); simpl; [|eauto].
    destruct (Z.ltb_spec (Z.of_nat (em_n_iter st)) max_iter); [|eauto].
    destruct (em_step' args tolerance sl eic edt n_time st) as [st'|e] eqn:E;
      [|eauto].
    apply IH. apply em_step_spec in E. destruct E as (_ & En & _).
    rewrite En. lia.
Qed.

(** An invariant of the loop body holds when the loop returns, and the
    guard is then false. *)
Lemma em_loop_invariant (P : em_state -> Prop) args tolerance max_iter sl
    eic edt n_time :
  (forall st st', P st -> em_guard max_iter st = true ->
                  em_step' args tolerance sl eic edt n_time st = Ok st' ->
                  P st') ->
  forall fuel st st',
    P st ->
    em_loop' fuel args tolerance max_iter sl eic edt n_time st
    = Some (Ok st') ->
    P st' /\ em_guard max_iter st' = false.
Proof.
  intros Hstep. induction fuel as [|fuel IH]; intros st st' HP H;
    simpl in H; fold (em_guard max_iter st) in H;
    destruct (em_guard max_iter st) eqn:G.
  - discriminate.
  - injection H as <-. auto.
  - destruct (em_step' args tolerance sl eic edt n_time st) as [st1|e] eqn:E;
      [|discriminate].
    eapply IH; [|exact H]. eapply Hstep; eauto.
  - injection H as <-. auto.
Qed.

Lemma em_counters_step args tolerance max_iter sl eic edt n_time st st' :
  em_counters max_iter st -> em_guard max_iter st = true ->
  em_step' args tolerance sl eic edt n_time st = Ok st' ->
  em_counters max_iter st'.
Proof.
  unfold em_counters, em_guard. intros [Hn Hl] G H.
  apply andb_prop in G. destruct G as [_ G]. apply Z.ltb_lt in G.
  apply em_step_spec in H. destruct H as (_ & En & El).
  rewrite En, El, length_app. simpl. split; lia.
Qed.
(** C4.  [estimate_parameters] always comes back: with an exception of
    one of its calls, or with a result after at most [max_iter] turns of
    the loop.  The trace has one entry for the first pass and one per
    turn.  When the loop stops without convergence at the cap, nothing is
    raised: the warning is logged and the last result and the trace are
    returned. *)
Theorem estimate_parameters_terminates self fit_args args tolerance
    max_iter sl eic edt :
  exists r,
    estimate_parameters' self fit_args args tolerance max_iter sl eic edt
    = Some r
    /\ forall out, r = Ok out ->
         (Z.of_nat (out_n_iter out) <= Z.max 0 max_iter)%Z
         /\ length (out_data_log_likelihoods out) = S (out_n_iter out)
         /\ (out_converged out = false ->
             Z.of_nat (out_n_iter out) = max_iter ->
             out_warnings out = [warning_max_iter])
         /\ (out_converged out = false -> (0 <= max_iter)%Z ->
             Z.of_nat (out_n_iter out) = max_iter)
         /\ (out_converged out = true -> out_warnings out = []).
Proof.
  unfold estimate_parameters.
  destruct (do self0 <- fit fit_args self; _) as [[self1 results]|e].
  2:{ eexists. split; [reflexivity|]. intros out H. discriminate. }
  match goal with
  | |- context [em_loop ?D ?n ?el ?c ?fuel ?a ?t ?m ?s ?i ?d ?nt ?st0] =>
      destruct (em_loop_terminates a t m s i d nt fuel st0) as [r Hr];
      [simpl; lia|];
      pose proof (em_loop_invariant (em_counters m) a t m s i d nt
                    (em_counters_step a t m s i d nt) fuel st0) as Hinv
  end.
  rewrite Hr. destruct r as [st|e].
  2:{ eexists. split; [reflexivity|]. intros out H. discriminate. }
  destruct (Hinv st) as [[Hn Hl] G]; [split; simpl; [lia | reflexivity]
                                      | exact Hr |].
  eexists. split; [reflexivity|]. intros out H. injection H as <-. simpl.
  unfold em_guard in G.
  split; [exact Hn|]. split; [exact Hl|].
  split; [|split].
  - intros -> E. simpl. apply Z.eqb_eq in E. now rewrite E.
  - intros Ec Hm. rewrite Ec in G. simpl in G. apply Z.ltb_ge in G. lia.
  - intros ->. reflexivity.
Qed.

(** C5.  A turn of the loop with [estimate_initial_conditions] on: the
    smoothed (acausal) posterior of the previous pass, sliced at time 0,
    becomes [initial_conditions_] before the filter/smooth pass of the
    turn, which runs on the model that holds it, and the model keeps it
    afterwards. *)
Theorem initial_conditions_overwritten args tolerance sl edt n_time
    st st' :
  em_step' args tolerance sl true edt n_time st = Ok st' ->
  exists ic self2,
    isel_time0_acausal (em_results st) = Ok ic
    /\ (exists v, ds_acausal_posterior (em_results st) = Some v
                  /\ time0_slice v ic)
    /\ update_discrete_transition core edt
         (set_initial_conditions_ (em_self st) ic) (em_results st)
       = Ok self2
    /\ initial_conditions_ self2 = ic
    /\ run_pass' args sl n_time self2 = Ok (em_self st', em_results st')
    /\ initial_conditions_ (em_self st') = ic.
Proof.
  unfold em_step. intros H.
  inv_bind_as H self1 H1. inv_bind_as H self2 H2.
  inv_bind_as H pr H3. destruct pr as [self3 results].
  destruct (last_two _) as [new old].
  destruct (check_converged core new old tolerance) as [c i].
  injection H as <-. simpl.
  unfold update_initial_conditions in H1.
  inv_bind_as H1 ic Hic. injection H1 as <-.
  exists ic, self2.
  pose proof (update_discrete_transition_frame _ _ _ _ H2) as [_ E2].
  pose proof (run_pass_frame _ _ _ _ _ _ H3) as (_ & E3 & _).
  simpl in E2. repeat split; auto; [|congruence].
  unfold isel_time0_acausal in Hic.
  destruct (ds_time (em_results st)); [discriminate|].
  destruct (ds_acausal_posterior (em_results st)) as [[[|m a]|[|m a]]|];
    try discriminate; injection Hic as <-; eexists; split; reflexivity.
Qed.

(** C6.  A run of [estimate_parameters] leaves the fitted
    [continuous_state_transition_] as [fit] built it, together with the
    environments, the observation models and the padding width; every
    turn of the loop does. *)
Theorem continuous_kernels_never_reestimated self fit_args args tolerance
    max_iter sl eic edt out :
  estimate_parameters' self fit_args args tolerance max_iter sl eic edt
  = Some (Ok out) ->
  (exists self0,
      fit fit_args self = Ok self0
      /\ same_model self0 (out_self out)
      /\ continuous_state_transition_ (out_self out)
         = continuous_state_transition_ self0)
  /\ (forall args' n_time st st',
        em_step' args' tolerance sl eic edt n_time st = Ok st' ->
        continuous_state_transition_ (em_self st')
        = continuous_state_transition_ (em_self st)).
Proof.
  intros H. split.
  - unfold estimate_parameters in H.
    destruct (fit fit_args self) as [self0|e] eqn:Hfit; [|discriminate].
    cbn [bind] in H.
    destruct (predict _ _ _ _ _ self0) as [[self1 results]|e] eqn:Hp;
      [|discriminate].
    apply predict_frame in Hp. destruct Hp as (Hsame & _).
    match type of H with
    | context [em_loop ?D ?n ?el ?c ?fuel ?a ?t ?m ?s ?i ?d ?nt ?st0] =>
        destruct (em_loop D n el c fuel a t m s i d nt st0)
          as [[st'|e]|] eqn:Hloop; try discriminate;
        pose proof (em_loop_invariant
                      (fun x => same_model self1 (em_self x))
                      a t m s i d nt) as Hinv
    end.
    injection H as <-. simpl.
    destruct (Hinv) with (3 := Hloop) as [Hs _].
    + intros st1 st2 HP _ E. apply em_step_spec in E.
      eapply same_model_trans; [exact HP | apply E].
    + apply same_model_refl.
    + exists self0. split; [reflexivity|].
      pose proof (same_model_trans _ _ _ Hsame Hs) as Hall.
      split; [exact Hall|]. symmetry. apply Hall.
  - intros args' n_time st st' E. apply em_step_spec in E.
    symmetry. apply E.
Qed.
End EstimateProperties.

Lemma estimate_parameters_terminates_witness :
  exists out,
    demo_estimate_parameters 2 = Some (Ok out)
    /\ out_n_iter out = 2
    /\ length (out_data_log_likelihoods out) = 3
    /\ out_warnings out = [warning_max_iter].
Proof.
  destruct (estimate_parameters_terminates unit unit (fun _ => 2) demo_fit
              demo_estimate_likelihood demo_core demo_classifier tt demo_args
              (1 # 10000) 2 true true true) as (r & Hr & Hout).
  fold (demo_estimate_parameters 2) in Hr.
  destruct r as [out|e]; [|vm_compute in Hr; discriminate].
  exists out. split; [exact Hr|].
  destruct (Hout out eq_refl) as (_ & Hl & Hw & _).
  assert (En : out_n_iter out = 2 /\ out_converged out = false).
  { vm_compute in Hr. injection Hr as <-. split; reflexivity. }
  destruct En as [En Ec]. rewrite En in *.
  split; [reflexivity|]. split; [exact Hl|].
  apply Hw; [exact Ec | reflexivity].
Defined.

Lemma initial_conditions_overwritten_witness :
  exists st' ic v,
    em_step unit (fun _ => 2) demo_estimate_likelihood demo_core demo_args
      (1 # 10000) false true true 2 demo_em_state = Ok st'
    /\ ds_acausal_posterior (em_results demo_em_state) = Some v
    /\ time0_slice v ic
    /\ ic <> IC1 []
    /\ initial_conditions_ (em_self st') = ic.
Proof.
  destruct (em_step unit (fun _ => 2) demo_estimate_likelihood demo_core
              demo_args (1 # 10000) false true true 2 demo_em_state)
    as [st'|e] eqn:Hstep; [|vm_compute in Hstep; discriminate].
  exists st'.
  destruct (initial_conditions_overwritten unit (fun _ => 2)
              demo_estimate_likelihood demo_core demo_args (1 # 10000)
              false true 2 demo_em_state st' Hstep)
    as (ic & self2 & Hic & (v & Hv & Hslice) & _ & _ & _ & Hset).
  exists ic, v. split; [reflexivity|]. split; [exact Hv|].
  split; [exact Hslice|]. split; [|exact Hset].
  vm_compute in Hic. injection Hic as <-. discriminate.
Defined.

Lemma continuous_kernels_never_reestimated_witness :
  exists out,
    demo_estimate_parameters 2 = Some (Ok out)
    /\ continuous_state_transition_ (out_self out)
       = continuous_state_transition_ demo_classifier.
Proof.
  destruct (demo_estimate_parameters 2) as [[out|e]|] eqn:Hrun;
    [| vm_compute in Hrun; discriminate | vm_compute in Hrun; discriminate].
  exists out. split; [reflexivity|].
  destruct (continuous_kernels_never_reestimated unit unit (fun _ => 2)
              demo_fit demo_estimate_likelihood demo_core demo_classifier tt
              demo_args (1 # 10000) 2 true true true out Hrun)
    as [(self0 & Hfit & _ & Hct) _].
  injection Hfit as <-. exact Hct.
Defined.

(** * Further properties of the fit methods *)

(** [fit_environments] returns only for a non-empty sequence of
    environments and, when labels are given, one label per position; the
    width it records bounds the bin count of every fitted environment and
    is the bin count of one of them. *)
Theorem fit_environments_max_pos_bins (Position : Type)
    (fit_place_grid : Environment -> list Position -> bool -> result Environment)
    envs infer position labels envs' m :
  fit_environments fit_place_grid envs infer position labels = Ok (envs', m) ->
  envs <> []
  /\ length envs' = length envs
  /\ (forall l, labels = Some l -> length l = length position)
  /\ Forall (fun e => n_place_bins e <= m) envs'
  /\ exists e, In e envs' /\ n_place_bins e = m.
Proof.
  unfold fit_environments. intros H.
  inv_bind_as H fitted Hfit. inv_bind_as H m' Hm. injection H as <- <-.
  pose proof (mapM_length _ _ _ Hfit) as Hlen.
  destruct (max_pos_bins_spec _ _ Hm) as [Hb Ha].
  assert (Hne : envs <> []).
  { intros ->. simpl in Hfit. inv_ok Hfit. discriminate. }
  repeat split; auto.
  intros l ->. destruct envs as [|e es]; [contradiction|].
  simpl in Hfit. inv_bind_as Hfit e' He'. inv_bind_as He' p Hp.
  unfold np_select, is_environment in Hp. rewrite length_map in Hp.
  destruct (Nat.eqb_spec (length position) (length l)); [auto|discriminate].
Qed.

Lemma fit_environments_max_pos_bins_witness :
  exists envs',
    fit_environments demo_fit_place_grid [demo_env; demo_env_arm] true
      [1%Q; 2%Q; 3%Q] (Some ["track"; "arm"; "track"]%string)
    = Ok (envs', 2)
    /\ Forall (fun e => n_place_bins e <= 2) envs'.
Proof.
  eexists. split; [vm_compute; reflexivity|].
  refine (proj1 (proj2 (proj2 (proj2
            (fit_environments_max_pos_bins Q demo_fit_place_grid
               [demo_env; demo_env_arm] true [1%Q; 2%Q; 3%Q]
               (Some ["track"; "arm"; "track"]%string) _ 2 _))))).
  vm_compute. reflexivity.
Defined.

Lemma assign_each_ok {A B} (P : A -> Prop) (Q : B -> Prop)
    (f : A -> B -> result A) tgt srcs :
  (forall t s, P t -> Q s -> exists o, f t s = Ok o) ->
  Forall P tgt -> Forall Q srcs -> length srcs <= length tgt ->
  exists out, assign_each f tgt srcs = Ok out.
Proof.
  intros Hf. revert tgt; induction srcs as [|s ss IH];
    intros tgt HP HQ Hl; simpl.
  - eauto.
  - destruct tgt as [|t ts]; [simpl in Hl; lia|].
    inversion HP; inversion HQ; subst.
    destruct (Hf t s) as [o Ho]; auto. rewrite Ho. cbn [bind].
    destruct (IH ts) as [out Hout]; auto; [simpl in Hl; lia|].
    rewrite Hout. cbn [bind]. eauto.
Qed.

Lemma assign_prefix_fits {A} (row src : list A) :
  length src <= length row -> exists out, assign_prefix row src = Ok out.
Proof.
  intros H. unfold assign_prefix, broadcast_axis.
  rewrite Nat.min_l by assumption. rewrite Nat.eqb_refl. cbn [bind]. eauto.
Qed.

(** [fit_initial_conditions] returns whenever there is at most one vector
    per state and no vector is wider than [max_pos_bins_]. *)
Theorem fit_initial_conditions_succeeds obs max ics :
  length ics <= length obs ->
  Forall (fun ic => length ic <= max) ics ->
  exists ic_, fit_initial_conditions obs max ics = Ok ic_.
Proof.
  intros Hn Hw. unfold fit_initial_conditions.
  apply (assign_each_ok (fun row => length row = max)
           (fun ic => length ic <= max)); auto.
  - intros t s Ht Hs. apply assign_prefix_fits. lia.
  - apply (zeros2_shape (length obs) max).
  - now rewrite (proj1 (zeros2_shape (length obs) max)).
Qed.

Lemma fit_initial_conditions_succeeds_witness :
  exists ic_,
    fit_initial_conditions demo_obs2 5
      [repeat (Fin (1 # 8)) 5; repeat (Fin (1 # 8)) 3] = Ok ic_.
Proof.
  apply fit_initial_conditions_succeeds.
  - simpl. lia.
  - repeat constructor; simpl; lia.
Defined.

Lemma assign_each_overflow {A B} (P : A -> Prop) (Q : B -> Prop)
    (f : A -> B -> result A) tgt srcs :
  (forall t s, P t -> Q s -> exists o, f t s = Ok o) ->
  Forall P tgt -> Forall Q srcs -> length tgt < length srcs ->
  assign_each f tgt srcs = Raise IndexError.
Proof.
  intros Hf. revert tgt; induction srcs as [|s ss IH];
    intros tgt HP HQ Hl; simpl in *.
  - lia.
  - destruct tgt as [|t ts]; [reflexivity|].
    inversion HP; inversion HQ; subst.
    destruct (Hf t s) as [o Ho]; auto. rewrite Ho. cbn [bind].
    rewrite IH; auto. simpl in Hl. lia.
Qed.

(** With more vectors than observation models, [fit_initial_conditions]
    raises [IndexError] at the first vector that has no state (the vectors
    themselves fitting the width). *)
Theorem fit_initial_conditions_too_many obs max ics :
  length obs < length ics ->
  Forall (fun ic => length ic <= max) ics ->
  fit_initial_conditions obs max ics = Raise IndexError.
Proof.
  intros Hn Hw. unfold fit_initial_conditions.
  apply (assign_each_overflow (fun row => length row = max)
           (fun ic => length ic <= max)); auto.
  - intros t s Ht Hs. apply assign_prefix_fits. lia.
  - apply (zeros2_shape (length obs) max).
  - now rewrite (proj1 (zeros2_shape (length obs) max)).
Qed.

Lemma fit_initial_conditions_too_many_witness :
  fit_initial_conditions demo_obs2 5
    [repeat (Fin (1 # 8)) 5; repeat (Fin (1 # 8)) 3; [Fin 1]]
  = Raise IndexError.
Proof.
  apply fit_initial_conditions_too_many.
  - simpl. lia.
  - repeat constructor; simpl; lia.
Defined.

Lemma assign_prefix_too_wide {A} (row src : list A) :
  length row < length src -> length src <> 1 ->
  assign_prefix row src = Raise ValueError.
Proof.
  intros Hw H1. unfold assign_prefix, broadcast_axis.
  rewrite Nat.min_r by lia.
  destruct (Nat.eqb_spec (length src) (length row)); [lia|].
  destruct src as [|x [|y src]]; simpl in *; try reflexivity. lia.
Qed.

Lemma assign_each_first_error {A B} (P : A -> Prop) (Q : B -> Prop)
    (f : A -> B -> result A) tgt pre s post e :
  (forall t s, P t -> Q s -> exists o, f t s = Ok o) ->
  (forall t, P t -> f t s = Raise e) ->
  Forall P tgt -> Forall Q pre -> length pre < length tgt ->
  assign_each f tgt (pre ++ s :: post) = Raise e.
Proof.
  intros Hf Hs. revert tgt; induction pre as [|p pre IH];
    intros tgt HP HQ Hl; simpl in *.
  - destruct tgt as [|t ts]; [simpl in Hl; lia|].
    inversion HP; subst. now rewrite Hs.
  - destruct tgt as [|t ts]; [simpl in Hl; lia|].
    inversion HP; inversion HQ; subst.
    destruct (Hf t p) as [o Ho]; auto. rewrite Ho. cbn [bind].
    rewrite IH; auto. simpl in Hl. lia.
Qed.

(** A vector wider than [max_pos_bins_] (and not of length one, which
    numpy broadcasts) makes [fit_initial_conditions] raise [ValueError],
    the vectors before it fitting. *)
Theorem fit_initial_conditions_too_wide obs max pre ic post :
  length pre < length obs ->
  Forall (fun v => length v <= max) pre ->
  max < length ic -> length ic <> 1 ->
  fit_initial_conditions obs max (pre ++ ic :: post) = Raise ValueError.
Proof.
  intros Hn Hpre Hw H1. unfold fit_initial_conditions.
  apply (assign_each_first_error (fun row => length row = max)
           (fun v => length v <= max)); auto.
  - intros t s Ht Hs. apply assign_prefix_fits. lia.
  - intros t Ht. apply assign_prefix_too_wide; lia.
  - apply (zeros2_shape (length obs) max).
  - now rewrite (proj1 (zeros2_shape (length obs) max)).
Qed.

Lemma fit_initial_conditions_too_wide_witness :
  fit_initial_conditions demo_obs2 3
    ([repeat (Fin (1 # 8)) 3] ++ repeat (Fin (1 # 8)) 5 :: [])
  = Raise ValueError.
Proof.
  apply fit_initial_conditions_too_wide; simpl; try lia.
  repeat constructor; simpl; lia.
Defined.

Lemma assign_block_fits (tgt st : mat) (n m : nat) :
  has_shape2 tgt n m ->
  length st <= n -> Forall (fun r => length r <= m) st ->
  exists out, assign_block tgt st = Ok out.
Proof.
  intros [Hn Hm] Hl Hr. unfold assign_block.
  rewrite Nat.min_l by lia. unfold broadcast_axis.
  rewrite Nat.eqb_refl. cbn [bind].
  destruct (assign_each_ok (fun r => length r = m) (fun r => length r <= m)
              assign_prefix (firstn (length st) tgt) st) as [top Htop]; auto.
  - intros t s Ht Hs. apply assign_prefix_fits. lia.
  - now apply Forall_firstn'.
  - rewrite length_firstn. lia.
  - rewrite Htop. cbn [bind]. eauto.
Qed.

(** [fit_continuous_state_transition] returns whenever no row of kernels is
    longer than the number of rows and no kernel exceeds
    [max_pos_bins_] on either axis. *)
Theorem fit_continuous_state_transition_succeeds max kernels :
  Forall (fun row =>
            length row <= length kernels
            /\ Forall (fun st => length st <= max
                                 /\ Forall (fun r => length r <= max) st)
                 row) kernels ->
  exists ct_, fit_continuous_state_transition max kernels = Ok ct_.
Proof.
  intros H. unfold fit_continuous_state_transition.
  destruct (zeros4_shape (length kernels) max) as [Hn Hs].
  apply (assign_each_ok
           (fun b => length b = length kernels
                     /\ Forall (fun k => has_shape2 k max max) b)
           (fun row =>
              length row <= length kernels
              /\ Forall (fun st => length st <= max
                                   /\ Forall (fun r => length r <= max) st)
                   row)).
  - intros t s [Ht1 Ht2] [Hs1 Hs2].
    apply (assign_each_ok (fun k => has_shape2 k max max)
             (fun st => length st <= max
                        /\ Forall (fun r => length r <= max) st)); auto.
    + intros t' s' Ht' [A B]. eapply assign_block_fits; eauto.
    + lia.
  - exact Hs.
  - exact H.
  - exact (Nat.eq_le_incl _ _ (eq_sym Hn)).
Qed.

Lemma fit_continuous_state_transition_succeeds_witness :
  exists ct_,
    fit_continuous_state_transition 5
      [[demo_kernel; demo_kernel]; [demo_kernel_arm; demo_kernel_arm]]
    = Ok ct_.
Proof.
  apply fit_continuous_state_transition_succeeds.
  repeat (apply Forall_cons || apply Forall_nil || split); simpl; lia.
Defined.

(** * Further properties of [_get_results] *)

Lemma broadcast_axis_inv {A} (n : nat) (l v : list A) :
  broadcast_axis n l = Ok v -> length l = n \/ length l = 1.
Proof.
  unfold broadcast_axis. destruct (Nat.eqb_spec (length l) n); [auto|].
  destruct l as [|x [|y l]]; intros H; try discriminate. now right.
Qed.

Lemma fill_likelihood_requires core d likelihood n_time n_states obs :
  forall state_ind buffer out,
    fill_likelihood core d likelihood n_time n_states state_ind obs buffer
    = Ok out ->
    (obs <> [] -> state_ind + length obs <= n_states)
    /\ Forall (fun o =>
         exists l, dict_get (likelihood_name o) likelihood = Ok l
                   /\ (length l = n_time \/ length l = 1)) obs.
Proof.
  induction obs as [|o rest IH]; intros i buffer out H; simpl in H.
  - split; [congruence | constructor].
  - inv_bind_as H l Hl. inv_bind_as H buffer' Hb.
    destruct (IH _ _ _ H) as [Hn Hall].
    unfold assign_state in Hb.
    destruct (Nat.leb_spec n_states i) as [|Hi]; [discriminate|].
    inv_bind_as Hb rows Hrows. apply broadcast_axis_inv in Hrows.
    split.
    + intros _. simpl. destruct rest as [|o' rest'].
      * simpl. lia.
      * assert (o' :: rest' <> []) by discriminate.
        specialize (Hn H0). simpl in *. lia.
    + constructor; [|exact Hall]. exists l. split; assumption.
Qed.

(** What a call that returns tells about its inputs: there is at least one
    environment, no more observation models than rows of the discrete
    transition, and every observation model has a likelihood array under
    its (environment name, encoding group) key whose time extent is
    [n_time] or 1. *)
Theorem get_results_requires core self likelihood n_time time
    is_compute_acausal use_gpu state_names ds :
  _get_results core self likelihood n_time time is_compute_acausal use_gpu
    state_names = Ok ds ->
  environments self <> []
  /\ length (observation_models self)
     <= length (discrete_state_transition_ self)
  /\ Forall (fun o =>
       exists l, dict_get (likelihood_name o) likelihood = Ok l
                 /\ (length l = n_time \/ length l = 1))
       (observation_models self).
Proof.
  intros H. unfold _get_results in H.
  inv_bind_as H lik Hlik.
  unfold results_likelihood in Hlik. inv_bind_as Hlik raw Hraw.
  destruct (fill_likelihood_requires _ _ _ _ _ _ _ _ _ Hraw) as [Hn Hall].
  split; [|split; [|exact Hall]].
  - intros E. rewrite E in H. simpl in H.
    inv_bind_as H pd Hpd. destruct pd as [causal dll].
    inv_bind_as H ac Hac.
    unfold _convert_results_to_xarray_mutienvironment in H.
    rewrite E in H. discriminate.
  - destruct (observation_models self) as [|o rest] eqn:E;
      [simpl; lia|].
    assert (Hne : o :: rest <> []) by discriminate.
    specialize (Hn Hne). simpl in *. lia.
Qed.

Lemma get_results_requires_witness :
  length (observation_models demo_classifier2)
  <= length (discrete_state_transition_ demo_classifier2)
  /\ Forall (fun o =>
       exists l, dict_get (likelihood_name o) demo_likelihood2 = Ok l
                 /\ (length l = 2 \/ length l = 1))
       (observation_models demo_classifier2).
Proof.
  destruct (_get_results demo_core demo_classifier2 demo_likelihood2 2 None
              true false None) as [ds|e] eqn:H;
    [|vm_compute in H; discriminate].
  exact (proj2 (get_results_requires _ _ _ _ _ _ _ _ _ H)).
Defined.

Lemma assign_row_other (i j : nat) (slab out : mat) (src : vec) :
  assign_row i slab src = Ok out -> j <> i ->
  nth_error out j = nth_error slab j.
Proof.
  revert i j out; induction slab as [|r rs IH]; intros i j out H Hj.
  - destruct i; discriminate.
  - destruct i as [|i]; simpl in H.
    + inv_bind_as H r' Hr'. inv_ok H. destruct j; [lia | reflexivity].
    + inv_bind_as H rs' Hrs'. inv_ok H. destruct j as [|j]; [reflexivity|].
      simpl. apply (IH i j rs' Hrs'). lia.
Qed.

Lemma assign_row_at (i : nat) (slab out : mat) (src : vec) :
  assign_row i slab src = Ok out ->
  exists r r', nth_error slab i = Some r
               /\ assign_prefix r src = Ok r'
               /\ nth_error out i = Some r'.
Proof.
  revert i out; induction slab as [|r rs IH]; intros i out H.
  - destruct i; discriminate.
  - destruct i as [|i]; simpl in H.
    + inv_bind_as H r' Hr'. inv_ok H. simpl. eauto.
    + inv_bind_as H rs' Hrs'. inv_ok H. simpl. eauto.
Qed.

(** [assign_state] leaves the rows of the other states as they were. *)
Lemma assign_state_other core d n_time n_states i buffer l out t s b :
  assign_state core d n_time n_states i buffer l = Ok out ->
  s <> i ->
  cell3 out t s b = cell3 buffer t s b.
Proof.
  unfold assign_state. intros H Hs.
  destruct (n_states <=? i); [discriminate|].
  inv_bind_as H rows Hrows. unfold cell3, cell2.
  destruct (nth_error rows t) as [src|] eqn:Et.
  - destruct (assign_each_hit _ _ _ _ _ _ H Et) as (slab & o & Hb & Ho & Ha).
    rewrite Hb, Ho. now rewrite (assign_row_other _ _ _ _ _ Ha Hs).
  - now rewrite (assign_each_miss _ _ _ _ _ H Et).
Qed.

(** On the row of its own state, [assign_state] writes the likelihood where
    the array has a cell and keeps the old cell elsewhere. *)
Lemma assign_state_at core d n_time n_states i buffer (l : mat) out t b y :
  assign_state core d n_time n_states i buffer l = Ok out ->
  length l = n_time -> t < n_time ->
  cell3 buffer t i b = Some y ->
  cell3 out t i b = Some (match cell2 l t b with
                          | Some x => astype core d x
                          | None => y
                          end).
Proof.
  unfold assign_state. intros H Hl Ht Hy.
  destruct (n_states <=? i); [discriminate|].
  inv_bind_as H rows Hrows.
  unfold broadcast_axis in Hrows. rewrite Hl, Nat.eqb_refl in Hrows.
  inv_ok Hrows.
  unfold cell3, cell2, mat, vec in *.
  destruct (nth_error rows t) as [src|] eqn:Et.
  2:{ apply nth_error_None in Et. lia. }
  destruct (assign_each_hit _ _ _ _ _ _ H Et) as (slab & o & Hb & Ho & Ha).
  rewrite Hb in Hy. rewrite Ho.
  destruct (assign_row_at _ _ _ _ Ha) as (r & r' & Hr & Hp & Hr').
  rewrite Hr in Hy. rewrite Hr'.
  assert (Hby : b < length r) by (apply nth_error_Some; congruence).
  destruct (nth_error src b) as [x|] eqn:Ex.
  - rewrite (assign_prefix_inside _ _ _ _ Hp); auto.
    + unfold astype1. now rewrite nth_error_map, Ex.
    + unfold astype1. rewrite length_map. apply nth_error_Some. congruence.
  - rewrite (assign_prefix_outside _ _ _ _ Hp); auto.
    unfold astype1. rewrite length_map. now apply nth_error_None.
Qed.

Lemma fill_likelihood_cells core d likelihood n_time n_states obs :
  forall i buffer out,
    fill_likelihood core d likelihood n_time n_states i obs buffer = Ok out ->
    forall t s b y,
      t < n_time -> cell3 buffer t s b = Some y ->
      (s < i \/ i + length obs <= s -> cell3 out t s b = Some y)
      /\ (forall k o l,
            s = i + k -> nth_error obs k = Some o ->
            dict_get (likelihood_name o) likelihood = Ok l ->
            length l = n_time ->
            cell3 out t s b = Some (match cell2 l t b with
                                    | Some x => astype core d x
                                    | None => y
                                    end)).
Proof.
  induction obs as [|o rest IH]; intros i buffer out H t s b y Ht Hy;
    simpl in H.
  - inv_ok H. split; [auto|]. intros k o l _ Hk. destruct k; discriminate.
  - inv_bind_as H l0 Hl0. inv_bind_as H buffer' Hb.
    split.
    + intros Hs.
      assert (Hy' : cell3 buffer' t s b = Some y).
      { rewrite (assign_state_other _ _ _ _ _ _ _ _ t s b Hb); [auto|].
        simpl in Hs. lia. }
      apply (proj1 (IH _ _ _ H t s b y Ht Hy')). simpl in Hs. lia.
    + intros k o' l -> Hk Hget Hlen. destruct k as [|k]; simpl in Hk.
      * injection Hk as ->. unfold likelihood_name in Hget.
        assert (El : l0 = l) by congruence. subst l0. rewrite Nat.add_0_r.
        rewrite Nat.add_0_r in Hy.
        pose proof (assign_state_at _ _ _ _ _ _ _ _ t b y Hb Hlen Ht Hy)
          as Hy'.
        apply (proj1 (IH _ _ _ H t i b _ Ht Hy')). left. lia.
      * assert (Hy' : cell3 buffer' t (i + S k) b = Some y).
        { rewrite (assign_state_other _ _ _ _ _ _ _ _ t (i + S k) b Hb);
            [auto | lia]. }
        apply (proj2 (IH _ _ _ H t (i + S k) b y Ht Hy') k o' l);
          auto. lia.
Qed.

Lemma full3_cell (t s b n_time n_states n_bins : nat) (x : float) :
  t < n_time -> s < n_states -> b < n_bins ->
  cell3 (full3 n_time n_states n_bins x) t s b = Some x.
Proof.
  intros Ht Hs Hb. unfold cell3, cell2, full3.
  now rewrite !nth_error_repeat by assumption.
Qed.

(** The likelihood buffer before scaling: the row of a state holds its
    likelihood array (cast to the working type) where that array has a
    cell, and NaN on the padded bins; the rows of states without an
    observation model are NaN throughout. *)
Theorem likelihood_buffer_padding core d likelihood n_time n_states n_bins
    obs raw :
  fill_likelihood core d likelihood n_time n_states 0 obs
    (full3 n_time n_states n_bins NaN) = Ok raw ->
  (forall s o l t b,
      nth_error obs s = Some o ->
      dict_get (likelihood_name o) likelihood = Ok l ->
      length l = n_time -> t < n_time -> s < n_states -> b < n_bins ->
      cell3 raw t s b = Some (match cell2 l t b with
                              | Some x => astype core d x
                              | None => NaN
                              end))
  /\ (forall s t b,
        length obs <= s -> t < n_time -> s < n_states -> b < n_bins ->
        cell3 raw t s b = Some NaN).
Proof.
  intros H. split.
  - intros s o l t b Ho Hl Hlen Ht Hs Hb.
    apply (proj2 (fill_likelihood_cells _ _ _ _ _ _ _ _ _ H t s b NaN Ht
                    (full3_cell t s b _ _ _ NaN Ht Hs Hb)) s o l); auto.
  - intros s t b Hs Ht Hs' Hb.
    apply (proj1 (fill_likelihood_cells _ _ _ _ _ _ _ _ _ H t s b NaN Ht
                    (full3_cell t s b _ _ _ NaN Ht Hs' Hb))).
    right. simpl. exact Hs.
Qed.

Lemma likelihood_buffer_padding_witness :
  exists raw,
    fill_likelihood demo_core float64 demo_likelihood2 2 2 0 demo_obs2
      (full3 2 2 5 NaN) = Ok raw
    /\ cell3 raw 0 1 2 = Some (Fin 8)
    /\ cell3 raw 0 1 4 = Some NaN.
Proof.
  destruct (fill_likelihood demo_core float64 demo_likelihood2 2 2 0
              demo_obs2 (full3 2 2 5 NaN)) as [raw|e] eqn:H;
    [|vm_compute in H; discriminate].
  exists raw. split; [reflexivity|].
  destruct (likelihood_buffer_padding _ _ _ _ _ _ _ _ H) as [Hcell _].
  split.
  - apply (Hcell 1 (ObservationModel_default "arm")
             [[Fin 2; NaN; Fin 8]; [Fin 1; NaN; Fin 1]] 0 2);
      try reflexivity; lia.
  - apply (Hcell 1 (ObservationModel_default "arm")
             [[Fin 2; NaN; Fin 8]; [Fin 1; NaN; Fin 1]] 0 4);
      try reflexivity; lia.
Defined.

(** ** Reading back the interior of a scattered assignment *)

Lemma compress_scatter (flags : list bool) (vals : vec) :
  length vals = count_true flags ->
  compress flags (scatter flags vals) = vals.
Proof.
  unfold count_true. revert vals; induction flags as [|f fs IH];
    intros vals H; simpl in *.
  - destruct vals; [reflexivity | discriminate].
  - destruct f; simpl in *.
    + destruct vals as [|v vs]; [discriminate|]. simpl. f_equal.
      apply IH. now injection H.
    + now apply IH.
Qed.

Lemma mapM_id {A B} (f : A -> result B) (g : A -> B) (l : list A) :
  Forall (fun x => f x = Ok (g x)) l -> mapM f l = Ok (map g l).
Proof.
  induction 1 as [|x l Hx _ IH]; simpl; [reflexivity|].
  now rewrite Hx, IH.
Qed.

Lemma mapM_map {A B C} (f : B -> result C) (g : A -> B) (h : A -> C)
    (l : list A) :
  Forall (fun x => f (g x) = Ok (h x)) l ->
  mapM f (map g l) = Ok (map h l).
Proof.
  induction 1 as [|x l Hx _ IH]; simpl; [reflexivity|].
  now rewrite Hx, IH.
Qed.

Lemma broadcast3_exact (t s k : nat) (v : arr3) :
  has_shape3 v t s k -> broadcast3 t s k v = Ok v.
Proof.
  intros [Ht Hs]. unfold broadcast3, broadcast_axis.
  rewrite Ht, Nat.eqb_refl. cbn [bind].
  rewrite <- (map_id v) at 2. apply mapM_id.
  eapply Forall_impl; [|exact Hs]. cbn beta. intros slab [Hn Hk].
  rewrite Hn, Nat.eqb_refl. cbn [bind].
  rewrite <- (map_id slab) at 2. apply mapM_id.
  eapply Forall_impl; [|exact Hk]. cbn beta. intros row Hr.
  now rewrite Hr, Nat.eqb_refl.
Qed.

(** When the recursion returns an array of the extents (n_time, n_states,
    number of interior bins), the boolean assignment into the NaN-filled
    result succeeds, and reading the interior bins back (as is done to feed
    the acausal recursion) gives exactly that array, cast to the working
    type. *)
Theorem interior_read_back core d n_time n_states flags (v : arr3) :
  has_shape3 v n_time n_states (count_true flags) ->
  exists out,
    assign_bins core d n_time n_states flags v = Ok out
    /\ select_bins flags out = Ok (astype3 core d v).
Proof.
  intros Hv. unfold assign_bins. rewrite (broadcast3_exact _ _ _ _ Hv).
  cbn [bind]. eexists. split; [reflexivity|].
  unfold select_bins, astype3, astype2.
  destruct Hv as [_ Hs].
  apply mapM_map.
  eapply Forall_impl; [|exact Hs]. cbn beta. intros slab [_ Hk].
  apply mapM_map.
  eapply Forall_impl; [|exact Hk]. cbn beta. intros row Hr.
  unfold np_select. rewrite scatter_length, Nat.eqb_refl.
  rewrite compress_scatter; [reflexivity|].
  unfold astype1. now rewrite length_map.
Qed.

Lemma interior_read_back_witness :
  exists out,
    assign_bins demo_core float64 1 1 [true; false; true]
      [[[Fin 1; Fin 2]]] = Ok out
    /\ select_bins [true; false; true] out
       = Ok (astype3 demo_core float64 [[[Fin 1; Fin 2]]]).
Proof.
  apply interior_read_back.
  repeat (split || apply Forall_cons || apply Forall_nil).
Defined.

(** ** The returned dataset *)

Lemma labelled_dims n_time n_states a dv :
  labelled n_time n_states a = Ok dv -> var_dims dv n_time n_states.
Proof.
  unfold labelled, check_dims.
  destruct (length a =? n_time) eqn:Et; simpl; [|discriminate].
  destruct (forallb _ a) eqn:Es; intros H; [|discriminate]. inv_ok H.
  simpl. split; [now apply Nat.eqb_eq|].
  rewrite forallb_forall in Es. apply Forall_forall. intros slab Hin.
  apply Nat.eqb_eq. now apply Es.
Qed.

Lemma reshape_F_dims a n_time n_states n_x n_y r :
  reshape_F a n_time n_states n_x n_y = Ok r ->
  var_dims (Var2 r) n_time n_states.
Proof.
  unfold reshape_F. destruct (_ =? _); intros H; [|discriminate].
  inv_ok H. simpl. split.
  - now rewrite length_map, length_seq.
  - apply Forall_map. apply Forall_forall. intros t _.
    now rewrite length_map, length_seq.
Qed.

Lemma on_option_dims {A} (f : A -> result data_var) n_time n_states o r :
  (forall a dv, f a = Ok dv -> var_dims dv n_time n_states) ->
  on_option f o = Ok r ->
  (o = None <-> r = None)
  /\ (forall v, r = Some v -> var_dims v n_time n_states).
Proof.
  intros Hf H. apply on_option_ok in H.
  destruct H as [[-> ->]|(a & b & -> & -> & Hb)].
  - split; [tauto | discriminate].
  - split; [split; discriminate|]. intros v E. inv_ok E. eauto.
Qed.

Lemma converted_dims env n_time n_states value dv :
  converted env n_time n_states value dv -> var_dims dv n_time n_states.
Proof.
  intros (m & _ & H). destruct (1 <? n_position_dims env).
  - destruct H as (r & Hr & ->). eapply reshape_F_dims; eauto.
  - destruct H as [Hc ->]. apply (labelled_dims n_time n_states m).
    unfold labelled. now rewrite Hc.
Qed.

Lemma convert_dataset self results time names dll ds :
  _convert_results_to_xarray self results time names dll = Ok ds
  \/ _convert_results_to_xarray_mutienvironment self results time names dll
     = Ok ds ->
  ds_time ds = time
  /\ data_log_likelihood ds = dll
  /\ (r_acausal_posterior results = None <-> ds_acausal_posterior ds = None)
  /\ var_dims (ds_likelihood ds) (length time) (ds_n_state_names ds)
  /\ var_dims (ds_causal_posterior ds) (length time) (ds_n_state_names ds)
  /\ (forall v, ds_acausal_posterior ds = Some v ->
        var_dims v (length time) (ds_n_state_names ds)).
Proof.
  intros [H|H].
  - destruct (environments self) as [|env0 rest] eqn:Henv.
    { unfold _convert_results_to_xarray in H. now rewrite Henv in H. }
    destruct (convert_single_inv _ _ _ _ _ _ _ _ Henv H)
      as (diag & sc & _ & _ & _ & Ht & En & Hd & Hl & Hc & Ha).
    rewrite En. repeat split; eauto using converted_dims.
    + intros E. rewrite E in Ha.
      destruct (ds_acausal_posterior ds); [contradiction|reflexivity].
    + intros E. rewrite E in Ha.
      destruct (r_acausal_posterior results); [contradiction|reflexivity].
    + intros v Ev. rewrite Ev in Ha.
      destruct (r_acausal_posterior results); [|contradiction].
      eapply converted_dims; eauto.
  - unfold _convert_results_to_xarray_mutienvironment in H.
    destruct (environments self) as [|env0 rest]; [discriminate|].
    inv_bind_as H vl Hvl. inv_bind_as H vc Hvc. inv_bind_as H va Hva.
    injection H as <-. simpl.
    destruct (on_option_dims _ _ _ _ _ (labelled_dims _ _) Hva)
      as [Hnone Hsome].
    repeat split; eauto using labelled_dims; try tauto.
Qed.

Lemma get_results_convert core self likelihood n_time time
    is_compute_acausal use_gpu state_names ds :
  _get_results core self likelihood n_time time is_compute_acausal use_gpu
    state_names = Ok ds ->
  exists results dll,
    (r_acausal_posterior results = None <-> is_compute_acausal = false)
    /\ (_convert_results_to_xarray self results
          match time with None => np_arange n_time | Some t => t end
          state_names dll = Ok ds
        \/ _convert_results_to_xarray_mutienvironment self results
             match time with None => np_arange n_time | Some t => t end
             state_names dll = Ok ds).
Proof.
  intros H. unfold _get_results in H. inv_bind_as H lik Hlik.
  destruct (length (environments self) =? 1).
  - destruct (environments self) as [|env0 rest]; [discriminate|].
    inv_bind_as H ic Hic. inv_bind_as H ct Hct. inv_bind_as H lk Hlk.
    inv_bind_as H pd Hpd. destruct pd as [posterior dll].
    inv_bind_as H causal Hcausal. inv_bind_as H acausal Hacausal.
    exists (mkResults lik causal acausal), dll. split; [|now left].
    simpl. destruct is_compute_acausal.
    + inv_bind_as Hacausal cp Hcp. inv_bind_as Hacausal ct' Hct'.
      inv_bind_as Hacausal sm Hsm. inv_bind_as Hacausal a Ha.
      injection Hacausal as <-. split; discriminate.
    + injection Hacausal as <-. tauto.
  - inv_bind_as H pd Hpd. destruct pd as [causal dll].
    inv_bind_as H acausal Hacausal.
    exists (mkResults lik causal acausal), dll. split; [|now right].
    simpl. destruct is_compute_acausal.
    + inv_bind_as Hacausal a Ha. injection Hacausal as <-.
      split; discriminate.
    + injection Hacausal as <-. tauto.
Qed.

(** What a call that returns tells about the labels, for one environment
    with a one-dimensional layout and at least one time step: the time
    coordinate is the [time] argument or [arange(n_time)] and has [n_time]
    labels; the state names, given or default, are as many as the rows of
    the discrete transition (the default names being the diagonal of
    [continuous_transition_types] when the observation models are all the
    same, else one per pair of the models zipped with the diagonal); and
    there is an acausal posterior exactly when [is_compute_acausal] is
    set.  With other labels xarray refuses to build the dataset. *)
Theorem get_results_dataset core self env likelihood n_time time
    is_compute_acausal use_gpu state_names ds :
  environments self = [env] ->
  n_position_dims env <= 1 ->
  0 < n_time ->
  _get_results core self likelihood n_time time is_compute_acausal use_gpu
    state_names = Ok ds ->
  let n_states := length (discrete_state_transition_ self) in
  ds_time ds = match time with None => np_arange n_time | Some t => t end
  /\ length (ds_time ds) = n_time
  /\ ds_n_state_names ds = n_states
  /\ match state_names with
     | Some names => length names = n_states
     | None =>
         exists diag n_unique,
           diag_transition_names (continuous_transition_types self) = Ok diag
           /\ len_unique (observation_models self) = Ok n_unique
           /\ n_states
              = if n_unique =? 1 then diag_len diag
                else Nat.min (length (observation_models self))
                       (diag_len diag)
     end
  /\ (is_compute_acausal = false <-> ds_acausal_posterior ds = None).
Proof.
  intros Henv Hdims Hpos H n_states.
  destruct (get_results_convert _ _ _ _ _ _ _ _ _ H)
    as (results & dll & Hflag & Hconv).
  destruct (convert_dataset _ _ _ _ _ _ Hconv) as (Ht & _ & Hnone & _).
  unfold _get_results in H. rewrite Henv in H. simpl in H.
  inv_bind_as H lik Hlik. inv_bind_as H ic Hic. inv_bind_as H ct Hct.
  inv_bind_as H lk Hlk. inv_bind_as H pd Hpd. destruct pd as [posterior dll'].
  inv_bind_as H causal Hcausal. inv_bind_as H acausal Hacausal.
  destruct (assign_bins_extents _ _ _ _ _ _ _ Hcausal) as [Hcl Hcs].
  destruct (convert_single_inv _ _ _ _ _ _ _ _ Henv H)
    as (diag & sc & Hdiag & Hsc & Haxis & Ht' & En & _ & _ & Hc & _).
  simpl in Hc. destruct Hc as (mc & Hmc & Hrest).
  destruct (Nat.ltb_spec 1 (n_position_dims env)); [lia|].
  destruct Hrest as [Hchk _].
  destruct (mask_shape _ _ _ _ _ Hmc Hcl Hcs) as [Hml Hms].
  unfold check_dims in Hchk. apply andb_prop in Hchk.
  destruct Hchk as [Hlen Hall]. apply Nat.eqb_eq in Hlen.
  assert (Etime : length (ds_time ds) = n_time) by (rewrite Ht'; lia).
  assert (Estates : n_labels sc = n_states).
  { destruct mc as [|slab mc']; [simpl in Hml; lia|].
    simpl in Hall. apply andb_prop in Hall. destruct Hall as [Hs _].
    apply Nat.eqb_eq in Hs.
    inversion Hms as [|? ? [HS _] _]; subst. fold n_states in HS.
    unfold mat, vec in *. lia. }
  split; [exact Ht|]. split; [exact Etime|].
  split; [now rewrite En|]. split.
  - destruct state_names as [names|].
    + injection Hsc as <-. exact Estates.
    + unfold default_state_names in Hsc. inv_bind_as Hsc u Hu.
      exists diag, u. split; [exact Hdiag|]. split; [exact Hu|].
      rewrite <- Estates.
      destruct (u =? 1).
      * destruct diag; injection Hsc as <-; reflexivity.
      * injection Hsc as <-. reflexivity.
  - rewrite <- Hnone. symmetry. exact Hflag.
Qed.

Lemma get_results_dataset_witness :
  exists ds,
    _get_results demo_core demo_classifier demo_likelihood 2 None false
      false None = Ok ds
    /\ length (ds_time ds) = 2
    /\ ds_n_state_names ds = 2
    /\ ds_acausal_posterior ds = None.
Proof.
  destruct (_get_results demo_core demo_classifier demo_likelihood 2 None
              false false None) as [ds|e] eqn:H;
    [|vm_compute in H; discriminate].
  exists ds. split; [reflexivity|].
  destruct (get_results_dataset demo_core demo_classifier demo_env
              demo_likelihood 2 None false false None ds eq_refl
              ltac:(simpl; lia) ltac:(lia) H)
    as (_ & Ht & En & _ & Hflag).
  split; [exact Ht|]. split; [exact En|]. now apply Hflag.
Defined.

(** ** The two-dimensional layout *)

(** The Fortran-order reshape of a (time, state, bin) array whose time and
    state extents are those of the labels: the result has a cell for every
    (t, s, x, y) in range, and it is the cell of the flat bin
    [x + n_x * y]. *)
Theorem reshape_F_order (a : arr3) (n_x n_y : nat) (r : arr4) :
  reshape_F a (length a) (length (hd [] a)) n_x n_y = Ok r ->
  forall t s x y,
    t < length a -> s < length (hd [] a) -> x < n_x -> y < n_y ->
    cell4 r t s x y = Some (get3 a t s (x + n_x * y)).
Proof.
  unfold reshape_F. intros H t s x y Ht Hs Hx Hy.
  destruct (_ =? _); [|discriminate]. inv_ok H.
  unfold cell4, cell2.
  rewrite (map_seq_nth _ _ _ Ht), (map_seq_nth _ _ _ Hs),
    (map_seq_nth _ _ _ Hx), (map_seq_nth _ _ _ Hy).
  destruct (F_index (length a) (length (hd [] a)) t s (x + n_x * y) Ht Hs)
    as (-> & -> & ->).
  reflexivity.
Qed.

Lemma reshape_F_order_witness :
  exists r,
    reshape_F [[[Fin 1; Fin 2; Fin 3; Fin 4; Fin 5; Fin 6]]] 1 1 2 3 = Ok r
    /\ cell4 r 0 0 1 2 = Some (Fin 6).
Proof.
  destruct (reshape_F [[[Fin 1; Fin 2; Fin 3; Fin 4; Fin 5; Fin 6]]] 1 1 2 3)
    as [r|e] eqn:H; [|vm_compute in H; discriminate].
  exists r. split; [reflexivity|].
  apply (reshape_F_order [[[Fin 1; Fin 2; Fin 3; Fin 4; Fin 5; Fin 6]]]
           2 3 r H 0 0 1 2); simpl; lia.
Defined.

(** ** Initial conditions at the non-interior bins *)

Lemma compress_agree {A} (flags : list bool) (l l' : list A) :
  length l = length l' ->
  (forall b, nth_error flags b = Some true ->
             nth_error l b = nth_error l' b) ->
  compress flags l = compress flags l'.
Proof.
  revert l l'; induction flags as [|f fs IH]; intros l l' Hl H.
  - now destruct l, l'.
  - destruct l as [|x xs], l' as [|y ys]; simpl in *; try discriminate;
      auto.
    assert (Hrec : compress fs xs = compress fs ys).
    { apply IH; [lia|]. intros b Hb. apply (H (S b) Hb). }
    destruct f; [|exact Hrec].
    specialize (H 0 eq_refl). simpl in H. inv_ok H. now f_equal.
Qed.

Lemma select_rows_agree (flags : list bool) (m m' : mat) :
  Forall2 (fun r r' =>
             length r = length r'
             /\ forall b, nth_error flags b = Some true ->
                          nth_error r b = nth_error r' b) m m' ->
  mapM (np_select flags) m = mapM (np_select flags) m'.
Proof.
  induction 1 as [|r r' m m' [Hl Hc] _ IH]; simpl; [reflexivity|].
  unfold np_select at 1 3. rewrite Hl.
  rewrite (compress_agree flags r r' Hl Hc). now rewrite IH.
Qed.

(** With one environment, the initial conditions at the non-interior bins
    are never read: two models whose initial conditions have the same
    extents and agree on every interior bin give the same outcome. *)
Theorem initial_conditions_outside_interior_ignored core self env
    likelihood n_time time is_compute_acausal use_gpu state_names m m' :
  environments self = [env] ->
  initial_conditions_ self = IC1 m ->
  Forall2 (fun r r' =>
             length r = length r'
             /\ forall b, nth_error (is_track_interior_ env) b = Some true ->
                          nth_error r b = nth_error r' b) m m' ->
  _get_results core (set_initial_conditions_ self (IC1 m')) likelihood
    n_time time is_compute_acausal use_gpu state_names
  = _get_results core self likelihood n_time time is_compute_acausal use_gpu
      state_names.
Proof.
  intros Henv Hic Hagree. destruct self; simpl in *. subst.
  unfold _get_results, results_likelihood, select_ic. simpl.
  now rewrite (select_rows_agree _ _ _ Hagree).
Qed.

Lemma initial_conditions_outside_interior_ignored_witness :
  _get_results demo_core
    (set_initial_conditions_ demo_classifier
       (IC1 (repeat [Fin (1 # 10); Fin (1 # 10); Fin 7; Fin (1 # 10);
                     Fin (1 # 10)] 2)))
    demo_likelihood 2 None true false None
  = _get_results demo_core demo_classifier demo_likelihood 2 None true false
      None.
Proof.
  apply (initial_conditions_outside_interior_ignored demo_core
           demo_classifier demo_env demo_likelihood 2 None true false None
           (repeat (repeat (Fin (1 # 10)) 5) 2)); try reflexivity.
  repeat constructor;
    intros [|[|[|[|[|b]]]]] Hb; try reflexivity; try discriminate.
Defined.

(** * Further properties of [estimate_parameters] *)

Section EstimateFurther.
Variable Data : Type.
Variable FitArgs : Type.
Variable data_n_time : Data -> nat.
Variable fit : FitArgs -> Classifier -> result Classifier.
Variable estimate_likelihood : Classifier -> Data -> result likelihood_dict.
Variable core : Core.

Local Abbreviation predict' :=
  (predict Data data_n_time estimate_likelihood core).
Local Abbreviation em_step' :=
  (em_step Data data_n_time estimate_likelihood core).
Local Abbreviation em_loop' :=
  (em_loop Data data_n_time estimate_likelihood core).
Local Abbreviation estimate_parameters' :=
  (estimate_parameters Data FitArgs data_n_time fit estimate_likelihood core).

(** With a cap of zero or less the loop body never runs: the results of
    the first [predict] are returned with a trace of one entry, and the
    warning is logged only when the cap is exactly zero. *)
Theorem estimate_parameters_no_iterations self fit_args args tolerance
    max_iter sl eic edt self0 self1 results :
  (max_iter <= 0)%Z ->
  fit fit_args self = Ok self0 ->
  predict Data data_n_time estimate_likelihood core
    (mkPredictArgs (pa_data args) (pa_time args) (pa_is_compute_acausal args)
       (pa_use_gpu args) (pa_state_names args)
       (Some (or_default (pa_store_likelihood args) sl)))
    self0 = Ok (self1, results) ->
  estimate_parameters Data FitArgs data_n_time fit estimate_likelihood core
    self fit_args args tolerance max_iter sl eic edt
  = Some (Ok (mkOutcome results [data_log_likelihood results] self1 false 0
                (if (max_iter =? 0)%Z then [warning_max_iter] else []))).
Proof.
  intros Hm Hfit Hp. unfold estimate_parameters.
  rewrite Hfit. cbn [bind]. rewrite Hp.
  replace (Z.to_nat max_iter) with 0 by lia. simpl.
  destruct (Z.ltb_spec 0 max_iter); [lia|]. reflexivity.
Qed.

(** The first turn of the loop needs the acausal posterior: with
    [estimate_initial_conditions] on and [is_compute_acausal] off, a run
    whose cap is positive raises [AttributeError] after the first
    [predict]. *)
Theorem estimate_parameters_needs_acausal self fit_args args tolerance
    max_iter sl edt self0 self1 results :
  (0 < max_iter)%Z ->
  pa_is_compute_acausal args = Some false ->
  fit fit_args self = Ok self0 ->
  predict Data data_n_time estimate_likelihood core
    (mkPredictArgs (pa_data args) (pa_time args) (pa_is_compute_acausal args)
       (pa_use_gpu args) (pa_state_names args)
       (Some (or_default (pa_store_likelihood args) sl)))
    self0 = Ok (self1, results) ->
  ds_time results <> [] ->
  estimate_parameters Data FitArgs data_n_time fit estimate_likelihood core
    self fit_args args tolerance max_iter sl true edt
  = Some (Raise AttributeError).
Proof.
  intros Hm Hflag Hfit Hp Htime. unfold estimate_parameters.
  rewrite Hfit. cbn [bind]. rewrite Hp.
  assert (Hnone : ds_acausal_posterior results = None).
  { unfold predict in Hp. inv_bind_as Hp lik Hlik. inv_bind_as Hp r Hr.
    injection Hp as _ <-. simpl in Hr. rewrite Hflag in Hr. simpl in Hr.
    destruct (get_results_convert _ _ _ _ _ _ _ _ _ Hr)
      as (res & dll & Hf & Hconv).
    destruct (convert_dataset _ _ _ _ _ _ Hconv) as (_ & _ & Hn & _).
    apply Hn. now apply Hf. }
  destruct (Z.to_nat max_iter) as [|fuel] eqn:Ef; [lia|].
  simpl. destruct (Z.ltb_spec 0 max_iter); [|lia].
  unfold em_step, update_initial_conditions, isel_time0_acausal. simpl.
  destruct (ds_time results); [contradiction|].
  now rewrite Hnone.
Qed.

(** The returned results are those of the last pass: the last entry of
    the trace is their data log likelihood. *)
Theorem estimate_parameters_last_entry self fit_args args tolerance max_iter
    sl eic edt out :
  estimate_parameters Data FitArgs data_n_time fit estimate_likelihood core
    self fit_args args tolerance max_iter sl eic edt
  = Some (Ok out) ->
  last (out_data_log_likelihoods out) NaN
  = data_log_likelihood (out_results out).
Proof.
  unfold estimate_parameters. intros H.
  destruct (do self0 <- fit fit_args self; _) as [[self1 results]|e];
    [|discriminate].
  match type of H with
  | context [em_loop ?D ?n ?el ?c ?fuel ?a ?t ?m ?s ?i ?d ?nt ?st0] =>
      destruct (em_loop D n el c fuel a t m s i d nt st0)
        as [[st'|e]|] eqn:Hloop; try discriminate;
      pose proof (em_loop_invariant D n el c
                    (fun x => last (em_data_log_likelihoods x) NaN
                              = data_log_likelihood (em_results x))
                    a t m s i d nt) as Hinv
  end.
  injection H as <-. simpl.
  destruct Hinv with (3 := Hloop) as [Hl _]; [|reflexivity|exact Hl].
  intros st1 st2 _ _ E. apply em_step_spec in E.
  destruct E as (_ & _ & ->). apply last_last.
Qed.
End EstimateFurther.

Lemma estimate_parameters_no_iterations_witness :
  exists out,
    demo_estimate_parameters 0 = Some (Ok out)
    /\ out_n_iter out = 0
    /\ out_warnings out = [warning_max_iter].
Proof.
  destruct (predict unit (fun _ => 2) demo_estimate_likelihood demo_core
              (mkPredictArgs tt None None None None (Some true))
              demo_classifier) as [[s1 r]|e] eqn:Hp;
    [|vm_compute in Hp; discriminate].
  pose proof (estimate_parameters_no_iterations unit unit (fun _ => 2)
                demo_fit demo_estimate_likelihood demo_core demo_classifier
                tt demo_args (1 # 10000) 0 true true true demo_classifier
                s1 r ltac:(lia) eq_refl Hp) as H.
  eexists. split; [exact H|]. split; reflexivity.
Defined.

Lemma estimate_parameters_needs_acausal_witness :
  estimate_parameters unit unit (fun _ => 2) demo_fit
    demo_estimate_likelihood demo_core demo_classifier tt demo_args_causal
    (1 # 10000) 3 true true true
  = Some (Raise AttributeError).
Proof.
  destruct (predict unit (fun _ => 2) demo_estimate_likelihood demo_core
              (mkPredictArgs tt None (Some false) None None (Some true))
              demo_classifier) as [[s1 r]|e] eqn:Hp;
    [|vm_compute in Hp; discriminate].
  apply (estimate_parameters_needs_acausal unit unit (fun _ => 2) demo_fit
           demo_estimate_likelihood demo_core demo_classifier tt
           demo_args_causal (1 # 10000) 3 true true demo_classifier s1 r);
    try reflexivity; try exact Hp.
  vm_compute in Hp. injection Hp as _ <-. discriminate.
Defined.

Lemma estimate_parameters_last_entry_witness :
  exists out,
    demo_estimate_parameters 2 = Some (Ok out)
    /\ last (out_data_log_likelihoods out) NaN
       = data_log_likelihood (out_results out).
Proof.
  destruct (demo_estimate_parameters 2) as [[out|e]|] eqn:Hrun;
    [| vm_compute in Hrun; discriminate | vm_compute in Hrun; discriminate].
  exists out. split; [reflexivity|].
  exact (estimate_parameters_last_entry unit unit (fun _ => 2) demo_fit
           demo_estimate_likelihood demo_core demo_classifier tt demo_args
           (1 # 10000) 2 true true true out Hrun).
Defined.

Lemma em_loop_stored (Data : Type) (data_n_time : Data -> nat)
    (el1 el2 : Classifier -> Data -> result likelihood_dict) core args
    tolerance max_iter eic edt n_time :
  forall fuel st,
    em_loop Data data_n_time el1 core fuel args tolerance max_iter true eic
      edt n_time st
    = em_loop Data data_n_time el2 core fuel args tolerance max_iter true eic
        edt n_time st.
Proof.
  induction fuel as [|fuel IH]; intros st; simpl; [reflexivity|].
  destruct (negb (em_converged st) && _); [|reflexivity].
  change (em_step Data data_n_time el2 core args tolerance true eic edt
            n_time st)
    with (em_step Data data_n_time el1 core args tolerance true eic edt
            n_time st).
  destruct (em_step Data data_n_time el1 core args tolerance true eic edt
              n_time st); [apply IH | reflexivity].
Qed.

(** With [store_likelihood] in force, the likelihood is estimated once, on
    the fitted model: two likelihood algorithms that agree there give the
    same run, whatever they do on the re-estimated models. *)
Theorem stored_likelihood_estimated_once (Data FitArgs : Type)
    (data_n_time : Data -> nat)
    (fit : FitArgs -> Classifier -> result Classifier)
    (el1 el2 : Classifier -> Data -> result likelihood_dict) core
    self fit_args args tolerance max_iter sl eic edt self0 :
  or_default (pa_store_likelihood args) sl = true ->
  fit fit_args self = Ok self0 ->
  el1 self0 (pa_data args) = el2 self0 (pa_data args) ->
  estimate_parameters Data FitArgs data_n_time fit el1 core self fit_args
    args tolerance max_iter sl eic edt
  = estimate_parameters Data FitArgs data_n_time fit el2 core self fit_args
      args tolerance max_iter sl eic edt.
Proof.
  intros Hsl Hfit Hel. unfold estimate_parameters.
  rewrite Hfit, Hsl. cbn [bind]. unfold predict. simpl. rewrite Hel.
  destruct (el2 self0 (pa_data args)) as [lik|e]; [|reflexivity].
  cbn [bind].
  destruct (_get_results core (set_likelihood_ self0 lik) lik _ _ _ _ _)
    as [ds|e]; [|reflexivity].
  cbn [bind]. now rewrite (em_loop_stored Data data_n_time el1 el2).
Qed.

Lemma stored_likelihood_estimated_once_witness :
  estimate_parameters unit unit (fun _ => 2) demo_fit
    demo_estimate_likelihood demo_core demo_classifier tt demo_args
    (1 # 10000) 2 true true true
  = estimate_parameters unit unit (fun _ => 2) demo_fit
      (fun self _ =>
         match initial_conditions_ self with
         | IC1 ((Fin q :: _) :: _) =>
             if Qeq_bool q (1 # 10) then Ok demo_likelihood
             else Raise CoreError
         | _ => Raise CoreError
         end)
      demo_core demo_classifier tt demo_args (1 # 10000) 2 true true true.
Proof.
  apply (stored_likelihood_estimated_once unit unit (fun _ => 2) demo_fit
           _ _ demo_core demo_classifier tt demo_args (1 # 10000) 2 true
           true true demo_classifier); reflexivity.
Defined.

(** ** Refinement on a two-dimensional layout *)

Lemma reshape_F_first a n_time n_states n_x n_y r :
  reshape_F a n_time n_states n_x n_y = Ok r ->
  n_time <> 0 -> n_states <> 0 ->
  exists slab srest trest,
    r = (slab :: srest) :: trest /\ length slab = n_x.
Proof.
  unfold reshape_F. destruct (_ =? _); intros H Ht Hs; [|discriminate].
  inv_ok H. destruct n_time as [|T]; [contradiction|].
  destruct n_states as [|S]; [contradiction|].
  rewrite <- !cons_seq. cbn [map].
  do 3 eexists. split; [reflexivity|].
  now rewrite length_map, length_seq.
Qed.

(** On a single environment with a two-dimensional layout, the time-0
    slice of the acausal posterior has the axes (state, x, y).  Once it has
    replaced [initial_conditions_], as a turn of the refinement loop does,
    the boolean interior index no longer matches the second axis: every
    further pass raises [IndexError] as soon as its likelihood buffer is
    built (unless the grid has as many x bins as bins in all). *)
Theorem two_dimensional_slice_breaks_next_pass core self env n_x n_y
    likelihood n_time time use_gpu state_names ds :
  environments self = [env] ->
  (1 < n_position_dims env) ->
  centers_shape_ env = (n_x, n_y) ->
  n_x <> length (is_track_interior_ env) ->
  _get_results core self likelihood n_time time true use_gpu state_names
  = Ok ds ->
  ds_time ds <> [] -> ds_n_state_names ds <> 0 ->
  exists ic,
    isel_time0_acausal ds = Ok ic
    /\ forall likelihood' n_time' time' acausal' use_gpu' state_names' lik,
         results_likelihood core self likelihood' n_time' use_gpu' = Ok lik ->
         _get_results core (set_initial_conditions_ self ic) likelihood'
           n_time' time' acausal' use_gpu' state_names'
         = Raise IndexError.
Proof.
  intros Henv Hdims Hshape Hnx H Htime Hnames.
  unfold _get_results in H. rewrite Henv in H. simpl in H.
  inv_bind_as H lik0 Hlik0. inv_bind_as H ic0 Hic0. inv_bind_as H ct Hct.
  inv_bind_as H lk Hlk. inv_bind_as H pd Hpd. destruct pd as [posterior dll].
  inv_bind_as H causal Hcausal. inv_bind_as H acausal Hacausal.
  inv_bind_as Hacausal cp Hcp. inv_bind_as Hacausal ct' Hct'.
  inv_bind_as Hacausal sm Hsm. inv_bind_as Hacausal a Ha.
  injection Hacausal as <-.
  destruct (convert_single_inv _ _ _ _ _ _ _ _ Henv H)
    as (diag & sc & _ & _ & _ & Ht & En & _ & _ & _ & Hconv).
  simpl in Hconv.
  destruct (ds_acausal_posterior ds) as [v|] eqn:Ev; [|contradiction].
  destruct Hconv as (ma & Hma & Hrest).
  destruct (Nat.ltb_spec 1 (n_position_dims env)); [|lia].
  rewrite Hshape in Hrest. simpl in Hrest.
  destruct Hrest as (ra & Hra & ->).
  destruct (reshape_F_first _ _ _ _ _ _ Hra)
    as (slab & srest & trest & -> & Hslab).
  { rewrite <- Ht. intros E. apply Htime. now apply length_zero_iff_nil. }
  { now rewrite <- En. }
  exists (IC2 (slab :: srest)). split.
  - unfold isel_time0_acausal. rewrite Ev.
    destruct (ds_time ds); [contradiction | reflexivity].
  - intros likelihood' n_time' time' acausal' use_gpu' state_names' lik Hlik.
    unfold _get_results.
    change (results_likelihood core
              (set_initial_conditions_ self (IC2 (slab :: srest)))
              likelihood' n_time' use_gpu')
      with (results_likelihood core self likelihood' n_time' use_gpu').
    rewrite Hlik. cbn [bind]. simpl. rewrite Henv. simpl.
    unfold np_select. rewrite Hslab.
    destruct (Nat.eqb_spec n_x (length (is_track_interior_ env)));
      [contradiction | reflexivity].
Qed.

Lemma two_dimensional_slice_breaks_next_pass_witness :
  exists ic,
    _get_results demo_core (set_initial_conditions_ demo_classifier_box ic)
      demo_likelihood_box 2 None true false None
    = Raise IndexError.
Proof.
  destruct (_get_results demo_core demo_classifier_box demo_likelihood_box 2
              None true false None) as [ds|e] eqn:H;
    [|vm_compute in H; discriminate].
  destruct (two_dimensional_slice_breaks_next_pass demo_core
              demo_classifier_box demo_env_box 2 2 demo_likelihood_box 2
              None false None ds eq_refl ltac:(simpl; lia) eq_refl
              ltac:(simpl; lia) H) as (ic & _ & Hnext).
  - vm_compute in H. injection H as <-. discriminate.
  - vm_compute in H. injection H as <-. discriminate.
  - exists ic.
    destruct (results_likelihood demo_core demo_classifier_box
                demo_likelihood_box 2 false) as [lik|e] eqn:Hl;
      [|vm_compute in Hl; discriminate].
    exact (Hnext demo_likelihood_box 2 None true false None lik Hl).
Defined.

(** ** The transition at the non-interior bins *)

Lemma nonzero_from_In (flags : list bool) (i k : nat) :
  In k (nonzero_from i flags) ->
  exists b, k = i + b /\ nth_error flags b = Some true.
Proof.
  revert i; induction flags as [|f fs IH]; intros i H; simpl in H.
  - contradiction.
  - destruct f.
    + destruct H as [<-|H].
      * exists 0. split; [lia | reflexivity].
      * destruct (IH _ H) as (b & -> & Hb). exists (S b). split; [lia|auto].
    + destruct (IH _ H) as (b & -> & Hb). exists (S b). split; [lia|auto].
Qed.

Lemma nonzero_In (flags : list bool) (k : nat) :
  In k (nonzero flags) -> nth_error flags k = Some true.
Proof.
  intros H. destruct (nonzero_from_In _ _ _ H) as (b & -> & Hb). exact Hb.
Qed.

Lemma take_alike {A} (R : A -> A -> Prop) (idx : list nat) (a a' : list A) :
  alike_at R idx a a' ->
  (take idx a = Raise IndexError /\ take idx a' = Raise IndexError)
  \/ exists v v', take idx a = Ok v /\ take idx a' = Ok v' /\ Forall2 R v v'.
Proof.
  unfold alike_at, take. induction idx as [|i idx IH]; intros H; simpl.
  - right. exists [], []. repeat split. constructor.
  - pose proof (H i (or_introl eq_refl)) as Hi.
    destruct (nth_error a i) as [x|], (nth_error a' i) as [x'|];
      try contradiction; [|now left].
    destruct IH as [[E E']|(v & v' & E & E' & HR)].
    + intros j Hj. apply H. now right.
    + left. cbn [bind]. now rewrite E, E'.
    + right. exists (x :: v), (x' :: v'). cbn [bind]. rewrite E, E'.
      repeat split. now constructor.
Qed.

Lemma mapM_alike {A B} (F : A -> result B) (v v' : list A) :
  Forall2 (fun x x' => F x = F x') v v' -> mapM F v = mapM F v'.
Proof.
  induction 1 as [|x x' v v' Hx _ IH]; simpl; [reflexivity|].
  now rewrite Hx, IH.
Qed.

Lemma take_then_alike {A B} (F : A -> result B) (idx : list nat)
    (a a' : list A) :
  alike_at (fun x x' => F x = F x') idx a a' ->
  (do v <- take idx a; mapM F v) = (do v <- take idx a'; mapM F v).
Proof.
  intros H. destruct (take_alike _ _ _ _ H)
    as [[E E']|(v & v' & E & E' & HR)]; rewrite E, E'; cbn [bind];
    [reflexivity | now apply mapM_alike].
Qed.

Lemma take_agree {A} (idx : list nat) (r r' : list A) :
  (forall l, In l idx -> nth_error r l = nth_error r' l) ->
  take idx r = take idx r'.
Proof.
  intros H. unfold take. induction idx as [|i idx IH]; simpl;
    [reflexivity|].
  rewrite (H i (or_introl eq_refl)).
  rewrite IH; [reflexivity|]. intros l Hl. apply H. now right.
Qed.

Lemma shape_alike {A} (R : A -> A -> Prop) (idx : list nat) (a a' : list A) :
  length a = length a' ->
  (forall i x x', In i idx -> nth_error a i = Some x ->
                  nth_error a' i = Some x' -> R x x') ->
  alike_at R idx a a'.
Proof.
  intros Hl H i Hi.
  destruct (nth_error a i) as [x|] eqn:E, (nth_error a' i) as [x'|] eqn:E';
    auto.
  - eapply H; eauto.
  - apply nth_error_None in E'.
    assert (i < length a) by (apply nth_error_Some; congruence). lia.
  - apply nth_error_None in E.
    assert (i < length a') by (apply nth_error_Some; congruence). lia.
Qed.

Lemma st_interior_agree (n_states : nat) (flags : list bool) (a a' : arr4)
    (p n : nat) :
  has_shape4 a p p n n -> has_shape4 a' p p n n ->
  (forall i j k l,
      nth_error flags k = Some true -> nth_error flags l = Some true ->
      cell4 a i j k l = cell4 a' i j k l) ->
  st_interior n_states flags a = st_interior n_states flags a'.
Proof.
  intros [Hp Hq] [Hp' Hq'] Hcell. unfold st_interior, take_ix4.
  destruct (_ =? 0); [reflexivity|].
  rewrite Forall_forall in Hq, Hq'.
  apply take_then_alike.
  apply shape_alike; [exact (eq_trans Hp (eq_sym Hp'))|].
  intros i b b' _ Eb Eb'.
  destruct (Hq _ (nth_error_In _ _ Eb)) as [Hlb Hfb].
  destruct (Hq' _ (nth_error_In _ _ Eb')) as [Hlb' Hfb'].
  rewrite Forall_forall in Hfb, Hfb'.
  apply take_then_alike.
  apply shape_alike; [exact (eq_trans Hlb (eq_sym Hlb'))|].
  intros j c c' _ Ec Ec'.
  destruct (Hfb _ (nth_error_In _ _ Ec)) as [Hlc Hfc].
  destruct (Hfb' _ (nth_error_In _ _ Ec')) as [Hlc' Hfc'].
  apply take_then_alike.
  apply shape_alike; [exact (eq_trans Hlc (eq_sym Hlc'))|].
  intros k r r' Hk Er Er'. apply take_agree. intros l Hl.
  apply nonzero_In in Hk. apply nonzero_In in Hl.
  specialize (Hcell i j k l Hk Hl). unfold cell4, cell2 in Hcell.
  unfold arr4, mat, vec in *.
  now rewrite Eb, Eb', Ec, Ec', Er, Er' in Hcell.
Qed.

(** With one environment, the transition entries whose source or target
    bin is not interior are never read: two models whose fitted transitions
    have the same shape and agree wherever both bins are interior give the
    same outcome. *)
Theorem transition_outside_interior_ignored core self env likelihood n_time
    time is_compute_acausal use_gpu state_names ct' p n :
  environments self = [env] ->
  has_shape4 (continuous_state_transition_ self) p p n n ->
  has_shape4 ct' p p n n ->
  (forall i j k l,
      nth_error (is_track_interior_ env) k = Some true ->
      nth_error (is_track_interior_ env) l = Some true ->
      cell4 ct' i j k l = cell4 (continuous_state_transition_ self) i j k l) ->
  _get_results core (set_continuous_state_transition_ self ct') likelihood
    n_time time is_compute_acausal use_gpu state_names
  = _get_results core self likelihood n_time time is_compute_acausal use_gpu
      state_names.
Proof.
  intros Henv Hs Hs' Hcell.
  pose proof (fun n_states =>
                st_interior_agree n_states (is_track_interior_ env)
                  ct' (continuous_state_transition_ self) p n Hs' Hs Hcell)
    as Hst.
  destruct self; cbn [environments continuous_state_transition_] in *.
  subst. unfold _get_results, results_likelihood.
  cbn [set_continuous_state_transition_ environments observation_models
       continuous_transition_types max_pos_bins_ initial_conditions_
       continuous_state_transition_ discrete_state_transition_ likelihood_
       length Nat.eqb].
  destruct (fill_likelihood _ _ _ _ _ _ _ _); [|reflexivity].
  cbn [bind]. now rewrite !Hst.
Qed.

Lemma transition_outside_interior_ignored_witness :
  _get_results demo_core
    (set_continuous_state_transition_ demo_classifier
       (repeat (repeat demo_kernel_altered 2) 2))
    demo_likelihood 2 None true false None
  = _get_results demo_core demo_classifier demo_likelihood 2 None true false
      None.
Proof.
  apply (transition_outside_interior_ignored demo_core demo_classifier
           demo_env demo_likelihood 2 None true false None
           (repeat (repeat demo_kernel_altered 2) 2) 2 5).
  - reflexivity.
  - repeat (split || apply Forall_cons || apply Forall_nil).
  - repeat (split || apply Forall_cons || apply Forall_nil).
  - intros [|[|i]] [|[|j]] [|[|[|[|[|k]]]]] [|[|[|[|[|l]]]]] Hk Hl;
      try discriminate; reflexivity.
Defined.

(** * State probabilities *)

Lemma fadd_zero_r (x : float) : fadd x zero = x.
Proof.
  destruct x as [| | |q]; try reflexivity.
  unfold fadd, zero. f_equal. destruct q as [n dn].
  unfold Qplus. simpl. now rewrite Z.mul_1_r, Z.add_0_r, Pos.mul_1_r.
Qed.

Lemma mask_row_scatter (flags : list bool) (vals : vec) :
  mask_row flags (scatter flags vals)
  = Ok (map (fun bx : bool * float => if fst bx then snd bx else zero)
          (combine flags (scatter flags vals))).
Proof.
  unfold mask_row. now rewrite scatter_length, Nat.eqb_refl.
Qed.

(** The cells of the non-interior bins add nothing to the sum over the
    bins: they are 0 after [mask]. *)
Lemma nansum_masked_scatter (flags : list bool) (vals : vec) :
  length vals = count_true flags ->
  nansum (map (fun bx : bool * float => if fst bx then snd bx else zero)
            (combine flags (scatter flags vals)))
  = nansum vals.
Proof.
  unfold nansum, count_true. generalize zero at 2 3 as acc.
  revert vals; induction flags as [|f fs IH]; intros vals acc H;
    simpl in *.
  - destruct vals; [reflexivity | discriminate].
  - destruct f; simpl in *.
    + destruct vals as [|v vs]; [discriminate|]. simpl.
      destruct (isnan v); simpl; apply IH; now injection H.
    + rewrite fadd_zero_r. now apply IH.
Qed.

Lemma broadcast3_rows t s k v out :
  broadcast3 t s k v = Ok out ->
  Forall (Forall (fun row => length row = k)) out.
Proof.
  unfold broadcast3. intros H. inv_bind_as H v0 Hv0.
  eapply mapM_Forall; [|exact H]. cbn beta. intros slab y Hy.
  inv_bind_as Hy s1 Hs1. eapply mapM_Forall; [|exact Hy]. cbn beta.
  intros row r Hr. eapply broadcast_axis_length; eauto.
Qed.

Lemma map_map_ext_rows {B} (f g : vec -> B) (k : nat) (v : arr3) :
  Forall (Forall (fun row => length row = k)) v ->
  (forall row, length row = k -> f row = g row) ->
  map (map f) v = map (map g) v.
Proof.
  intros Hv Hfg. apply map_ext_Forall.
  eapply Forall_impl; [|exact Hv]. cbn beta. intros slab Hs.
  apply map_ext_Forall. eapply Forall_impl; [|exact Hs]. auto.
Qed.

(** After the boolean assignment and [mask], the NaN-skipping sum over
    the bins is the sum of the assigned values. *)
Lemma assign_bins_sums core d n_time n_states flags v causal m :
  assign_bins core d n_time n_states flags v = Ok causal ->
  mask causal flags = Ok m ->
  exists v',
    broadcast3 n_time n_states (count_true flags) v = Ok v'
    /\ map (map nansum) m
       = map (map (fun row => nansum (astype1 core d row))) v'.
Proof.
  unfold assign_bins. intros H Hm. inv_bind_as H v' Hv'. inv_ok H.
  exists v'. split; [exact Hv'|].
  unfold mask in Hm.
  rewrite (mapM_map _ _
             (map (fun row =>
                map (fun bx : bool * float =>
                       if fst bx then snd bx else zero)
                  (combine flags (scatter flags (astype1 core d row))))))
    in Hm.
  - inv_ok Hm. rewrite map_map.
    rewrite (map_ext _ _ (fun slab => map_map _ nansum slab)).
    apply (map_map_ext_rows _ _ (count_true flags));
      [eapply broadcast3_rows; eauto|].
    intros row Hr. apply nansum_masked_scatter. unfold astype1.
    now rewrite length_map.
  - apply Forall_forall. intros slab _.
    apply mapM_map. apply Forall_forall. intros row _.
    apply mask_row_scatter.
Qed.

(** [predict_proba] on the result of a single environment with a
    one-dimensional layout: the probability of a state at a time step is
    the NaN-skipping sum of what the causal recursion returned for it (cast
    to the working type); the cells of the non-interior bins contribute
    nothing. *)
Theorem predict_proba_sums_interior core self env likelihood n_time time
    is_compute_acausal use_gpu state_names ds :
  environments self = [env] ->
  n_position_dims env <= 1 ->
  _get_results core self likelihood n_time time is_compute_acausal use_gpu
    state_names = Ok ds ->
  let flags := is_track_interior_ env in
  let n_states := length (discrete_state_transition_ self) in
  let d := dtype_of use_gpu in
  exists lik ic ct lk posterior v',
    results_likelihood core self likelihood n_time use_gpu = Ok lik
    /\ select_ic flags (initial_conditions_ self) = Ok ic
    /\ st_interior n_states flags (continuous_state_transition_ self) = Ok ct
    /\ select_bins flags lik = Ok lk
    /\ compute_causal core use_gpu
         (astype_ic core d ic) (astype4 core d ct)
         (astype2 core d (discrete_state_transition_ self))
         (astype3 core d lk)
       = Ok (posterior, data_log_likelihood ds)
    /\ broadcast3 n_time n_states (count_true flags) posterior = Ok v'
    /\ pr_causal_posterior (predict_proba ds)
       = Reduced (map (map (fun row => nansum (astype1 core d row))) v').
Proof.
  intros Henv Hdims H flags n_states d.
  unfold _get_results in H. rewrite Henv in H. simpl in H.
  inv_bind_as H lik Hlik. inv_bind_as H ic Hic. inv_bind_as H ct Hct.
  inv_bind_as H lk Hlk. inv_bind_as H pd Hpd. destruct pd as [posterior dll].
  inv_bind_as H causal Hcausal. inv_bind_as H acausal Hacausal.
  destruct (convert_single_inv _ _ _ _ _ _ _ _ Henv H)
    as (diag & sc & _ & _ & _ & _ & _ & Hdll & Hl & Hc & Ha).
  simpl in Hl, Hc, Ha. subst dll.
  unfold converted in Hl, Hc, Ha.
  destruct (Nat.ltb_spec 1 (n_position_dims env)); [lia|].
  destruct Hl as (ml & _ & _ & El). destruct Hc as (mc & Hmc & _ & Ec).
  destruct (assign_bins_sums _ _ _ _ _ _ _ _ Hcausal Hmc)
    as (v' & Hv' & Hsum).
  assert (Hxy : match ds_acausal_posterior ds with
                | Some v => has_xy v
                | None => false
                end = false).
  { destruct (ds_acausal_posterior ds) as [v|]; [|reflexivity].
    destruct acausal as [a|]; [|contradiction].
    destruct Ha as (ma & _ & _ & ->). reflexivity. }
  exists lik, ic, ct, lk, posterior, v'.
  repeat split; auto.
  unfold predict_proba. rewrite Hxy, El, Ec. simpl. now rewrite Hsum.
Qed.

Lemma predict_proba_sums_interior_witness :
  exists ds v',
    _get_results demo_core demo_classifier demo_likelihood 2 None true false
      None = Ok ds
    /\ pr_causal_posterior (predict_proba ds)
       = Reduced (map (map (fun row => nansum (astype1 demo_core float64 row)))
                    v').
Proof.
  destruct (_get_results demo_core demo_classifier demo_likelihood 2 None
              true false None) as [ds|e] eqn:H;
    [|vm_compute in H; discriminate].
  destruct (predict_proba_sums_interior demo_core demo_classifier demo_env
              demo_likelihood 2 None true false None ds eq_refl
              ltac:(simpl; lia) H)
    as (lik & ic & ct & lk & posterior & v' & _ & _ & _ & _ & _ & _ & Hp).
  exists ds, v'. split; [reflexivity | exact Hp].
Defined.

(** * What is checked before the recursion *)





(** ** The likelihood buffer *)











(** ** The interior selections *)















(** ** The extents of the scaled likelihood *)





(** ** Fail-fast, and what goes unnoticed *)


